(** * ConwayPad: a shallow embedding of the server and client logic

    The development follows the layers of the program:
    - [JsString]: the JavaScript string operations the program uses;
    - [Regex]: the backtracking semantics of the regular expressions that
      [parseDeployMessage] and [generateFallbackResponse] are written with;
    - [Deploy]: [parseDeployMessage], [deployTokenViaSDK] and the deploy
      branches of the routes (server/routes.ts);
    - [Js]: the JavaScript values of a JSON document;
    - [Conway]: [normalizeToken] (client/src/lib/conway.ts);
    - [Inference]: [callConwayAI], the pay-per-request relay;
    - [Fallback]: [generateFallbackResponse];
    - [Storage]: the chat-history operations of [PgStorage] (server/storage.ts);
    - [Wire], [Shape]: vocabulary for event streams and for the shape of texts;
    - [Routes]: the handlers of [registerRoutes] around the deploy dispatch
      and the relay (server/routes.ts);
    - [Client]: the helpers of client/src/lib/conway.ts and the forms and the
      stream reader of the pages.

    Text is modelled as Rocq strings read as sequences of code units below
    256 (ASCII and Latin-1). *)

From Stdlib Require Import String Ascii List ZArith NArith QArith Qcanon Bool Lia.
From stdpp Require Import gmap strings list fin_maps pretty.

Local Open Scope string_scope.
Local Open Scope list_scope.

(* ===================================================================== *)
(** ** JavaScript string operations                                       *)
(* ===================================================================== *)

Module JsString.

Definition str := list ascii.

Definition code (c : ascii) : N := N_of_ascii c.

Definition in_range (c lo hi : ascii) : bool :=
  (code lo <=? code c)%N && (code c <=? code hi)%N.

Definition is_upper (c : ascii) : bool := in_range c "A" "Z".
Definition is_lower (c : ascii) : bool := in_range c "a" "z".
Definition is_digit (c : ascii) : bool := in_range c "0" "9".
Definition is_letter (c : ascii) : bool := is_upper c || is_lower c.
Definition is_alnum (c : ascii) : bool := is_letter c || is_digit c.

(** [IsWordChar] of the regular-expression semantics: [A-Za-z0-9_]. *)
Definition is_word (c : ascii) : bool := is_alnum c || Ascii.eqb c "_".

(** White space and line terminators among the code units below 256:
    TAB, LF, VT, FF, CR, SPACE and NO-BREAK SPACE.  This is the set of
    [\s] and the set [String.prototype.trim] strips. *)
Definition is_space (c : ascii) : bool :=
  let n := code c in
  ((9 <=? n)%N && (n <=? 13)%N) || (n =? 32)%N || (n =? 160)%N.

(** Line terminators (LF and CR below 256): what [.] does not match. *)
Definition is_line_terminator (c : ascii) : bool :=
  let n := code c in (n =? 10)%N || (n =? 13)%N.

Definition upper_ascii (c : ascii) : ascii :=
  if is_lower c then ascii_of_N (code c - 32) else c.

Definition lower_ascii (c : ascii) : ascii :=
  if is_upper c then ascii_of_N (code c + 32) else c.

(** [toLowerCase] on code units below 256: A-Z and the Latin-1 capitals
    (U+00C0..U+00DE except the multiplication sign U+00D7) move up by 32. *)
Definition lower_char (c : ascii) : ascii :=
  let n := code c in
  if is_upper c then ascii_of_N (n + 32)
  else if (192 <=? n)%N && (n <=? 222)%N && negb (n =? 215)%N
       then ascii_of_N (n + 32)
       else c.

Definition toLowerCase (s : str) : str := map lower_char s.

(** [toUpperCase], used by the program only on text matched by
    [[A-Za-z]{2,10}], where it is the ASCII upper-casing. *)
Definition toUpperCase (s : str) : str := map upper_ascii s.

Fixpoint startsWith (s p : str) : bool :=
  match p, s with
  | [], _ => true
  | _ :: _, [] => false
  | a :: p', b :: s' => Ascii.eqb a b && startsWith s' p'
  end.

(** [s.includes(w)] *)
Fixpoint includes (s w : str) : bool :=
  startsWith s w ||
  match s with
  | [] => false
  | _ :: s' => includes s' w
  end.

Fixpoint trimStart (s : str) : str :=
  match s with
  | c :: s' => if is_space c then trimStart s' else s
  | [] => []
  end.

Definition trim (s : str) : str := rev (trimStart (rev (trimStart s))).

(** [s.replace(/\s+/g, " ")]: every maximal run of white space becomes one
    space.  [in_run] tells that the previous character was white space. *)
Fixpoint collapse (in_run : bool) (s : str) : str :=
  match s with
  | [] => []
  | c :: s' =>
      if is_space c
      then (if in_run then collapse true s' else " "%char :: collapse true s')
      else c :: collapse false s'
  end.

Definition collapse_ws (s : str) : str := collapse false s.

Definition of_string (s : string) : str := list_ascii_of_string s.
Definition to_string (s : str) : string := string_of_list_ascii s.

(** JavaScript truthiness of a string: non-empty. *)
Definition nonempty (s : str) : bool :=
  match s with [] => false | _ => true end.

End JsString.

Import JsString.
Coercion of_string : string >-> str.

(* ===================================================================== *)
(** ** Regular expressions: the backtracking semantics                    *)
(* ===================================================================== *)

(** The regular expressions of routes.ts, as syntax trees, and their
    meaning as the language defines it: a depth-first search over the
    alternatives in priority order.  A matcher returns the list of the end
    states it can reach, best first; the continuation-passing matcher of
    the language definition returns the first state of that list its
    continuation accepts. *)

Module Regex.

Inductive cset_item : Type :=
| CChar (c : ascii)           (* one character                *)
| CRange (lo hi : ascii)      (* lo-hi                        *)
| CSpace.                     (* \s                           *)

Inductive regex : Type :=
| Empty                                   (* the empty pattern          *)
| Char (c : ascii)                        (* a literal character        *)
| Any                                     (* .                          *)
| Class (items : list cset_item)          (* [...]                      *)
| NClass (items : list cset_item)         (* [^...]                     *)
| Seq (r1 r2 : regex)                     (* r1 r2                      *)
| Alt (r1 r2 : regex)                     (* r1|r2                      *)
| Repeat (r : regex) (min : nat) (max : option nat) (greedy : bool)
                                          (* r{min,max}, r{min,max}?    *)
| Group (i : nat) (r : regex)             (* the i-th capturing (r)     *)
| LookAhead (r : regex)                   (* (?=r)                      *)
| NegLookAhead (r : regex)                (* (?!r)                      *)
| WordBoundary                            (* \b                         *)
| EndOfInput.                             (* $ (no m flag)              *)

(** Derived forms. *)
Definition Star r := Repeat r 0 None true.            (* r*   *)
Definition Plus r := Repeat r 1 None true.            (* r+   *)
Definition PlusLazy r := Repeat r 1 None false.       (* r+?  *)
Definition Opt r := Repeat r 0 (Some 1) true.         (* r?   *)
Definition Space := Class [CSpace].                   (* \s   *)
Definition NonSpace := NClass [CSpace].               (* \S   *)

Fixpoint Lit (s : str) : regex :=
  match s with
  | [] => Empty
  | [c] => Char c
  | c :: s' => Seq (Char c) (Lit s')
  end.

Fixpoint Alts (rs : list regex) : regex :=
  match rs with
  | [] => NegLookAhead Empty
  | [r] => r
  | r :: rs' => Alt r (Alts rs')
  end.

Fixpoint Seqs (rs : list regex) : regex :=
  match rs with
  | [] => Empty
  | [r] => r
  | r :: rs' => Seq r (Seqs rs')
  end.

(** The capturing groups inside a pattern, reset at each iteration of a
    quantifier. *)
Fixpoint groups_of (r : regex) : list nat :=
  match r with
  | Seq r1 r2 | Alt r1 r2 => groups_of r1 ++ groups_of r2
  | Repeat r1 _ _ _ | LookAhead r1 | NegLookAhead r1 => groups_of r1
  | Group i r1 => i :: groups_of r1
  | _ => []
  end.

(** A match state: the character before the current position (for [\b]),
    the input that remains, and the captures so far. *)
Record mstate : Type := MState {
  prev : option ascii;
  rest : str;
  caps : list (nat * str)
}.

Definition matcher : Type := mstate -> list mstate.

(** [Canonicalize] with the i flag and without the u flag: upper-casing.
    A code unit of 128 or more never canonicalizes to an ASCII one, so on
    the ASCII patterns of this program it is the ASCII upper-casing. *)
Definition canon (ic : bool) (c : ascii) : ascii :=
  if ic then upper_ascii c else c.

Definition item_has (ic : bool) (c : ascii) (it : cset_item) : bool :=
  match it with
  | CChar a => Ascii.eqb (canon ic a) (canon ic c)
  | CRange lo hi =>
      in_range c lo hi ||
      (ic && (in_range (upper_ascii c) lo hi || in_range (lower_ascii c) lo hi))
  | CSpace => is_space c
  end.

Definition class_has (ic : bool) (items : list cset_item) (c : ascii) : bool :=
  existsb (item_has ic c) items.

(** Consume one character accepted by [p]. *)
Definition one (p : ascii -> bool) : matcher := fun x =>
  match rest x with
  | c :: s => if p c then [MState (Some c) s (caps x)] else []
  | [] => []
  end.

Definition word_before (x : mstate) : bool :=
  match prev x with Some c => is_word c | None => false end.

Definition word_after (x : mstate) : bool :=
  match rest x with c :: _ => is_word c | [] => false end.

(** What was consumed between two states of one run. *)
Definition consumed (from to : str) : str :=
  firstn (length from - length to) from.
Arguments consumed : simpl never.

Definition set_cap (i : nat) (s : str) (x : mstate) : mstate :=
  MState (prev x) (rest x) ((i, s) :: caps x).

Definition clear_caps (ids : list nat) (x : mstate) : mstate :=
  MState (prev x) (rest x)
    (List.filter (fun p => negb (existsb (Nat.eqb (fst p)) ids)) (caps x)).

Definition get_cap (i : nat) (cs : list (nat * str)) : option str :=
  match List.find (fun p => Nat.eqb (fst p) i) cs with
  | Some p => Some (snd p)
  | None => None
  end.

Definition dec_max (max : option nat) : option nat :=
  match max with Some n => Some (Nat.pred n) | None => None end.

(** [RepeatMatcher]: an iteration that has no more mandatory rounds and
    consumes nothing is abandoned, so a round either lowers [min] or
    shortens the input, and [min + length (rest x) + 1] rounds of [fuel]
    are never used up. *)
Fixpoint repeat_loop (fuel : nat) (m : matcher) (ids : list nat)
    (min : nat) (max : option nat) (greedy : bool) (x : mstate) : list mstate :=
  match fuel with
  | O => []
  | S fuel' =>
      match max with
      | Some O => [x]
      | _ =>
          let again :=
            flat_map (fun y =>
                if Nat.eqb min 0 && Nat.eqb (length (rest y)) (length (rest x))
                then []
                else repeat_loop fuel' m ids (Nat.pred min) (dec_max max) greedy y)
              (m (clear_caps ids x)) in
          if negb (Nat.eqb min 0) then again
          else if greedy then again ++ [x]
          else x :: again
      end
  end.

Fixpoint run (ic : bool) (r : regex) : matcher :=
  match r with
  | Empty => fun x => [x]
  | Char c => one (fun a => Ascii.eqb (canon ic a) (canon ic c))
  | Any => one (fun a => negb (is_line_terminator a))
  | Class items => one (class_has ic items)
  | NClass items => one (fun a => negb (class_has ic items a))
  | Seq r1 r2 => fun x => flat_map (run ic r2) (run ic r1 x)
  | Alt r1 r2 => fun x => run ic r1 x ++ run ic r2 x
  | Repeat r1 min max greedy => fun x =>
      repeat_loop (min + length (rest x) + 1) (run ic r1) (groups_of r1)
        min max greedy x
  | Group i r1 => fun x =>
      map (fun y => set_cap i (consumed (rest x) (rest y)) y) (run ic r1 x)
  | LookAhead r1 => fun x =>
      match run ic r1 x with
      | y :: _ => [MState (prev x) (rest x) (caps y)]
      | [] => []
      end
  | NegLookAhead r1 => fun x =>
      match run ic r1 x with
      | _ :: _ => []
      | [] => [x]
      end
  | WordBoundary => fun x =>
      if xorb (word_before x) (word_after x) then [x] else []
  | EndOfInput => fun x =>
      match rest x with [] => [x] | _ :: _ => [] end
  end.

(** The result of [text.match(re)] for a pattern without the g flag: the
    matched text (index 0 of the array) and the captures. *)
Record match_result : Type := MatchResult {
  whole : str;
  groups : list (nat * str)
}.

(** Try every start position from left to right, the end of the input
    included; the first end state of the first position that has one
    wins. *)
Fixpoint search (ic : bool) (r : regex) (before : option ascii) (s : str)
    : option match_result :=
  match run ic r (MState before s []) with
  | y :: _ => Some (MatchResult (consumed s (rest y)) (caps y))
  | [] =>
      match s with
      | [] => None
      | c :: s' => search ic r (Some c) s'
      end
  end.

(** [text.match(/r/)] and [text.match(/r/i)]. *)
Definition js_match (ic : bool) (r : regex) (text : str) : option match_result :=
  search ic r None text.

(** [m[i]] for a capture index [i >= 1]: [None] is [undefined]. *)
Definition group (i : nat) (m : match_result) : option str :=
  get_cap i (groups m).

(** [a || b] on two match results. *)
Definition or_else {A : Type} (a b : option A) : option A :=
  match a with Some _ => a | None => b end.

(** *** Vocabulary for reasoning about a run *)

(** The best end state of a list of end states. *)
Definition hd_is (l : list mstate) (y : mstate) : Prop :=
  ∃ tl, l = y :: tl.

(** The character before the position reached by consuming [l]. *)
Definition last_char (l : str) (b : option ascii) : option ascii :=
  fold_left (fun _ c => Some c) l b.

(** A matcher that never moves backwards: every end state has at most the
    input that was left at the start. *)
Definition forward (m : matcher) : Prop :=
  ∀ x y, In y (m x) → (List.length (rest y) <= List.length (rest x))%nat.

(** What stops a greedy loop after [l]: the bound is reached, or the next
    character is not accepted. *)
Definition stops_after (p : ascii -> bool) (l t : str) (max : option nat) : Prop :=
  max = Some (List.length l)
  ∨ (match t with [] => True | c :: _ => p c = false end
     ∧ match max with None => True | Some n => (List.length l <= n)%nat end).

End Regex.

Import Regex.

(* ===================================================================== *)
(** ** The deploy flow (server/routes.ts)                                 *)
(* ===================================================================== *)

Module Deploy.

(** [interface DeployParams]: every field is optional. *)
Record DeployParams : Type := mkDeployParams {
  name : option str;
  symbol : option str;
  wallet : option str;
  websiteUrl : option str;
  twitterUrl : option str;
  description : option str;
  imageUrl : option str
}.

(** Truthiness of an optional string field: present and not empty. *)
Definition truthy (f : option str) : bool :=
  match f with Some s => nonempty s | None => false end.

(** *** The patterns of [parseDeployMessage] *)

Definition colon_or_space : regex := Class [CChar ":"; CSpace].   (* [:\s] *)
Definition letter : regex := Class [CRange "A" "Z"; CRange "a" "z"].
Definition nl : ascii := "010".

(** (?=\s+(?:symbol|ticker|x\s|twitter|website|wallet|image|description)|$),
    what ends a name *)
Definition name_lookahead : regex :=
  LookAhead
    (Alt (Seq (Plus Space)
              (Alts [ Lit "symbol"; Lit "ticker"; Seq (Char "x") Space;
                      Lit "twitter"; Lit "website"; Lit "wallet";
                      Lit "image"; Lit "description" ]))
         EndOfInput).

(** /\bname[:\s]+([^\n,;]+?)(?=\s+(?:symbol|ticker|x\s|twitter|website|wallet|image|description)|$)/i *)
Definition re_name1 : regex :=
  Seqs [ WordBoundary; Lit "name"; Plus colon_or_space;
         Group 1 (PlusLazy (NClass [CChar nl; CChar ","; CChar ";"]));
         name_lookahead ].

(** /\btoken\s+(?:name[:\s]+)?([A-Za-z][A-Za-z0-9\s]{1,30}?)(?=\s+(?:symbol|ticker|$))/i *)
Definition re_name2 : regex :=
  Seqs [ WordBoundary; Lit "token"; Plus Space;
         Opt (Seq (Lit "name") (Plus colon_or_space));
         Group 1 (Seq letter
                      (Repeat (Class [CRange "A" "Z"; CRange "a" "z";
                                      CRange "0" "9"; CSpace])
                              1 (Some 30) false));
         LookAhead (Seq (Plus Space)
                        (Alts [ Lit "symbol"; Lit "ticker"; EndOfInput ])) ].

(** /\b(?:symbol|ticker)[:\s]+([A-Za-z]{2,10})/i *)
Definition re_symbol1 : regex :=
  Seqs [ WordBoundary; Alt (Lit "symbol") (Lit "ticker"); Plus colon_or_space;
         Group 1 (Repeat letter 2 (Some 10) true) ].

(** /\b([A-Z]{2,10})\b(?=\s|$)(?!.*\b(?:symbol|ticker)\b)/ *)
Definition re_symbol2 : regex :=
  Seqs [ WordBoundary;
         Group 1 (Repeat (Class [CRange "A" "Z"]) 2 (Some 10) true);
         WordBoundary;
         LookAhead (Alt Space EndOfInput);
         NegLookAhead (Seqs [ Star Any; WordBoundary;
                              Alt (Lit "symbol") (Lit "ticker");
                              WordBoundary ]) ].

(** /\b(0x[a-fA-F0-9]{40})\b/ *)
Definition re_wallet : regex :=
  Seqs [ WordBoundary;
         Group 1 (Seqs [ Char "0"; Char "x";
                         Repeat (Class [CRange "a" "f"; CRange "A" "F";
                                        CRange "0" "9"])
                                40 (Some 40) true ]);
         WordBoundary ].

(** /\bwebsite[:\s]+(\S+)/i and /\bweb[:\s]+(\S+)/i *)
Definition re_website1 : regex :=
  Seqs [ WordBoundary; Lit "website"; Plus colon_or_space;
         Group 1 (Plus NonSpace) ].
Definition re_website2 : regex :=
  Seqs [ WordBoundary; Lit "web"; Plus colon_or_space;
         Group 1 (Plus NonSpace) ].

(** /\b(?:twitter|x)[:\s]+(https?:\/\/[^\s]+)/i *)
Definition re_twitter1 : regex :=
  Seqs [ WordBoundary; Alt (Lit "twitter") (Char "x"); Plus colon_or_space;
         Group 1 (Seqs [ Lit "http"; Opt (Char "s"); Lit "://";
                         Plus (NClass [CSpace]) ]) ].

(** /\b(?:twitter|x)[:\s]+(@?[^\s\n,;]+)/i *)
Definition re_twitter2 : regex :=
  Seqs [ WordBoundary; Alt (Lit "twitter") (Char "x"); Plus colon_or_space;
         Group 1 (Seq (Opt (Char "@"))
                      (Plus (NClass [CSpace; CChar nl; CChar ","; CChar ";"]))) ].

(** /\b(?:description|desc)[:\s]+([^\n]+)/i *)
Definition re_description : regex :=
  Seqs [ WordBoundary; Alt (Lit "description") (Lit "desc");
         Plus colon_or_space; Group 1 (Plus (NClass [CChar nl])) ].

(** /\bimage[:\s]+(\S+)/i and /\bipfs:\/\/\S+/i *)
Definition re_image1 : regex :=
  Seqs [ WordBoundary; Lit "image"; Plus colon_or_space;
         Group 1 (Plus NonSpace) ].
Definition re_image2 : regex :=
  Seqs [ WordBoundary; Lit "ipfs://"; Plus NonSpace ].

(** [m[1]] where group 1 is not optional in the pattern. *)
Definition g1 (m : match_result) : str :=
  match group 1 m with Some s => s | None => [] end.

(** [m[1] || m[0]] *)
Definition g1_or_whole (m : match_result) : str :=
  match group 1 m with
  | Some s => if nonempty s then s else whole m
  | None => whole m
  end.

Definition website_of (m : match_result) : str :=
  let url := trim (g1 m) in
  if negb (startsWith url "http") then of_string "https://" ++ url else url.

Definition twitter_of (m : match_result) : str :=
  let url := trim (g1 m) in
  if negb (startsWith url "http") && startsWith url "@"
  then of_string "https://x.com/" ++ skipn 1 url
  else if negb (startsWith url "http")
       then of_string "https://x.com/" ++ url
       else url.

(** [has_deploy_keyword]: the guard "must look like a deploy request". *)
Definition has_deploy_keyword (text : str) : bool :=
  let lower := toLowerCase text in
  includes lower "deploy" || includes lower "launch"
  || includes lower "create token".

Definition extract (text : str) : DeployParams :=
  let nameMatch :=
    or_else (js_match true re_name1 text) (js_match true re_name2 text) in
  let symbolMatch :=
    or_else (js_match true re_symbol1 text) (js_match false re_symbol2 text) in
  let walletMatch := js_match false re_wallet text in
  let websiteMatch :=
    or_else (js_match true re_website1 text) (js_match true re_website2 text) in
  let twitterMatch :=
    or_else (js_match true re_twitter1 text) (js_match true re_twitter2 text) in
  let descMatch := js_match true re_description text in
  let imageMatch :=
    or_else (js_match true re_image1 text) (js_match true re_image2 text) in
  {| name := option_map (fun m => collapse_ws (trim (g1 m))) nameMatch;
     symbol := option_map (fun m => toUpperCase (trim (g1 m))) symbolMatch;
     wallet := option_map g1 walletMatch;
     websiteUrl := option_map website_of websiteMatch;
     twitterUrl := option_map twitter_of twitterMatch;
     description := option_map (fun m => trim (g1 m)) descMatch;
     imageUrl := option_map g1_or_whole imageMatch |}.

Definition parseDeployMessage (text : str) : option DeployParams :=
  if negb (has_deploy_keyword text) then None
  else
    let params := extract text in
    if truthy (name params) || truthy (symbol params) then Some params
    else None.

(** *** The server wallet *)

(** What the process reads at start-up and the external libraries it
    relies on.  [privateKeyToAccount k] is the address derived from the
    key, [None] when viem throws on it. *)
Record Server : Type := mkServer {
  CONWAY_WALLET_PRIVATE_KEY : option str;
  privateKeyToAccount : str -> option str
}.

Definition zero_address : str :=
  of_string "0x0000000000000000000000000000000000000000".

(** [AGENT_WALLET_ADDRESS], derived once at start-up. *)
Definition AGENT_WALLET_ADDRESS (sv : Server) : str :=
  match CONWAY_WALLET_PRIVATE_KEY sv with
  | Some k =>
      if nonempty k
      then match privateKeyToAccount sv k with
           | Some a => a
           | None => zero_address
           end
      else zero_address
  | None => zero_address
  end.

(** The viem clients: the account, and the public and wallet clients bound
    to it. *)
Record Clients : Type := mkClients { account : str }.

Definition getViemClients (sv : Server) : option Clients :=
  match CONWAY_WALLET_PRIVATE_KEY sv with
  | Some k =>
      if nonempty k
      then match privateKeyToAccount sv k with
           | Some a => Some (mkClients a)
           | None => None
           end
      else None
  | None => None
  end.

(** *** The SDK *)

Inductive RewardToken : Type := Both | Paired | Clanker.

Record Recipient : Type := mkRecipient {
  admin : str;
  recipient : str;
  bps : Z;
  token : RewardToken
}.

Record SocialUrl : Type := mkSocialUrl { platform : str; url : str }.

Record Metadata : Type := mkMetadata {
  md_description : str;
  socialMediaUrls : list SocialUrl;
  auditUrls : list str
}.

Record Context : Type := mkContext {
  ctx_interface : str;
  ctx_platform : str;
  messageId : str;
  ctx_id : str
}.

(** The argument of [clanker.deploy]. *)
Record DeployRequest : Type := mkDeployRequest {
  rq_name : str;
  rq_symbol : str;
  tokenAdmin : str;
  image : str;
  metadata : Metadata;
  context : Context;
  recipients : list Recipient          (* rewards.recipients *)
}.

(** How the confirmation promise of [waitForTransaction()] settles. *)
Inductive Confirmation : Type := Confirmed | Failed.

(** What [await clanker.deploy(...)] does: it throws (with or without a
    message), or it returns an error, or it returns a transaction hash and
    a [waitForTransaction] handle. *)
Inductive SdkOutcome : Type :=
| SdkThrows (message : option str)
| SdkError (e : str)
| SdkOk (txHash : str) (confirmation : Confirmation).

Definition Sdk : Type := DeployRequest -> SdkOutcome.

(** What the function does to the outside world, in order. *)
Inductive Effect : Type :=
| CallDeploy (rq : DeployRequest)
| CallWaitForTransaction.

(** [{ success: true, txHash }] and [{ success: false, error }] *)
Inductive DeployResult : Type :=
| Success (txHash : str)
| Failure (error : str).

Definition default_image : str :=
  of_string "ipfs://bafybeigdyrzt5sfp7udm7hu76uh7y26nf3efuylqabf3oclgtqy55fbzdi".

(** [a || b] on an optional string and a default. *)
Definition or_default (a : option str) (b : str) : str :=
  match a with
  | Some s => if nonempty s then s else b
  | None => b
  end.

Definition social_urls (params : DeployParams) : list SocialUrl :=
  (if truthy (websiteUrl params)
   then [mkSocialUrl (of_string "website") (or_default (websiteUrl params) [])]
   else [])
  ++
  (if truthy (twitterUrl params)
   then [mkSocialUrl (of_string "x") (or_default (twitterUrl params) [])]
   else []).

(** The argument of [clanker.deploy] for the name [n], the symbol [s] and
    the wallet [w].  (The dash of the default description is kept as the
    bytes of its UTF-8 encoding.) *)
Definition deploy_request (sv : Server) (n s w : str) (params : DeployParams)
    : DeployRequest :=
  {| rq_name := n;
     rq_symbol := s;
     tokenAdmin := w;
     image := or_default (imageUrl params) default_image;
     metadata :=
       {| md_description :=
            or_default (description params)
              (n ++ of_string " — deployed via ConwayPad");
          socialMediaUrls := social_urls params;
          auditUrls := [] |};
     context :=
       {| ctx_interface := of_string "ConwayPad";
          ctx_platform := of_string "ConwayPad";
          messageId := of_string "1";
          ctx_id := of_string "1" |};
     recipients :=
       [ mkRecipient w w 9000 Both;
         mkRecipient (AGENT_WALLET_ADDRESS sv) (AGENT_WALLET_ADDRESS sv)
           1000 Both ] |}.

(** A string field that the guard has found truthy. *)
Definition the (f : option str) : str :=
  match f with Some s => s | None => [] end.

Definition missing_fields : str :=
  of_string "Name, symbol, and wallet address are required.".

(** [deployTokenViaSDK]: the effects, in order, and the result. *)
Definition deployTokenViaSDK (sv : Server) (sdk : Sdk) (params : DeployParams)
    : list Effect * DeployResult :=
  match getViemClients sv with
  | None =>
      ([], Failure (of_string
             "Server wallet not configured. Add CONWAY_WALLET_PRIVATE_KEY."))
  | Some clients =>
      if negb (truthy (name params)) || negb (truthy (symbol params))
         || negb (truthy (wallet params))
      then ([], Failure missing_fields)
      else
        let rq := deploy_request sv (the (name params)) (the (symbol params))
                    (the (wallet params)) params in
        match sdk rq with
        | SdkThrows msg =>
            ([CallDeploy rq],
             Failure (or_default msg (of_string "Deployment failed")))
        | SdkError e => ([CallDeploy rq], Failure e)
        | SdkOk txHash _ =>
            ([CallDeploy rq; CallWaitForTransaction], Success txHash)
        end
  end.

(** *** The routes that reach the dispatch *)

(** The deploy branch of POST /api/chat, up to the dispatch. *)
Inductive ChatStep : Type :=
| RegularChat                         (* not a deploy request            *)
| AskForWallet (n s : str)            (* "I just need one more thing"    *)
| Dispatch (params : DeployParams).   (* deployTokenViaSDK(params)       *)

Definition with_wallet (p : DeployParams) (w : str) : DeployParams :=
  {| name := name p; symbol := symbol p; wallet := Some w;
     websiteUrl := websiteUrl p; twitterUrl := twitterUrl p;
     description := description p; imageUrl := imageUrl p |}.

(** [deployParams.wallet || userWallet || ""] *)
Definition walletToUse (p : DeployParams) (userWallet : option str) : str :=
  or_default (wallet p) (or_default userWallet []).

Definition chat_step (message : str) (userWallet : option str) : ChatStep :=
  match parseDeployMessage message with
  | Some p =>
      if truthy (name p) && truthy (symbol p)
      then
        let w := walletToUse p userWallet in
        if negb (nonempty w) || negb (startsWith w "0x")
        then AskForWallet (the (name p)) (the (symbol p))
        else Dispatch (with_wallet p w)
      else RegularChat
  | None => RegularChat
  end.

(** The address [parseDeployMessage] found in the message, if any. *)
Definition parsed_wallet (message : str) : option str :=
  match parseDeployMessage message with
  | Some p => wallet p
  | None => None
  end.

(** The body of POST /api/clanker/deploy. *)
Record DeployBody : Type := mkDeployBody {
  b_name : option str;
  b_symbol : option str;
  b_tokenAdmin : option str;
  b_description : option str;
  b_imageUrl : option str;
  b_websiteUrl : option str;
  b_twitterUrl : option str
}.

(** POST /api/clanker/deploy, up to the dispatch: [None] is the 400
    answer. *)
Definition deploy_route (b : DeployBody) : option DeployParams :=
  if negb (truthy (b_name b)) || negb (truthy (b_symbol b))
     || negb (truthy (b_tokenAdmin b))
  then None
  else Some {| name := b_name b; symbol := b_symbol b;
               wallet := b_tokenAdmin b;
               websiteUrl := b_websiteUrl b; twitterUrl := b_twitterUrl b;
               description := b_description b; imageUrl := b_imageUrl b |}.

(** The check of the wallet forms of the client (chat.tsx, my-launches.tsx
    and the wallet tracker): [w.startsWith("0x") && w.length === 42]. *)
Definition isValidWallet (w : str) : bool :=
  startsWith w "0x" && Nat.eqb (length w) 42.

(** *** The explicit deploy message *)

(** Equality of two texts up to the case of ASCII letters. *)
Fixpoint eq_ci (a b : str) : bool :=
  match a, b with
  | [], [] => true
  | x :: a', y :: b' => Ascii.eqb (upper_ascii x) (upper_ascii y) && eq_ci a' b'
  | _, _ => false
  end.

(** A token name of one word: a letter, then letters and digits, and not
    one of the words [symbol] and [ticker]. *)
Definition token_name (s : str) : bool :=
  match s with
  | c :: s' => is_letter c && forallb is_alnum s'
  | [] => false
  end
  && negb (eq_ci s "symbol") && negb (eq_ci s "ticker").

(** A ticker symbol: two to ten ASCII letters. *)
Definition ticker_symbol (s : str) : bool :=
  forallb is_letter s && Nat.leb 2 (List.length s) && Nat.leb (List.length s) 10.

Definition is_hex (c : ascii) : bool :=
  in_range c "a" "f" || in_range c "A" "F" || is_digit c.

(** A wallet address: [0x] and forty hexadecimal digits. *)
Definition wallet_address (s : str) : bool :=
  match s with
  | "0"%char :: "x"%char :: h => forallb is_hex h && Nat.eqb (List.length h) 40
  | _ => false
  end.

(** "Deploy token Name: Foo Symbol: BAR Wallet: 0x..." *)
Definition explicit_message (foo bar w : str) : str :=
  of_string "Deploy token Name: " ++ foo ++ of_string " Symbol: " ++ bar
  ++ of_string " Wallet: " ++ w.

(** Sample texts: the scenario of the specification, the same pattern
    without a deploy keyword, and the pattern after a sentence that has
    the word [ticker] in it. *)
Definition address_1 : str :=
  of_string "0x1111111111111111111111111111111111111111".

Definition pattern_alone : str :=
  of_string "Name: Foo Symbol: BAR Wallet: 0x1111111111111111111111111111111111111111".

Definition pattern_after_ticker : str :=
  of_string "Launch my ticker today. Name: Foo Symbol: BAR Wallet: 0x1111111111111111111111111111111111111111".

(** A deploy request with no address in it, as the chat page sends it
    together with a stored wallet. *)
Definition request_without_wallet : str :=
  of_string "Deploy token Name: Foo Symbol: BAR".

(** *** Vocabulary for the properties of the dispatch *)

(** All three required fields are present. *)
Definition complete (p : DeployParams) : Prop :=
  truthy (name p) = true ∧ truthy (symbol p) = true
  ∧ truthy (wallet p) = true.

(** The SDK call errors: it throws, or it returns an error. *)
Definition sdk_errors (o : SdkOutcome) : Prop :=
  match o with SdkOk _ _ => False | _ => True end.

Definition is_failure (r : DeployResult) : Prop :=
  match r with Failure _ => True | Success _ => False end.

(** The request [deployTokenViaSDK] builds from its parameters. *)
Definition request_of (sv : Server) (p : DeployParams) : DeployRequest :=
  deploy_request sv (the (name p)) (the (symbol p)) (the (wallet p)) p.

(** The calls of [clanker.deploy] among the effects. *)
Fixpoint deploy_calls (es : list Effect) : list DeployRequest :=
  match es with
  | [] => []
  | CallDeploy rq :: es' => rq :: deploy_calls es'
  | CallWaitForTransaction :: es' => deploy_calls es'
  end.

(** Sample collaborators: a server without a signing key, a server with
    one, an SDK that accepts every deployment, and complete parameters. *)
Definition unconfigured_server : Server :=
  {| CONWAY_WALLET_PRIVATE_KEY := None;
     privateKeyToAccount := fun _ => None |}.

Definition sample_agent : str :=
  of_string "0x9b13c1b7696E94123ec28033004235d1b7303BeA".

Definition sample_server : Server :=
  {| CONWAY_WALLET_PRIVATE_KEY := Some (of_string "0xkey");
     privateKeyToAccount := fun _ => Some sample_agent |}.

Definition sample_sdk : Sdk :=
  fun _ => SdkOk (of_string "0xabc") Confirmed.

Definition sample_params : DeployParams :=
  {| name := Some (of_string "Foo");
     symbol := Some (of_string "FOO");
     wallet := Some address_1;
     websiteUrl := None; twitterUrl := None;
     description := None; imageUrl := None |}.

(** Two SDKs that differ at most in how the confirmation settles. *)
Definition same_but_confirmation (a b : SdkOutcome) : Prop :=
  match a, b with
  | SdkOk tx _, SdkOk tx' _ => tx = tx'
  | _, _ => a = b
  end.

End Deploy.

Import Deploy.

(* ===================================================================== *)
(** ** JavaScript values                                                  *)
(* ===================================================================== *)

(** The values JSON.parse produces, and [undefined].  A number of a JSON
    text is a finite decimal; the program never computes with the numbers
    of a record, it only tests them for truthiness, so a number is kept
    as the rational it denotes. *)

Module Js.

#[warnings="-register-all"] Inductive jsval : Type :=
| JUndefined
| JNull
| JBool (b : bool)
| JNum (q : Qc)
| JStr (s : string)
| JArr (l : list jsval)
| JObj (m : gmap string jsval).

Definition num (z : Z) : jsval := JNum (Q2Qc (inject_Z z)).

(** [ToBoolean] *)
Definition truthy (v : jsval) : bool :=
  match v with
  | JUndefined | JNull => false
  | JBool b => b
  | JNum q => negb (Qeq_bool (this q) 0)
  | JStr s => negb (String.eqb s "")
  | JArr _ | JObj _ => true
  end.

(** [a || b] *)
Definition jor (a b : jsval) : jsval := if truthy a then a else b.

Definition nullish (v : jsval) : bool :=
  match v with JUndefined | JNull => true | _ => false end.

(** A canonical array index: a decimal numeral without a leading zero. *)
Fixpoint digits_value (acc : nat) (s : string) : option nat :=
  match s with
  | EmptyString => Some acc
  | String c s' =>
      if is_digit c
      then digits_value (10 * acc + (nat_of_ascii c - 48)) s'
      else None
  end.

Definition parse_index (k : string) : option nat :=
  match k with
  | EmptyString => None
  | String "0" EmptyString => Some 0
  | String "0" _ => None
  | _ => digits_value 0 k
  end.

(** [v[k]] for a value that is neither [undefined] nor [null]: an own
    property, the length or an element of an array or a string, and
    [undefined] otherwise (none of the property names the program reads is
    a method of a built-in prototype). *)
Definition own (v : jsval) (k : string) : jsval :=
  match v with
  | JObj m => match m !! k with Some x => x | None => JUndefined end
  | JArr l =>
      if String.eqb k "length" then num (Z.of_nat (length l))
      else match parse_index k with
           | Some i => nth i l JUndefined
           | None => JUndefined
           end
  | JStr s =>
      if String.eqb k "length" then num (Z.of_nat (String.length s))
      else match parse_index k with
           | Some i =>
               match String.get i s with
               | Some c => JStr (String c EmptyString)
               | None => JUndefined
               end
           | None => JUndefined
           end
  | _ => JUndefined
  end.

(** [v.k]: [None] is the TypeError on [undefined] and [null]. *)
Definition prop (v : jsval) (k : string) : option jsval :=
  if nullish v then None else Some (own v k).

(** [v?.k] *)
Definition opt_prop (v : jsval) (k : string) : jsval :=
  if nullish v then JUndefined else own v k.

(** The own enumerable properties [{...v}] copies. *)
Fixpoint index_props (i : nat) (l : list jsval) : gmap string jsval :=
  match l with
  | [] => ∅
  | x :: l' => <[pretty i := x]> (index_props (S i) l')
  end.

Definition chars_of (s : string) : list jsval :=
  map (fun c => JStr (String c EmptyString)) (list_ascii_of_string s).

Definition spread (v : jsval) : gmap string jsval :=
  match v with
  | JObj m => m
  | JArr l => index_props 0 l
  | JStr s => index_props 0 (chars_of s)
  | _ => ∅
  end.

End Js.

Import Js.

(* ===================================================================== *)
(** ** Token normalization (client/src/lib/conway.ts)                     *)
(* ===================================================================== *)

Module Conway.

(** A token record of the external API: a JSON object. *)
Abbreviation record := (gmap string jsval).

(** [t.k] on the record itself. *)
Definition field (t : record) (k : string) : jsval := own (JObj t) k.

(** [normalizeToken]: [None] would be a thrown TypeError. *)
Definition normalizeToken (t : record) : option record :=
  let market := jor (opt_prop (field t "related") "market") (JObj ∅) in
  m_marketCap ← prop market "marketCap";
  m_price ← prop market "price";
  m_priceChange24h ← prop market "priceChange24h";
  m_volume24h ← prop market "volume24h";
  Some (
    <["platform" := jor (opt_prop (field t "social_context") "platform") (JStr "")]> (
    <["chainId" := jor (field t "chain_id") (num 8453)]> (
    <["volume24h" := jor m_volume24h (num 0)]> (
    <["priceChange24h" := jor m_priceChange24h (num 0)]> (
    <["price" := jor (jor m_price (field t "price")) (num 0)]> (
    <["marketCap" := jor (jor m_marketCap (field t "market_cap")) (num 0)]> (
    <["imgUrl" := jor (jor (field t "img_url") (field t "image")) (JStr "")]> (
    <["deployerWallet" :=
        jor (jor (jor (field t "msg_sender") (field t "deployer"))
                 (field t "deployerWallet")) (JStr "")]> (
    <["deployDate" :=
        jor (jor (jor (field t "deployed_at") (field t "created_at"))
                 (field t "deployDate")) (JStr "")]> (
    <["symbol" := jor (field t "symbol") (JStr "?")]> (
    <["name" := jor (field t "name") (JStr "Unknown")]> (
    <["address" :=
        jor (jor (field t "contract_address") (field t "address")) (JStr "")]>
    t)))))))))))).

(** The fields the normalized record always carries. *)
Definition canonical_fields : list string :=
  [ "address"; "name"; "symbol"; "deployDate"; "deployerWallet"; "imgUrl";
    "marketCap"; "price"; "priceChange24h"; "volume24h"; "chainId";
    "platform" ].

(** The value a canonical field gets when everything it is read from is
    missing. *)
Definition default_of (k : string) : jsval :=
  if String.eqb k "name" then JStr "Unknown"
  else if String.eqb k "symbol" then JStr "?"
  else if String.eqb k "chainId" then num 8453
  else if String.eqb k "marketCap" || String.eqb k "price"
          || String.eqb k "priceChange24h" || String.eqb k "volume24h"
       then num 0
       else JStr "".

(** The ten fields of the normalization contract. *)
Definition contract_fields : list string :=
  [ "address"; "name"; "symbol"; "deployDate"; "imgUrl"; "marketCap";
    "price"; "priceChange24h"; "volume24h"; "chainId" ].

(** [v?.k1?.k2...]: a property read along a path; [undefined] as soon as
    a step is missing. *)
Fixpoint read_path (v : jsval) (path : list string) : jsval :=
  match path with
  | [] => v
  | k :: path' => read_path (opt_prop v k) path'
  end.

(** Where a contract field is read from in the input record, in the order
    of preference. *)
Definition read_from (k : string) : list (list string) :=
  if String.eqb k "address" then [["contract_address"]; ["address"]]
  else if String.eqb k "name" then [["name"]]
  else if String.eqb k "symbol" then [["symbol"]]
  else if String.eqb k "deployDate"
       then [["deployed_at"]; ["created_at"]; ["deployDate"]]
  else if String.eqb k "imgUrl" then [["img_url"]; ["image"]]
  else if String.eqb k "marketCap"
       then [["related"; "market"; "marketCap"]; ["market_cap"]]
  else if String.eqb k "price"
       then [["related"; "market"; "price"]; ["price"]]
  else if String.eqb k "priceChange24h"
       then [["related"; "market"; "priceChange24h"]]
  else if String.eqb k "volume24h"
       then [["related"; "market"; "volume24h"]]
  else if String.eqb k "chainId" then [["chain_id"]]
  else [].

(** A contract field is missing from the input when nothing truthy is
    found at any of the places it is read from. *)
Definition missing (t : record) (k : string) : Prop :=
  ∀ p, p ∈ read_from k → Js.truthy (read_path (JObj t) p) = false.

Definition zero_or_empty (v : jsval) : Prop := v = JStr "" ∨ v = num 0.

End Conway.

(* ===================================================================== *)
(** ** The pay-per-request inference relay (server/routes.ts)             *)
(* ===================================================================== *)

Module Inference.

Record Message : Type := mkMessage { role : str; content : str }.

(** The request body, before [JSON.stringify]. *)
Record Body : Type := mkBody {
  model : str;
  messages : list Message;
  max_tokens : Z;
  stream_flag : bool
}.

Record Request : Type := mkRequest {
  rq_url : str;
  rq_headers : list (str * str);
  rq_body : Body
}.

(** A response stream: the chunks it yields and, when it breaks after
    them, the message of the error. *)
Record Stream : Type := mkStream {
  chunks : list str;
  broken : option str
}.

Record Response : Type := mkResponse { status : Z; stream : Stream }.

(** A promise: resolved with a value, or rejected with an error whose
    [message] is given. *)
Inductive Settled (A : Type) : Type :=
| Resolved (a : A)
| Rejected (message : str).
Arguments Resolved {A} a.
Arguments Rejected {A} message.

(** The collaborators of [callConwayAI]: the server wallet, the inference
    endpoint (which may answer by what it was sent before), [JSON.parse]
    ([None] is a SyntaxError), the payment signer of the x402 client, and
    the message of the TypeError the engine throws on a property read of
    [undefined] or [null]. *)
Record World : Type := mkWorld {
  server : Server;
  httpsPostStream : list Request -> Request -> Settled Response;
  JSON_parse : str -> option jsval;
  x402CreatePaymentHeader : Clients -> jsval -> jsval -> Settled str;
  type_error : str
}.

(** The argument of [onError]: a text, or the template
    [x402_payment_rejected: ${errMsg}] with the value it prints. *)
Inductive ErrMsg : Type :=
| Text (s : str)
| PaymentRejected (errMsg : jsval).

(** What [callConwayAI] does, in order: the requests it sends and the
    callbacks it calls. *)
Inductive Event : Type :=
| Send (rq : Request)
| OnChunk (delta : jsval)
| OnDone
| OnError (msg : ErrMsg).

(** Computations that leave a trace and may throw. *)
Definition M (A : Type) : Type := list Event * Settled A.

Definition ret {A} (a : A) : M A := ([], Resolved a).
Definition throw {A} (msg : str) : M A := ([], Rejected msg).
Definition emit (e : Event) : M unit := ([e], Resolved tt).

Definition bind {A B} (m : M A) (k : A -> M B) : M B :=
  match m with
  | (tr, Resolved a) => let (tr', r) := k a in (tr ++ tr', r)
  | (tr, Rejected msg) => (tr, Rejected msg)
  end.

Notation "'do' x <- m ; k" := (bind m (fun x => k))
  (at level 10, x name, m at level 100, k at level 200).
Notation "m ;; k" := (bind m (fun _ => k))
  (at level 100, k at level 200, right associativity).

Definition lift {A} (w : World) (o : option A) : M A :=
  match o with Some a => ret a | None => throw (type_error w) end.

Definition await {A} (p : Settled A) : M A := ([], p).

(** [try { m } catch (err) { h(err.message) }] *)
Definition try_catch {A} (m : M A) (h : str -> M A) : M A :=
  match m with
  | (tr, Resolved a) => (tr, Resolved a)
  | (tr, Rejected msg) => let (tr', r) := h msg in (tr ++ tr', r)
  end.

Definition CONWAY_INFERENCE : str :=
  of_string "https://inference.conway.tech/v1/chat/completions".
Definition CONWAY_MODEL : str := of_string "gpt-5-mini".

Definition dq : str := [ascii_of_nat 34].

Definition join_lines (ls : list str) : str :=
  match ls with
  | [] => []
  | l :: ls' => l ++ flat_map (fun x => "010"%char :: x) ls'
  end.

Definition SYSTEM_PROMPT : str :=
  join_lines [
    of_string "You are ConwayPad AI, a helpful assistant for the ConwayPad token launch platform on Base blockchain.";
    [];
    of_string "ConwayPad uses Clanker infrastructure to deploy ERC-20 tokens on Base with:";
    of_string "- Automatic Uniswap V3 liquidity pools (permanently locked)";
    of_string "- Fee split: 90% of LP fees go to the token creator, 10% to ConwayPad";
    of_string "- Token creator becomes " ++ dq ++ of_string "tokenAdmin" ++ dq
      ++ of_string " (can manage governance)";
    of_string "- Deployer is the ConwayPad agent wallet (on behalf of creator)";
    [];
    of_string "You can help users with:";
    of_string "1. **Deploying tokens** - Parse deploy requests and execute deployments";
    of_string "2. **Checking tokens** - Look up token market caps, prices, trading data";
    of_string "3. **Platform questions** - Explain how ConwayPad/Clanker works";
    of_string "4. **General crypto questions** - Base blockchain, Uniswap, DexScreener, etc.";
    [];
    of_string "When a user wants to deploy a token, they should provide:";
    of_string "- Token Name (required)";
    of_string "- Symbol/ticker (required, 2-10 letters)";
    of_string "- Wallet address (required, their 0x address to be set as tokenAdmin)";
    of_string "- Website URL (optional)";
    of_string "- X URL (optional)";
    of_string "- Description (optional)";
    of_string "- Image URL (optional, IPFS or HTTPS)";
    [];
    of_string "Always be concise, helpful, and accurate. Format numbers with commas and dollar signs where appropriate."
  ].

Definition CAIP2_TO_X402_NETWORK : gmap string jsval :=
  <["eip155:8453" := JStr "base"]> (
  <["eip155:84532" := JStr "base-sepolia"]> (
  <["eip155:137" := JStr "polygon"]> (
  <["eip155:80002" := JStr "polygon-amoy"]> (
  <["eip155:43114" := JStr "avalanche"]> (
  <["eip155:43113" := JStr "avalanche-fuji"]> ∅))))).

(** [CAIP2_TO_X402_NETWORK[network]], for a network given as a string;
    another value is no key of the table. *)
Definition table_lookup (network : jsval) : jsval :=
  match network with
  | JStr s => own (JObj CAIP2_TO_X402_NETWORK) s
  | _ => JUndefined
  end.

(** [normalizePaymentRequirements] *)
Definition normalizePaymentRequirements (w : World) (req : jsval) : M jsval :=
  do n <- lift w (prop req "network");
  let network := jor n (JStr "") in
  ret (JObj (<["network" := jor (table_lookup network) network]> (spread req))).

(** [s.split("\n")]: the pieces between the line feeds, at least one. *)
Fixpoint split_lines (cur : str) (s : str) : list str :=
  match s with
  | [] => [rev cur]
  | c :: s' =>
      if Ascii.eqb c "010" then rev cur :: split_lines [] s'
      else split_lines (c :: cur) s'
  end.

(** One complete line of the event stream. *)
Definition sse_line (w : World) (line : str) : M unit :=
  if negb (startsWith line "data: ") then ret tt
  else
    let data := trim (skipn 6 line) in
    if String.eqb (to_string data) "[DONE]" then ret tt
    else
      try_catch
        (do parsed <- lift w (JSON_parse w data);
         do choices <- lift w (prop parsed "choices");
         let delta :=
           jor (opt_prop (opt_prop (opt_prop choices "0") "delta") "content")
               (JStr "") in
         if Js.truthy delta then emit (OnChunk delta) else ret tt)
        (fun _ => ret tt).

Fixpoint sse_lines (w : World) (lines : list str) : M unit :=
  match lines with
  | [] => ret tt
  | l :: ls => sse_line w l ;; sse_lines w ls
  end.

(** The loop of [readSseStream] over the chunks that arrive; [buf] is the
    incomplete last line. *)
Fixpoint sse_chunks (w : World) (buf : str) (cs : list str) : M unit :=
  match cs with
  | [] => ret tt
  | raw :: cs' =>
      let lines := split_lines [] (buf ++ raw) in
      sse_lines w (List.removelast lines) ;; sse_chunks w (List.last lines []) cs'
  end.

Definition stream_end (s : Stream) : M unit :=
  match broken s with Some msg => throw msg | None => ret tt end.

Definition readSseStream (w : World) (s : Stream) : M unit :=
  sse_chunks w [] (chunks s) ;; stream_end s.

Definition readBody (s : Stream) : M str :=
  stream_end s ;; ret (concat (chunks s)).

(** [HTTP ${status}] *)
Definition http_status (n : Z) : str := of_string "HTTP " ++ of_string (pretty n).

Definition or_message (msg dflt : str) : str :=
  if nonempty msg then msg else dflt.

(** [errMsg] after [try { const j = JSON.parse(errBody);
    errMsg = j.detail || j.error || j.message || errMsg } catch { }] *)
Definition reject_message (w : World) (errBody : str) (dflt : str) : jsval :=
  match JSON_parse w errBody with
  | Some j =>
      match prop j "detail", prop j "error", prop j "message" with
      | Some d, Some e, Some m =>
          jor (jor (jor d e) m) (JStr (to_string dflt))
      | _, _, _ => JStr (to_string dflt)
      end
  | None => JStr (to_string dflt)
  end.

Definition send (w : World) (sent : list Request) (rq : Request) : M Response :=
  emit (Send rq) ;; await (httpsPostStream w sent rq).

(** [bodyStr], the body of both requests. *)
Definition bodyStr (msgs : list Message) : Body :=
  {| model := CONWAY_MODEL;
     messages := mkMessage (of_string "system") SYSTEM_PROMPT :: msgs;
     max_tokens := 2048;
     stream_flag := true |}.

(** Step 1: the request without a payment credential. *)
Definition first_request (msgs : list Message) : Request :=
  {| rq_url := CONWAY_INFERENCE;
     rq_headers := [(of_string "Content-Type", of_string "application/json")];
     rq_body := bodyStr msgs |}.

(** Step 4: the same request with the X-PAYMENT header. *)
Definition paid_request (msgs : list Message) (paymentHeader : str) : Request :=
  {| rq_url := CONWAY_INFERENCE;
     rq_headers :=
       [ (of_string "Content-Type", of_string "application/json");
         (of_string "X-PAYMENT", paymentHeader);
         (of_string "Access-Control-Expose-Headers",
          of_string "X-PAYMENT-RESPONSE") ];
     rq_body := bodyStr msgs |}.

(** Steps 2 to 4, after a 402 answer whose body is [body402]. *)
Definition pay_and_retry (w : World) (clients : Clients) (msgs : list Message)
    (body402 : str) : M unit :=
  match JSON_parse w body402 with
  | None => emit (OnError (Text (of_string "x402_parse_error")))
  | Some paymentRequired =>
      if negb (Js.truthy
                 (opt_prop (opt_prop paymentRequired "accepts") "length"))
      then emit (OnError (Text (of_string "x402_no_accepts")))
      else
        do accepts <- lift w (prop paymentRequired "accepts");
        do accept0 <- lift w (prop accepts "0");
        do version <- lift w (prop paymentRequired "x402Version");
        do normalizedReq <- normalizePaymentRequirements w accept0;
        match x402CreatePaymentHeader w clients version normalizedReq with
        | Rejected _ => emit (OnError (Text (of_string "x402_sign_error")))
        | Resolved paymentHeader =>
            do step2 <- send w [first_request msgs]
                          (paid_request msgs paymentHeader);
            if (status step2 =? 200)%Z
            then readSseStream w (stream step2) ;; emit OnDone
            else
              do errBody <- readBody (stream step2);
              let errMsg :=
                reject_message w errBody (http_status (status step2)) in
              emit (OnError (PaymentRejected errMsg))
        end
  end.

Definition callConwayAI (w : World) (msgs : list Message) : list Event :=
  match getViemClients (server w) with
  | None => [OnError (Text (of_string "agent_wallet_missing"))]
  | Some clients =>
      fst (try_catch
        (do step1 <- send w [] (first_request msgs);
         if (status step1 =? 200)%Z
         then readSseStream w (stream step1) ;; emit OnDone
         else if negb (status step1 =? 402)%Z
         then
           do body <- readBody (stream step1);
           emit (OnError (Text (of_string "Conway error "
                                  ++ http_status (status step1))))
         else
           do body402 <- readBody (stream step1);
           pay_and_retry w clients msgs body402)
        (fun msg =>
           emit (OnError (Text (or_message msg (of_string "Network error"))))))
  end.

(** The requests of a trace, in the order they were sent. *)
Fixpoint requests (tr : list Event) : list Request :=
  match tr with
  | [] => []
  | Send rq :: tr' => rq :: requests tr'
  | _ :: tr' => requests tr'
  end.

(** A computation that sends nothing: its trace holds [onChunk] calls
    only. *)
Definition quiet {A} (m : M A) : Prop :=
  Forall (fun e => ∃ d, e = OnChunk d) (fst m).

Definition has_header (h : string) (rq : Request) : bool :=
  existsb (fun kv => String.eqb (to_string (fst kv)) h) (rq_headers rq).

(** Sample collaborators: an endpoint that asks for payment once and then
    streams one word, an endpoint that asks for payment every time, and a
    parser that knows their two bodies. *)
Definition sample_payment_required : jsval :=
  JObj (<["x402Version" := num 2]> (
        <["accepts" :=
            JArr [JObj (<["network" := JStr "eip155:8453"]> (
                        <["payTo" := JStr "0xpay"]> ∅))]]> ∅)).

Definition sample_event : jsval :=
  JObj (<["choices" :=
            JArr [JObj (<["delta" := JObj (<["content" := JStr "Hi"]> ∅)]> ∅)]]> ∅).

Definition sample_parse (s : str) : option jsval :=
  if String.eqb (to_string s) "{payment}" then Some sample_payment_required
  else if String.eqb (to_string s) "{hi}" then Some sample_event
  else None.

Definition body_of (lines : list str) : Stream :=
  {| chunks := map (fun l => l ++ ["010"%char]) lines; broken := None |}.

Definition sample_world : World :=
  {| server := sample_server;
     httpsPostStream := fun sent _ =>
       match sent with
       | [] => Resolved (mkResponse 402 (body_of [of_string "{payment}"]))
       | _ => Resolved (mkResponse 200
                (body_of [of_string "data: {hi}"; of_string "data: [DONE]"]))
       end;
     JSON_parse := fun s => sample_parse (trim s);
     x402CreatePaymentHeader := fun _ _ _ => Resolved (of_string "signed");
     type_error := of_string "TypeError" |}.

Definition unpaid_world : World :=
  {| server := sample_server;
     httpsPostStream := fun _ _ =>
       Resolved (mkResponse 402 (body_of [of_string "{payment}"]));
     JSON_parse := fun s => sample_parse (trim s);
     x402CreatePaymentHeader := fun _ _ _ => Resolved (of_string "signed");
     type_error := of_string "TypeError" |}.

End Inference.

(* ===================================================================== *)
(** ** The built-in knowledge base (server/routes.ts)                     *)
(* ===================================================================== *)

Module Fallback.

(** The canned answers are constant texts of routes.ts; each is named here
    after the section of [generateFallbackResponse] that returns it. *)
Inductive Topic : Type :=
| Greeting | PlatformDeploy | PlatformFees | PlatformConwayPad
| PlatformClanker | PlatformUniswap | PlatformDexScreener | PlatformStats
| Bitcoin | Ethereum | Solana | BnbChain | Polygon | BaseBlockchain
| Layer2 | DeFi | Nft | Wallet | PrivateKey | GasFees | Stablecoin
| Staking | Memecoins | SmartContract | Erc20 | Web3 | Dao | YieldFarming
| Airdrop | MarketCap | Volume | Dyor | RugPull | ColdWallet | FudFomo
| Weth | Tokenomics | PriceQuestion | Help.

(** The line the default answer ends with. *)
Inductive CreditNote : Type :=
| NoNote                 (* the empty string                           *)
| WalletNotConfigured    (* "Agent wallet not configured."             *)
| SigningFailed          (* "x402 payment signing failed."             *)
| PaymentError.          (* "Conway x402 payment error."               *)

Inductive Answer : Type :=
| Canned (t : Topic)              (* the text of a topic                 *)
| AddressDetected (addr : str)    (* "Address ${addr} detected!" ...     *)
| Menu (note : CreditNote).       (* "I'm ConwayPad AI — ready to help!" *)

(** /0x[a-f0-9]{40}/i *)
Definition re_address : regex :=
  Seqs [ Char "0"; Char "x";
         Repeat (Class [CRange "a" "f"; CRange "0" "9"]) 40 (Some 40) true ].

(** [has(...words)]: [words.some(w => q.includes(w))] *)
Definition has (q : str) (words : list string) : bool :=
  existsb (fun w => includes q (of_string w)) words.

Definition str_eq (a : str) (b : string) : bool :=
  String.eqb (to_string a) b.

Definition creditNote (errCode : option str) : CreditNote :=
  match errCode with
  | Some e =>
      if str_eq e "agent_wallet_missing" then WalletNotConfigured
      else if str_eq e "x402_sign_error" then SigningFailed
      else if startsWith e "x402_" then PaymentError
      else NoNote
  | None => NoNote
  end.

Definition generateFallbackResponse (message : str) (errCode : option str)
    : Answer :=
  let q := toLowerCase message in
  if has q ["hello"; "hi "; "hey"; "how are you"; "greetings"]
  then Canned Greeting
  else if has q ["deploy"; "launch"; "create token"; "mint token"]
  then Canned PlatformDeploy
  else if has q ["fee"; "split"; "earn"; "reward"]
  then Canned PlatformFees
  else if has q ["conwaypad"; "how does"; "how it work"; "what is conway"; "platform"]
  then Canned PlatformConwayPad
  else if has q ["clanker"]
  then Canned PlatformClanker
  else if has q ["uniswap"; "liquidity"; "pool"; "amm"; "swap"]
  then Canned PlatformUniswap
  else if has q ["dexscreener"; "dex screener"; "chart"]
  then Canned PlatformDexScreener
  else if has q ["stat"; "total token"; "how many"; "dashboard"]
  then Canned PlatformStats
  else if has q ["bitcoin"; "btc"; "satoshi nakamoto"; "halving"]
  then Canned Bitcoin
  else if has q ["ethereum"; "ether "; " eth "; "vitalik"; "the merge"; "evm"]
  then Canned Ethereum
  else if has q ["solana"; " sol "]
  then Canned Solana
  else if has q ["bnb"; "binance smart chain"; "bsc"; "pancakeswap"]
  then Canned BnbChain
  else if has q ["polygon"; "matic"]
  then Canned Polygon
  else if has q ["base "; "base blockchain"; "chain id 8453"; "layer 2 base"; "coinbase l2"]
  then Canned BaseBlockchain
  else if has q ["layer 2"; "l2"; "optimism"; "arbitrum"; "rollup"; "zksync"]
  then Canned Layer2
  else if has q ["defi"; "decentralized finance"]
  then Canned DeFi
  else if has q ["nft"; "non-fungible"; "non fungible"; "opensea"; "digital art"]
  then Canned Nft
  else if has q ["wallet"; "metamask"; "coinbase wallet"; "rainbow"]
  then Canned Wallet
  else if has q ["private key"; "seed phrase"; "mnemonic"; "recovery phrase"]
  then Canned PrivateKey
  else if has q ["gas"; "gas fee"; "gwei"; "transaction fee"]
  then Canned GasFees
  else if has q ["stablecoin"; "usdc"; "usdt"; "dai"; "stable coin"]
  then Canned Stablecoin
  else if has q ["staking"; "stake"; "validator"; "proof of stake"]
  then Canned Staking
  else if has q ["memecoin"; "meme coin"; "doge"; "shib"; "pepe"; "bonk"; "wif"]
  then Canned Memecoins
  else if has q ["smart contract"; "solidity"]
  then Canned SmartContract
  else if has q ["erc-20"; "erc20"; "fungible token"]
  then Canned Erc20
  else if has q ["web3"; "web 3"; "blockchain technology"]
  then Canned Web3
  else if has q ["dao"; "decentralized autonomous"; "governance"; "voting"]
  then Canned Dao
  else if has q ["yield farm"; "yield farming"; "provide liquidity"; "lp token"; "liquidity provider"]
  then Canned YieldFarming
  else if has q ["airdrop"; "air drop"; "free token"]
  then Canned Airdrop
  else if has q ["market cap"; "marketcap"; "mcap"; "fully diluted"]
  then Canned MarketCap
  else if has q ["volume"; "trading volume"; "volume 24h"]
  then Canned Volume
  else if has q ["dyor"; "do your own research"; "research"]
  then Canned Dyor
  else if has q ["rug pull"; "rugpull"; "scam"; "honeypot"]
  then Canned RugPull
  else if has q ["cold wallet"; "hardware wallet"; "ledger"; "trezor"; "hot wallet"]
  then Canned ColdWallet
  else if has q ["fud"; "fomo"; "fear of missing"; "bull run"; "bear market"]
  then Canned FudFomo
  else if has q ["weth"; "wrapped eth"; "wrapped ether"]
  then Canned Weth
  else if has q ["tokenomics"; "tokenomic"; "supply"; "vesting"; "allocation"]
  then Canned Tokenomics
  else match js_match true re_address q with
  | Some m => AddressDetected (whole m)
  | None =>
  if has q ["price"; "how much is"; "how much does"]
  then Canned PriceQuestion
  else if has q ["help"; "command"; "what can you"]
  then Canned Help
  else Menu (creditNote errCode)
  end.

(** *** The contract of the specification

    "an explicit ordered list of (predicate, responder) pairs evaluated in
    sequence": the first pair whose predicate holds answers, and the
    generic menu answers when none does. *)

Record Rule : Type := mkRule {
  applies : str -> bool;
  respond : str -> Answer
}.

Definition keywords (words : list string) (t : Topic) : Rule :=
  {| applies := fun q => has q words; respond := fun _ => Canned t |}.

Definition address_rule : Rule :=
  {| applies := fun q =>
       match js_match true re_address q with Some _ => true | None => false end;
     respond := fun q =>
       match js_match true re_address q with
       | Some m => AddressDetected (whole m)
       | None => AddressDetected []
       end |}.

Definition rules : list Rule := [
  keywords ["hello"; "hi "; "hey"; "how are you"; "greetings"] Greeting;
  keywords ["deploy"; "launch"; "create token"; "mint token"] PlatformDeploy;
  keywords ["fee"; "split"; "earn"; "reward"] PlatformFees;
  keywords ["conwaypad"; "how does"; "how it work"; "what is conway"; "platform"]
    PlatformConwayPad;
  keywords ["clanker"] PlatformClanker;
  keywords ["uniswap"; "liquidity"; "pool"; "amm"; "swap"] PlatformUniswap;
  keywords ["dexscreener"; "dex screener"; "chart"] PlatformDexScreener;
  keywords ["stat"; "total token"; "how many"; "dashboard"] PlatformStats;
  keywords ["bitcoin"; "btc"; "satoshi nakamoto"; "halving"] Bitcoin;
  keywords ["ethereum"; "ether "; " eth "; "vitalik"; "the merge"; "evm"] Ethereum;
  keywords ["solana"; " sol "] Solana;
  keywords ["bnb"; "binance smart chain"; "bsc"; "pancakeswap"] BnbChain;
  keywords ["polygon"; "matic"] Polygon;
  keywords ["base "; "base blockchain"; "chain id 8453"; "layer 2 base"; "coinbase l2"]
    BaseBlockchain;
  keywords ["layer 2"; "l2"; "optimism"; "arbitrum"; "rollup"; "zksync"] Layer2;
  keywords ["defi"; "decentralized finance"] DeFi;
  keywords ["nft"; "non-fungible"; "non fungible"; "opensea"; "digital art"] Nft;
  keywords ["wallet"; "metamask"; "coinbase wallet"; "rainbow"] Wallet;
  keywords ["private key"; "seed phrase"; "mnemonic"; "recovery phrase"] PrivateKey;
  keywords ["gas"; "gas fee"; "gwei"; "transaction fee"] GasFees;
  keywords ["stablecoin"; "usdc"; "usdt"; "dai"; "stable coin"] Stablecoin;
  keywords ["staking"; "stake"; "validator"; "proof of stake"] Staking;
  keywords ["memecoin"; "meme coin"; "doge"; "shib"; "pepe"; "bonk"; "wif"] Memecoins;
  keywords ["smart contract"; "solidity"] SmartContract;
  keywords ["erc-20"; "erc20"; "fungible token"] Erc20;
  keywords ["web3"; "web 3"; "blockchain technology"] Web3;
  keywords ["dao"; "decentralized autonomous"; "governance"; "voting"] Dao;
  keywords ["yield farm"; "yield farming"; "provide liquidity"; "lp token";
            "liquidity provider"] YieldFarming;
  keywords ["airdrop"; "air drop"; "free token"] Airdrop;
  keywords ["market cap"; "marketcap"; "mcap"; "fully diluted"] MarketCap;
  keywords ["volume"; "trading volume"; "volume 24h"] Volume;
  keywords ["dyor"; "do your own research"; "research"] Dyor;
  keywords ["rug pull"; "rugpull"; "scam"; "honeypot"] RugPull;
  keywords ["cold wallet"; "hardware wallet"; "ledger"; "trezor"; "hot wallet"]
    ColdWallet;
  keywords ["fud"; "fomo"; "fear of missing"; "bull run"; "bear market"] FudFomo;
  keywords ["weth"; "wrapped eth"; "wrapped ether"] Weth;
  keywords ["tokenomics"; "tokenomic"; "supply"; "vesting"; "allocation"] Tokenomics;
  address_rule;
  keywords ["price"; "how much is"; "how much does"] PriceQuestion;
  keywords ["help"; "command"; "what can you"] Help
].

Fixpoint first_match (rs : list Rule) (q : str) : option Answer :=
  match rs with
  | [] => None
  | r :: rs' => if applies r q then Some (respond r q) else first_match rs' q
  end.

Definition ordered_answer (message : str) (errCode : option str) : Answer :=
  match first_match rules (toLowerCase message) with
  | Some a => a
  | None => Menu (creditNote errCode)
  end.

End Fallback.

(* ===================================================================== *)
(** ** Chat history (PgStorage)                                           *)
(* ===================================================================== *)

Module Storage.

(** A row of [chat_messages]. [createdAt] is a nullable timestamp. *)
Record ChatMessage : Type := mkChatMessage {
  id : Z;
  sessionId : string;
  role : string;
  content : string;
  createdAt : option Z
}.

(** [InsertChatMessage]: the row without [id] and [createdAt]. *)
Record InsertChatMessage : Type := mkInsertChatMessage {
  ins_sessionId : string;
  ins_role : string;
  ins_content : string
}.

(** The table and its serial counter. *)
Record Db : Type := mkDb {
  chatMessages : list ChatMessage;
  next_id : Z
}.

(** Ascending order on a nullable timestamp, nulls last. *)
Definition created_le (a b : ChatMessage) : bool :=
  match createdAt a, createdAt b with
  | Some x, Some y => (x <=? y)%Z
  | Some _, None => true
  | None, Some _ => false
  | None, None => true
  end.

Fixpoint insert_sorted (m : ChatMessage) (l : list ChatMessage) : list ChatMessage :=
  match l with
  | [] => [m]
  | x :: l' => if created_le m x then m :: l else x :: insert_sorted m l'
  end.

(** [.orderBy(chatMessages.createdAt)] *)
Definition orderBy_createdAt (l : list ChatMessage) : list ChatMessage :=
  foldr insert_sorted [] l.

(** [db.select().from(chatMessages).where(eq(sessionId, s)).orderBy(createdAt)] *)
Definition getChatHistory (db : Db) (s : string) : list ChatMessage :=
  orderBy_createdAt (filter (fun m => sessionId m = s) (chatMessages db)).

(** [db.insert(chatMessages).values(msg).returning()], at time [now]. *)
Definition addChatMessage (db : Db) (now : Z) (msg : InsertChatMessage)
    : Db * ChatMessage :=
  let row := {| id := next_id db; sessionId := ins_sessionId msg;
                role := ins_role msg; content := ins_content msg;
                createdAt := Some now |} in
  ({| chatMessages := chatMessages db ++ [row]; next_id := (next_id db + 1)%Z |},
   row).

(** [db.delete(chatMessages).where(eq(sessionId, s))] *)
Definition clearChatHistory (db : Db) (s : string) : Db :=
  {| chatMessages := filter (fun m => sessionId m ≠ s) (chatMessages db);
     next_id := next_id db |}.

(** GET and DELETE /api/chat/history/:sessionId *)
Definition get_history_route (db : Db) (s : string) : list ChatMessage :=
  getChatHistory db s.

Definition delete_history_route (db : Db) (s : string) : Db :=
  clearChatHistory db s.

End Storage.

(* ===================================================================== *)
(** ** Event streams on the wire                                          *)
(* ===================================================================== *)

(** Both readers of an event stream, [readSseStream] of the server and the
    loop of [sendMessage] in the chat page, keep the incomplete last line
    in a buffer and handle the complete lines of what has arrived. *)

Module Wire.

(** The complete lines the loop handles, in order, when the chunks [cs]
    arrive with [buf] in the buffer. *)
Fixpoint complete_lines (buf : str) (cs : list str) : list str :=
  match cs with
  | [] => []
  | raw :: cs' =>
      let lines := Inference.split_lines [] (buf ++ raw) in
      List.removelast lines ++ complete_lines (List.last lines []) cs'
  end.

(** [onDone] and [onError] end a turn. *)
Definition terminal (e : Inference.Event) : bool :=
  match e with
  | Inference.OnDone | Inference.OnError _ => true
  | _ => false
  end.

(** A trace of [onChunk] calls, each with a truthy delta. *)
Definition deltas (tr : list Inference.Event) : Prop :=
  Forall (fun e => ∃ d, e = Inference.OnChunk d ∧ Js.truthy d = true) tr.

(** A text without a line feed. *)
Definition no_nl (l : str) : Prop :=
  forallb (fun c => negb (Ascii.eqb c "010")) l = true.

(** A trace in which neither [onDone] nor [onError] is called. *)
Definition calm (tr : list Inference.Event) : Prop :=
  forallb (fun e => negb (terminal e)) tr = true.

(** A request of the turn was answered with status 200: among the
    requests [reqs] of the turn there is one whose answer, given the
    requests sent before it, has status 200; and: has status 200 and a
    stream that ended without an error. *)
Definition answered_200 (w : Inference.World) (reqs : list Inference.Request)
    : Prop :=
  ∃ before rq after r,
    reqs = before ++ rq :: after
    ∧ Inference.httpsPostStream w before rq = Inference.Resolved r
    ∧ Inference.status r = 200%Z.

Definition streamed_200 (w : Inference.World) (reqs : list Inference.Request)
    : Prop :=
  ∃ before rq after r,
    reqs = before ++ rq :: after
    ∧ Inference.httpsPostStream w before rq = Inference.Resolved r
    ∧ Inference.status r = 200%Z
    ∧ Inference.broken (Inference.stream r) = None.

(** How a part of a turn may end, when the requests [sent] went out before
    it: with its one callback of the two that end a turn, or with an
    exception before any of them. *)
Definition turn_ok (w : Inference.World) (sent : list Inference.Request)
    (m : Inference.M unit) : Prop :=
  match m with
  | (tr, Inference.Resolved _) =>
      ∃ pre last,
        tr = pre ++ [last] ∧ terminal last = true ∧ calm pre
        ∧ (last = Inference.OnDone →
             streamed_200 w (sent ++ Inference.requests tr))
        ∧ ((∃ d, In (Inference.OnChunk d) pre) →
             answered_200 w (sent ++ Inference.requests tr))
  | (tr, Inference.Rejected _) =>
      calm tr
      ∧ ((∃ d, In (Inference.OnChunk d) tr) →
           answered_200 w (sent ++ Inference.requests tr))
  end.

End Wire.

(** Vocabulary for the shape of texts. *)
Module Shape.

(** A hexadecimal digit in lower case. *)
Definition is_lower_hex (c : ascii) : bool := in_range c "a" "f" || is_digit c.

(** A character that [toLowerCase] leaves as it is. *)
Definition is_lowered (c : ascii) : bool := Ascii.eqb (lower_char c) c.

End Shape.

(* ===================================================================== *)
(** ** The routes (server/routes.ts)                                      *)
(* ===================================================================== *)

(** The handlers of [registerRoutes] around the deploy dispatch and the
    relay.  The database is taken to accept every insert; what a handler
    hands to [storage] is recorded as the list of its calls. *)

Module Routes.

(** *** GET /api/agent/info *)

Record AgentInfo : Type := mkAgentInfo {
  agentWallet : str;
  configured : bool
}.

Definition agent_info (sv : Server) : AgentInfo :=
  {| agentWallet := AGENT_WALLET_ADDRESS sv;
     configured := negb (bool_decide (AGENT_WALLET_ADDRESS sv = zero_address)) |}.

(** *** POST /api/clanker/deploy *)

(** [InsertTokenLaunch]: the argument of [storage.addTokenLaunch]. *)
Record InsertTokenLaunch : Type := mkInsertTokenLaunch {
  tl_name : str;
  tl_symbol : str;
  tl_deployerWallet : str;
  tl_txHash : option str;
  tl_tokenAddress : option str
}.

Inductive DeployReply : Type :=
| BadRequest (error : str)        (* 400 { error }                      *)
| ServerError (error : str)       (* 500 { error }                      *)
| Pending (txHash : str).         (* 200 { txHash, status: "pending" }  *)

(** What the handler does: the SDK effects, the calls of
    [storage.addTokenLaunch], and the answer. *)
Record DeployTurn : Type := mkDeployTurn {
  dt_effects : list Effect;
  dt_launches : list InsertTokenLaunch;
  dt_reply : DeployReply
}.

Definition clanker_deploy (sv : Server) (sdk : Sdk) (b : DeployBody) : DeployTurn :=
  match deploy_route b with
  | None =>
      mkDeployTurn [] []
        (BadRequest (of_string "name, symbol, and tokenAdmin are required"))
  | Some params =>
      let (effects, result) := deployTokenViaSDK sv sdk params in
      match result with
      | Failure e => mkDeployTurn effects [] (ServerError e)
      | Success txHash =>
          mkDeployTurn effects
            [ {| tl_name := the (b_name b); tl_symbol := the (b_symbol b);
                 tl_deployerWallet := the (b_tokenAdmin b);
                 tl_txHash := Some txHash; tl_tokenAddress := None |} ]
            (Pending txHash)
      end
  end.

(** *** POST /api/chat: the deploy branch *)

(** What [sendChunk] and [sendDone] put on the event stream. *)
Inductive Frame : Type :=
| Chunk (content : str)     (* data: {"content": ..., "done": false}  *)
| Done.                     (* data: {"done": true}, and res.end()     *)

(** [lines.join("\n")] *)
Definition join (ls : list str) : str := Inference.join_lines ls.

Definition nl2 : str := [nl; nl].

(** The texts of the branch.  Characters outside ASCII are kept as the
    bytes of their UTF-8 encoding. *)
Definition ask_text (n s : str) : str :=
  of_string "Ready to deploy **" ++ n ++ of_string "** (" ++ s ++ of_string ")!"
  ++ nl2
  ++ of_string "I just need one more thing: **your wallet address** (format: 0x...) to set as token admin and receive 90% of LP fees."
  ++ nl2 ++ of_string "Example: `0x1234...5678`".

(** [cond ? line : ""] *)
Definition line_if (f : option str) (label : str) : str :=
  if Deploy.truthy f then label ++ the f else [].

(** [[...].filter(Boolean).join("\n")]: the empty strings of the list, the
    two that stand for blank lines included, are dropped. *)
Definition preview_text (p : DeployParams) (walletToUse : str) : str :=
  join (List.filter nonempty
    [ of_string "🚀 **Deploy Token Confirmation**";
      [];
      of_string "- **Name:** " ++ the (name p);
      of_string "- **Symbol:** " ++ the (symbol p);
      of_string "- **Token Admin (Creator):** `" ++ walletToUse ++ of_string "`";
      line_if (websiteUrl p) (of_string "- **Website:** ");
      line_if (twitterUrl p) (of_string "- **X:** ");
      line_if (description p) (of_string "- **Description:** ");
      of_string "- **Fee Split:** 90% you · 10% ConwayPad";
      of_string "- **Liquidity:** Permanently locked on Uniswap V3";
      [];
      of_string "⏳ Processing deployment to Base blockchain..." ]).

Definition success_text (txHash : str) : str :=
  join
    [ of_string "✅ **Token Successfully Deployed!**";
      [];
      of_string "- **TX Hash:** `" ++ txHash ++ of_string "`";
      of_string "- **Basescan:** https://basescan.org/tx/" ++ txHash;
      [];
      of_string "Your token will appear on Clanker and DexScreener once confirmed on-chain. Check it in the "
      ++ Inference.dq ++ of_string "My Launches" ++ Inference.dq ++ of_string " tab." ].

Definition fail_text (error : str) : str :=
  nl2 ++ of_string "❌ **Deployment Failed**" ++ nl2
  ++ of_string "Error: " ++ error ++ nl2
  ++ of_string "Make sure CONWAY_WALLET_PRIVATE_KEY is configured and the server wallet has ETH for gas.".

(** A call of [storage.addChatMessage] for the session of the request. *)
Record Stored : Type := mkStored { st_role : str; st_content : str }.

(** What the handler does on the deploy branch: the frames it writes, the
    SDK effects, and the calls of [storage]. *)
Record ChatTurn : Type := mkChatTurn {
  ct_frames : list Frame;
  ct_effects : list Effect;
  ct_launches : list InsertTokenLaunch;
  ct_stored : list Stored
}.

Definition user (content : str) : Stored := mkStored (of_string "user") content.

Definition assistant (content : str) : Stored :=
  mkStored (of_string "assistant") content.

Inductive ChatReply : Type :=
| ChatBadRequest                  (* 400 "message and sessionId required" *)
| DeployBranch (turn : ChatTurn)
| ToRelay.                        (* the regular chat, see below          *)

Definition chat_route (sv : Server) (sdk : Sdk)
    (message sessionId userWallet : option str) : ChatReply :=
  if negb (Deploy.truthy message) || negb (Deploy.truthy sessionId)
  then ChatBadRequest
  else
    let message := the message in
    match chat_step message userWallet with
    | RegularChat => ToRelay
    | AskForWallet n s =>
        let ask := ask_text n s in
        DeployBranch
          (mkChatTurn [Chunk ask; Done] [] [] [user message; assistant ask])
    | Dispatch params =>
        let walletToUse := the (wallet params) in
        let preview := preview_text params walletToUse in
        let (effects, result) := deployTokenViaSDK sv sdk params in
        match result with
        | Success txHash =>
            let success := success_text txHash in
            DeployBranch
              (mkChatTurn
                 [Chunk preview; Chunk (nl2 ++ success); Done]
                 effects
                 [ {| tl_name := the (name params);
                      tl_symbol := the (symbol params);
                      tl_deployerWallet := walletToUse;
                      tl_txHash := Some txHash; tl_tokenAddress := None |} ]
                 [user message; assistant ((preview ++ nl2) ++ success)])
        | Failure e =>
            let fail := fail_text e in
            DeployBranch
              (mkChatTurn
                 [Chunk preview; Chunk fail; Done]
                 effects
                 []
                 [user message; assistant ((preview ++ nl2) ++ fail)])
        end
    end.

(** The text a client has received when it has put the chunks together. *)
Fixpoint streamed (fs : list Frame) : str :=
  match fs with
  | [] => []
  | Chunk c :: fs' => c ++ streamed fs'
  | Done :: fs' => streamed fs'
  end.

(** *** POST /api/chat: the regular chat, up to the relay *)

(** [l.slice(-n)] for [n > 0]: the last [n] elements. *)
Definition slice_last {A : Type} (n : nat) (l : list A) : list A :=
  skipn (List.length l - n) l.

Definition relay_message (m : Storage.ChatMessage) : Inference.Message :=
  Inference.mkMessage (of_string (Storage.role m)) (of_string (Storage.content m)).

(** The messages handed to [callConwayAI]: the message of the user is
    stored at time [now], then the history of the session is read and its
    last 18 rows are taken. *)
Definition relay_messages (db : Storage.Db) (now : Z) (sessionId message : string)
    : list Inference.Message :=
  let db' := fst (Storage.addChatMessage db now
                    (Storage.mkInsertChatMessage sessionId "user" message)) in
  map relay_message (slice_last 18 (Storage.getChatHistory db' sessionId)).

(** The rows of a session are all older than [now]. *)
Definition all_older (db : Storage.Db) (sessionId : string) (now : Z) : Prop :=
  ∀ m, m ∈ Storage.chatMessages db → Storage.sessionId m = sessionId →
       ∃ t, Storage.createdAt m = Some t ∧ (t < now)%Z.

End Routes.

(* ===================================================================== *)
(** ** The client (client/src/lib/conway.ts and the pages)                *)
(* ===================================================================== *)

(** The forms are modelled for ASCII input, where [toUpperCase] is the
    ASCII upper-casing. *)

Module Client.

(** *** client/src/lib/conway.ts *)

(** [s.slice(-n)] for a count [n]: the last [n] characters; [-0] is [0],
    so [s.slice(-0)] is all of [s]. *)
Definition slice_from_end (n : nat) (s : str) : str :=
  if Nat.eqb n 0 then s else skipn (List.length s - n) s.

(** [truncateAddress(addr, start = 6, end = 4)], for counts that are
    natural numbers. *)
Definition truncateAddress (addr : str) (start end_ : nat) : str :=
  if negb (nonempty addr) || Nat.ltb (List.length addr) (start + end_ + 2)
  then addr
  else firstn start addr ++ of_string "..." ++ slice_from_end end_ addr.

(** The two stores of the browser. *)
Record Browser : Type := mkBrowser {
  localStorage : gmap string str;
  sessionStorage : gmap string str
}.

Definition SESSION_ID_KEY : string := "clankerpad_session_id".
Definition WALLET_KEY : string := "clankerpad_wallet".

(** [getOrCreateSessionId]: [now] is the text of [Date.now()] and [rnd]
    the text of [Math.random().toString(36).slice(2)]. *)
Definition getOrCreateSessionId (now rnd : str) (b : Browser) : Browser * str :=
  let local := delete SESSION_ID_KEY (localStorage b) in
  let create :=
    let id := of_string "session_" ++ now ++ of_string "_" ++ rnd in
    (mkBrowser local (<[SESSION_ID_KEY := id]> (sessionStorage b)), id) in
  match sessionStorage b !! SESSION_ID_KEY with
  | Some id => if nonempty id then (mkBrowser local (sessionStorage b), id) else create
  | None => create
  end.

(** [localStorage.getItem(WALLET_KEY) || ""] *)
Definition getUserWallet (b : Browser) : str :=
  or_default (localStorage b !! WALLET_KEY) [].

Definition setUserWallet (wallet : str) (b : Browser) : Browser :=
  mkBrowser (<[WALLET_KEY := wallet]> (localStorage b)) (sessionStorage b).

(** *** The wallet forms (pages/chat.tsx, pages/my-launches.tsx) *)

(** [saveWallet] of the chat page and [handleSaveWallet] of the launches
    page: the storage after the form was submitted with [walletInput]. *)
Definition saveWallet (walletInput : str) (b : Browser) : Browser :=
  let w := trim walletInput in
  if isValidWallet w then setUserWallet w b else b.

(** The storage after a series of submissions of the wallet forms. *)
Definition saveWallets (inputs : list str) (b : Browser) : Browser :=
  fold_left (fun b input => saveWallet input b) inputs b.

(** The stored wallet is absent, or it has passed the check of the wallet
    forms. *)
Definition wallet_store_ok (b : Browser) : Prop :=
  getUserWallet b = [] ∨ isValidWallet (getUserWallet b) = true.

(** *** The deploy panel of the chat page (pages/chat.tsx) *)

Record DeployFormData : Type := mkDeployFormData {
  f_name : str;
  f_symbol : str;
  f_wallet : str;
  f_website : str;
  f_twitter : str;
  f_description : str
}.

(** [if (value) lines.push(label + text)] *)
Definition push_if (value : str) (label : string) (text : str) : list str :=
  if nonempty value then [of_string label ++ text] else [].

Definition buildMessage (form : DeployFormData) : str :=
  Inference.join_lines
    ([of_string "Deploy token"]
     ++ push_if (f_name form) "Name: " (f_name form)
     ++ push_if (f_symbol form) "Symbol: " (toUpperCase (f_symbol form))
     ++ push_if (f_website form) "Website: " (f_website form)
     ++ push_if (f_twitter form) "X: " (f_twitter form)
     ++ push_if (f_description form) "Description: " (f_description form)
     ++ push_if (f_wallet form) "Wallet: " (f_wallet form)).

(** The text the panel builds from a name, a symbol already in capitals
    and a wallet, when the other fields are empty. *)
Definition panel_message (foo bar w : str) : str :=
  of_string "Deploy token" ++ nl :: of_string "Name: " ++ foo
  ++ nl :: of_string "Symbol: " ++ bar ++ nl :: of_string "Wallet: " ++ w.

(** [handleSubmit] of the panel: the text handed to [sendMessage], if
    any. *)
Definition handleSubmit (form : DeployFormData) : option str :=
  if negb (nonempty (f_name form)) || negb (nonempty (f_symbol form))
     || negb (nonempty (f_wallet form))
  then None
  else Some (buildMessage form).

(** The [message] and [userWallet] that [sendMessage] posts to /api/chat
    for the text [text], when no answer is being streamed. *)
Definition chat_request (text : str) (b : Browser) : option (str * str) :=
  if negb (nonempty (trim text)) then None
  else Some (trim text, getUserWallet b).

(** *** The launch form (pages/my-launches.tsx) *)

Record LaunchFormData : Type := mkLaunchFormData {
  lf_name : str;
  lf_symbol : str;
  lf_description : str;
  lf_imageUrl : str;
  lf_websiteUrl : str;
  lf_twitterUrl : str
}.

(** [s || undefined] *)
Definition or_undefined (s : str) : option str :=
  if nonempty s then Some s else None.

(** [handleSubmit] of the launch form for the wallet [wallet] of the page:
    the body posted to /api/clanker/deploy, if any. *)
Definition launch_handleSubmit (wallet : str) (form : LaunchFormData)
    : option DeployBody :=
  if negb (nonempty (trim (lf_name form)))
     || negb (nonempty (trim (lf_symbol form)))
  then None
  else Some {| b_name := Some (trim (lf_name form));
               b_symbol := Some (toUpperCase (trim (lf_symbol form)));
               b_tokenAdmin := Some wallet;
               b_description := or_undefined (trim (lf_description form));
               b_imageUrl := or_undefined (trim (lf_imageUrl form));
               b_websiteUrl := or_undefined (trim (lf_websiteUrl form));
               b_twitterUrl := or_undefined (trim (lf_twitterUrl form)) |}.

(** *** Reading the answer of /api/chat (pages/chat.tsx) *)

(** What [sendChunk] and [sendDone] of the server write for a frame:
    the object, and its line with [stringify] for [JSON.stringify]. *)
Definition frame_value (f : Routes.Frame) : jsval :=
  match f with
  | Routes.Chunk c =>
      JObj (<["content" := JStr (to_string c)]> (<["done" := JBool false]> ∅))
  | Routes.Done => JObj (<["done" := JBool true]> ∅)
  end.

Definition frame_text (stringify : jsval -> str) (f : Routes.Frame) : str :=
  of_string "data: " ++ stringify (frame_value f) ++ [nl; nl].

(** One line of the stream in the loop of [sendMessage]: [fullContent]
    after it, kept as the list of the values appended to it; [parse] is
    [JSON.parse], [None] when it throws. *)
Definition client_line (parse : str -> option jsval)
    (fullContent : list jsval) (line : str) : list jsval :=
  if negb (startsWith line "data: ") then fullContent
  else
    match parse (trim (skipn 6 line)) with
    | None => fullContent
    | Some parsed =>
        match prop parsed "done", prop parsed "content" with
        | Some done, Some content =>
            if Js.truthy done then fullContent
            else if Js.truthy content then fullContent ++ [content]
                 else fullContent
        | _, _ => fullContent
        end
    end.

(** The loop over the pieces [reader.read()] yields, decoded. *)
Fixpoint client_chunks (parse : str -> option jsval) (buffer : str)
    (fullContent : list jsval) (values : list str) : list jsval :=
  match values with
  | [] => fullContent
  | value :: values' =>
      let lines := Inference.split_lines [] (buffer ++ value) in
      client_chunks parse (List.last lines [])
        (fold_left (client_line parse) (List.removelast lines) fullContent)
        values'
  end.

Definition readChatStream (parse : str -> option jsval) (values : list str)
    : list jsval :=
  client_chunks parse [] [] values.

(** The contents of the chunks of a stream that are not empty. *)
Fixpoint contents (fs : list Routes.Frame) : list jsval :=
  match fs with
  | [] => []
  | Routes.Chunk c :: fs' =>
      if nonempty c then JStr (to_string c) :: contents fs' else contents fs'
  | Routes.Done :: fs' => contents fs'
  end.

(** [fullContent] as text, when the values appended to it are strings. *)
Fixpoint shown (pieces : list jsval) : str :=
  match pieces with
  | [] => []
  | JStr s :: pieces' => of_string s ++ shown pieces'
  | _ :: pieces' => shown pieces'
  end.

(** What the two [JSON] functions are relied on for, on a frame: the text
    of the frame has no line feed in it, and parsing it gives the frame
    back. *)
Definition codec_ok (stringify : jsval -> str) (parse : str -> option jsval)
    (f : Routes.Frame) : Prop :=
  Wire.no_nl (stringify (frame_value f))
  ∧ parse (trim (stringify (frame_value f))) = Some (frame_value f).

(** Sample codec for two frames. *)
Definition sample_stringify (v : jsval) : str :=
  match v with
  | JObj m =>
      match m !! "content" with
      | Some _ => of_string "{hi}"
      | None => of_string "{done}"
      end
  | _ => of_string "null"
  end.

Definition sample_frames : list Routes.Frame :=
  [Routes.Chunk (of_string "Hi"); Routes.Done].

Definition sample_frame_parse (s : str) : option jsval :=
  if String.eqb (to_string s) "{hi}"
  then Some (frame_value (Routes.Chunk (of_string "Hi")))
  else if String.eqb (to_string s) "{done}" then Some (frame_value Routes.Done)
  else None.

End Client.

(* ===================================================================== *)
(** * Properties                                                          *)
(* ===================================================================== *)

Import Storage.

(** ** Chat history *)

Section ChatHistory.

Implicit Types (db : Db) (s : string) (l : list ChatMessage).

Lemma clear_keeps_other_rows db s (m : ChatMessage) :
  m ∈ chatMessages db → sessionId m ≠ s → m ∈ chatMessages (clearChatHistory db s).
Proof.
  intros Hin Hne. unfold clearChatHistory; simpl.
  apply list_elem_of_filter. split; assumption.
Qed.

Lemma select_after_clear_same db s :
  filter (fun m => sessionId m = s) (chatMessages (clearChatHistory db s)) = [].
Proof.
  unfold clearChatHistory; simpl.
  induction (chatMessages db) as [|m l IH]; [reflexivity|].
  rewrite filter_cons. destruct (decide (sessionId m ≠ s)) as [Hne|Heq].
  - rewrite filter_cons. destruct (decide (sessionId m = s)); [contradiction|exact IH].
  - exact IH.
Qed.

Lemma select_after_clear_other db s s' :
  s' ≠ s →
  filter (fun m => sessionId m = s') (chatMessages (clearChatHistory db s))
  = filter (fun m => sessionId m = s') (chatMessages db).
Proof.
  intros Hne. unfold clearChatHistory; simpl.
  induction (chatMessages db) as [|m l IH]; [reflexivity|].
  rewrite !filter_cons.
  destruct (decide (sessionId m ≠ s)) as [H1|H1].
  - rewrite filter_cons. destruct (decide (sessionId m = s')); [f_equal|]; exact IH.
  - destruct (decide (sessionId m = s')) as [H2|H2]; [|exact IH].
    exfalso. apply H1. congruence.
Qed.

(** C9. Clearing the chat history of a session and then reading the history
    of that session gives the empty list; the history read for any other
    session is what it was before, and every stored message of another
    session is still stored. *)
Theorem clear_then_get_history db s :
  get_history_route (delete_history_route db s) s = []
  ∧ (∀ s', s' ≠ s →
       get_history_route (delete_history_route db s) s' = get_history_route db s')
  ∧ (∀ m, m ∈ chatMessages db → sessionId m ≠ s →
       m ∈ chatMessages (delete_history_route db s)).
Proof.
  unfold get_history_route, delete_history_route, getChatHistory.
  split; [|split].
  - rewrite select_after_clear_same. reflexivity.
  - intros s' Hne. rewrite select_after_clear_other by assumption. reflexivity.
  - intros m. apply clear_keeps_other_rows.
Qed.

Example clear_one_of_two_sessions :
  let db := {| chatMessages :=
                 [ mkChatMessage 1 "a" "user" "hi" (Some 10%Z);
                   mkChatMessage 2 "b" "user" "yo" (Some 11%Z);
                   mkChatMessage 3 "a" "assistant" "hello" (Some 12%Z) ];
               next_id := 4 |} in
  getChatHistory db "a"
  = [ mkChatMessage 1 "a" "user" "hi" (Some 10%Z);
      mkChatMessage 3 "a" "assistant" "hello" (Some 12%Z) ]
  ∧ getChatHistory (clearChatHistory db "a") "a" = []
  ∧ getChatHistory (clearChatHistory db "a") "b"
    = [ mkChatMessage 2 "b" "user" "yo" (Some 11%Z) ].
Proof. vm_compute. repeat split; reflexivity. Qed.

End ChatHistory.

(** ** Token normalization *)

Import Conway.

Section Normalization.

Implicit Types (t : record) (k : string) (v : jsval).

Lemma jor_defined a b : Js.truthy b = true ∨ nullish b = false →
  nullish (jor a b) = false.
Proof.
  intros Hb. unfold jor. destruct (Js.truthy a) eqn:Ha.
  - destruct a; simpl in *; congruence.
  - destruct Hb as [Hb|Hb]; [destruct b; simpl in *; congruence | exact Hb].
Qed.

Lemma jor_undefined_l b : jor JUndefined b = b.
Proof. reflexivity. Qed.

Lemma prop_truthy v k : Js.truthy v = true → prop v k = Some (own v k).
Proof. unfold prop. destruct v; simpl; congruence. Qed.

Lemma market_truthy t :
  Js.truthy (jor (opt_prop (field t "related") "market") (JObj ∅)) = true.
Proof.
  unfold jor.
  destruct (Js.truthy (opt_prop (field t "related") "market")) eqn:E;
    [exact E | reflexivity].
Qed.

(** [normalizeToken] never throws: the only values it reads properties of
    are the record itself, the results of optional chaining, and [market],
    which is truthy. *)
Lemma normalizeToken_total t : is_Some (normalizeToken t).
Proof.
  unfold normalizeToken.
  rewrite !(prop_truthy _ _ (market_truthy t)). simpl. eexists; reflexivity.
Qed.

Lemma jor_falsy a b : Js.truthy a = false → jor a b = b.
Proof. intros H. unfold jor. rewrite H. reflexivity. Qed.

(** Reading a market figure from [market || {}] is reading it from
    [market] by optional chaining. *)
Lemma market_read (m : jsval) k :
  k ∈ ["marketCap"; "price"; "priceChange24h"; "volume24h"] →
  own (jor m (JObj ∅)) k = opt_prop m k.
Proof.
  intros Hk. unfold jor, opt_prop.
  destruct (Js.truthy m) eqn:Hm.
  - destruct m; simpl in *; try discriminate; reflexivity.
  - repeat (apply elem_of_cons in Hk as [->|Hk]);
      [..|apply elem_of_nil in Hk; contradiction];
      destruct m; simpl in *; try discriminate; try reflexivity;
      apply negb_false_iff, String.eqb_eq in Hm; subst s; reflexivity.
Qed.

Ltac read_inserted :=
  repeat first
    [ rewrite lookup_insert_eq
    | rewrite lookup_insert_ne by (intro; discriminate) ].

(** Split [missing t k] into one fact per place the field is read from,
    and use them in the goal. *)
Ltac use_missing H :=
  apply Forall_forall in H;
  match type of H with
  | Forall _ ?l => let l' := eval vm_compute in l in change l with l' in H
  end;
  repeat match goal with
  | H' : Forall _ (_ :: _) |- _ =>
      let H1 := fresh "Hfalsy" in apply Forall_cons in H' as [H1 H']
  end;
  unfold field, jor; cbn [read_path opt_prop nullish] in *;
  repeat match goal with
  | H' : Js.truthy ?a = false |- _ => rewrite H'; clear H'
  end.

(** C4 (as the code has it). [normalizeToken] is total and never throws:
    for every input record it returns a record in which address, name,
    symbol, deployDate, imgUrl, marketCap, price, priceChange24h, volume24h
    and chainId are all defined (neither undefined nor null), and a field
    that is missing from the input gets its default: the empty string for
    address, deployDate and imgUrl, 0 for the four market figures, but
    "Unknown" for name, "?" for symbol and 8453 for chainId. *)
Theorem normalizeToken_defaults t :
  ∃ t', normalizeToken t = Some t'
    ∧ (∀ k, k ∈ contract_fields →
         ∃ v, t' !! k = Some v ∧ nullish v = false)
    ∧ (∀ k, k ∈ contract_fields → missing t k →
         t' !! k = Some (default_of k)).
Proof.
  destruct (normalizeToken_total t) as [t' Ht']. exists t'.
  split; [exact Ht'|].
  unfold normalizeToken in Ht'.
  rewrite !(prop_truthy _ _ (market_truthy t)) in Ht'. simpl in Ht'.
  injection Ht' as <-.
  split.
  - intros k Hk. unfold contract_fields in Hk.
    repeat (apply elem_of_cons in Hk as [->|Hk]);
      [..|apply elem_of_nil in Hk; contradiction];
      read_inserted; eexists; (split; [reflexivity|]);
      apply jor_defined; right; reflexivity.
  - intros k Hk Hmiss. unfold contract_fields in Hk.
    repeat (apply elem_of_cons in Hk as [->|Hk]);
      [..|apply elem_of_nil in Hk; contradiction];
      read_inserted; f_equal; unfold missing in Hmiss;
      rewrite ?market_read by set_solver;
      use_missing Hmiss; reflexivity.
Qed.

Lemma normalizeToken_empty_name t' :
  normalizeToken ∅ = Some t' → t' !! "name" = Some (JStr "Unknown").
Proof.
  unfold normalizeToken. simpl. intros [= <-]. read_inserted. reflexivity.
Qed.

(** C4, the claim as written fails: for the empty record, in which every
    field is missing, the name of the result is neither zero nor empty
    (and so are the symbol and the chain id). *)
Lemma normalizeToken_defaults_not_all_empty :
  ¬ (∀ t t' k, normalizeToken t = Some t' →
       k ∈ contract_fields → missing t k →
       ∃ v, t' !! k = Some v ∧ zero_or_empty v).
Proof.
  intros H.
  assert (Hm : missing ∅ "name").
  { intros p Hp. change (read_from "name") with [["name"]] in Hp.
    apply elem_of_cons in Hp as [->|Hp]; [reflexivity|].
    apply elem_of_nil in Hp; contradiction. }
  destruct (normalizeToken_total ∅) as [t' Ht'].
  destruct (H ∅ t' "name" Ht') as (v & Hv & Hz).
  - set_solver.
  - exact Hm.
  - rewrite (normalizeToken_empty_name _ Ht') in Hv.
    injection Hv as <-. destruct Hz as [Hz|Hz]; discriminate Hz.
Qed.

(** C10. The normalized record has every key of the input, and every key
    that is not a canonical output field keeps its value. *)
Theorem normalizeToken_frame t :
  ∃ t', normalizeToken t = Some t'
    ∧ (∀ k, is_Some (t !! k) → is_Some (t' !! k))
    ∧ (∀ k, k ∉ canonical_fields → t' !! k = t !! k).
Proof.
  destruct (normalizeToken_total t) as [t' Ht']. exists t'.
  split; [exact Ht'|].
  unfold normalizeToken in Ht'.
  rewrite !(prop_truthy _ _ (market_truthy t)) in Ht'. simpl in Ht'.
  injection Ht' as <-.
  assert (Hframe : ∀ k, k ∉ canonical_fields →
    (<["platform" := jor (opt_prop (field t "social_context") "platform") (JStr "")]> (
     <["chainId" := jor (field t "chain_id") (num 8453)]> (
     <["volume24h" := jor (own (jor (opt_prop (field t "related") "market") (JObj ∅)) "volume24h") (num 0)]> (
     <["priceChange24h" := jor (own (jor (opt_prop (field t "related") "market") (JObj ∅)) "priceChange24h") (num 0)]> (
     <["price" := jor (jor (own (jor (opt_prop (field t "related") "market") (JObj ∅)) "price") (field t "price")) (num 0)]> (
     <["marketCap" := jor (jor (own (jor (opt_prop (field t "related") "market") (JObj ∅)) "marketCap") (field t "market_cap")) (num 0)]> (
     <["imgUrl" := jor (jor (field t "img_url") (field t "image")) (JStr "")]> (
     <["deployerWallet" := jor (jor (jor (field t "msg_sender") (field t "deployer")) (field t "deployerWallet")) (JStr "")]> (
     <["deployDate" := jor (jor (jor (field t "deployed_at") (field t "created_at")) (field t "deployDate")) (JStr "")]> (
     <["symbol" := jor (field t "symbol") (JStr "?")]> (
     <["name" := jor (field t "name") (JStr "Unknown")]> (
     <["address" := jor (jor (field t "contract_address") (field t "address")) (JStr "")]>
     t)))))))))))) !! k = t !! k).
  { intros k Hk. unfold canonical_fields in Hk.
    repeat (rewrite lookup_insert_ne; [|intros <-; apply Hk; set_solver]).
    reflexivity. }
  split.
  - intros k Hk.
    destruct (decide (k ∈ canonical_fields)) as [Hin|Hout].
    + unfold canonical_fields in Hin.
      repeat (apply elem_of_cons in Hin as [->|Hin]);
        [..|apply elem_of_nil in Hin; contradiction];
        read_inserted; eexists; reflexivity.
    + rewrite Hframe by assumption. exact Hk.
  - exact Hframe.
Qed.

Example normalize_empty_record :
  normalizeToken ∅
  = Some (<["address" := JStr ""]> (<["name" := JStr "Unknown"]> (
          <["symbol" := JStr "?"]> (<["deployDate" := JStr ""]> (
          <["deployerWallet" := JStr ""]> (<["imgUrl" := JStr ""]> (
          <["marketCap" := num 0]> (<["price" := num 0]> (
          <["priceChange24h" := num 0]> (<["volume24h" := num 0]> (
          <["chainId" := num 8453]> (<["platform" := JStr ""]> ∅)))))))))))).
Proof. vm_compute. reflexivity. Qed.

End Normalization.

(** ** Deployment dispatch *)

Section Dispatch.

Implicit Types (sv : Server) (sdk : Sdk) (p : DeployParams).

Lemma truthy_the f : Deploy.truthy f = true → f = Some (the f) ∧ nonempty (the f) = true.
Proof. destruct f as [s|]; simpl; [auto | discriminate]. Qed.

(** C6. [deployTokenViaSDK] always returns a result (it does not throw),
    calls the SDK at most once, and the result is a failure exactly when
    the server wallet is not configured, or one of name, symbol and wallet
    is absent, or the SDK call errors; otherwise it is a success carrying
    the transaction hash the SDK returned. *)
Theorem deployTokenViaSDK_failures sv sdk p :
  let (effects, result) := deployTokenViaSDK sv sdk p in
  (is_failure result ↔
     getViemClients sv = None
     ∨ Deploy.truthy (name p) = false
     ∨ Deploy.truthy (symbol p) = false
     ∨ Deploy.truthy (wallet p) = false
     ∨ sdk_errors (sdk (request_of sv p)))
  ∧ (¬ is_failure result →
       ∃ txHash conf, sdk (request_of sv p) = SdkOk txHash conf
                      ∧ result = Success txHash)
  ∧ (List.length (deploy_calls effects) <= 1)%nat.
Proof.
  unfold deployTokenViaSDK, request_of.
  destruct (getViemClients sv) as [c|]; simpl.
  2:{ split; [tauto|]. split; [tauto|lia]. }
  destruct (Deploy.truthy (name p)); simpl.
  2:{ split; [tauto|]. split; [tauto|lia]. }
  destruct (Deploy.truthy (symbol p)); simpl.
  2:{ split; [tauto|]. split; [tauto|lia]. }
  destruct (Deploy.truthy (wallet p)); simpl.
  2:{ split; [tauto|]. split; [tauto|lia]. }
  destruct (sdk _) as [msg|e|tx conf] eqn:Hsdk; simpl.
  - split; [tauto|]. split; [tauto|lia].
  - split; [tauto|]. split; [tauto|lia].
  - split; [|split; [|lia]].
    + split; [tauto|]. intros [H|[H|[H|[H|H]]]]; try discriminate; exact H.
    + intros _. exists tx, conf. split; reflexivity.
Qed.

(** C5 (as the code has it). With the server wallet configured and name,
    symbol and wallet present, [deployTokenViaSDK] calls the SDK deploy
    once, with a recipient list of exactly two entries: 9000 basis points
    to the supplied wallet and 1000 to the agent wallet; when the SDK
    returns a transaction hash, the confirmation wait is started and the
    hash is returned whatever becomes of the confirmation. *)
Theorem deployTokenViaSDK_fee_split sv sdk p clients :
  getViemClients sv = Some clients →
  complete p →
  ∃ rq w,
    wallet p = Some w
    ∧ deploy_calls (fst (deployTokenViaSDK sv sdk p)) = [rq]
    ∧ recipients rq =
        [ mkRecipient w w 9000 Both;
          mkRecipient (AGENT_WALLET_ADDRESS sv) (AGENT_WALLET_ADDRESS sv)
            1000 Both ]
    ∧ (∀ txHash conf, sdk rq = SdkOk txHash conf →
         deployTokenViaSDK sv sdk p
         = ([CallDeploy rq; CallWaitForTransaction], Success txHash))
    ∧ (∀ sdk', (∀ r, same_but_confirmation (sdk r) (sdk' r)) →
         deployTokenViaSDK sv sdk' p = deployTokenViaSDK sv sdk p).
Proof.
  intros Hc (Hn & Hs & Hw).
  destruct (truthy_the _ Hw) as [Hw' _].
  exists (request_of sv p), (the (wallet p)).
  unfold deployTokenViaSDK. rewrite Hc, Hn, Hs, Hw. simpl.
  fold (request_of sv p).
  split; [exact Hw'|].
  split; [destruct (sdk (request_of sv p)); reflexivity|].
  split; [reflexivity|].
  split.
  - intros tx conf ->. reflexivity.
  - intros sdk' Hsame. specialize (Hsame (request_of sv p)).
    destruct (sdk (request_of sv p)), (sdk' (request_of sv p));
      simpl in Hsame; try discriminate; try (injection Hsame as ->);
      try subst; reflexivity.
Qed.

Lemma deployTokenViaSDK_fee_split_witness :
  ∃ rq w,
    wallet sample_params = Some w
    ∧ deploy_calls (fst (deployTokenViaSDK sample_server sample_sdk sample_params))
      = [rq]
    ∧ recipients rq =
        [ mkRecipient w w 9000 Both;
          mkRecipient (AGENT_WALLET_ADDRESS sample_server)
            (AGENT_WALLET_ADDRESS sample_server) 1000 Both ]
    ∧ (∀ txHash conf, sample_sdk rq = SdkOk txHash conf →
         deployTokenViaSDK sample_server sample_sdk sample_params
         = ([CallDeploy rq; CallWaitForTransaction], Success txHash))
    ∧ (∀ sdk', (∀ r, same_but_confirmation (sample_sdk r) (sdk' r)) →
         deployTokenViaSDK sample_server sdk' sample_params
         = deployTokenViaSDK sample_server sample_sdk sample_params).
Proof.
  apply (deployTokenViaSDK_fee_split sample_server sample_sdk sample_params
           (mkClients sample_agent)).
  - reflexivity.
  - repeat split; reflexivity.
Defined.

(** C5, the claim as written fails: with complete parameters but no
    signing key configured, the SDK is not called at all. *)
Lemma deploy_without_key_calls_no_sdk :
  complete sample_params
  ∧ deployTokenViaSDK unconfigured_server sample_sdk sample_params
    = ([], Failure (of_string
             "Server wallet not configured. Add CONWAY_WALLET_PRIVATE_KEY.")).
Proof. split; [repeat split|]; reflexivity. Qed.

End Dispatch.

(** ** The inference relay *)

Import Inference.

Section Relay.

Implicit Types (w : World) (tr : list Event) (s : Stream).

Lemma requests_app tr1 tr2 :
  requests (tr1 ++ tr2) = requests tr1 ++ requests tr2.
Proof.
  induction tr1 as [|e tr1 IH]; [reflexivity|].
  destruct e; simpl; rewrite IH; reflexivity.
Qed.

Lemma quiet_ret {A} (a : A) : quiet (ret a).
Proof. constructor. Qed.

Lemma quiet_throw {A} msg : quiet (@throw A msg).
Proof. constructor. Qed.

Lemma quiet_bind {A B} (m : M A) (k : A → M B) :
  quiet m → (∀ a, quiet (k a)) → quiet (bind m k).
Proof.
  unfold quiet, bind. destruct m as [tr [a|msg]]; simpl; intros Hm Hk; [|exact Hm].
  specialize (Hk a). destruct (k a) as [tr' r]; simpl in *.
  apply Forall_app; split; assumption.
Qed.

Lemma quiet_try_catch {A} (m : M A) (h : str → M A) :
  quiet m → (∀ msg, quiet (h msg)) → quiet (try_catch m h).
Proof.
  unfold quiet, try_catch. destruct m as [tr [a|msg]]; simpl; intros Hm Hh; [exact Hm|].
  specialize (Hh msg). destruct (h msg) as [tr' r]; simpl in *.
  apply Forall_app; split; assumption.
Qed.

Lemma quiet_lift {A} w (o : option A) : quiet (lift w o).
Proof. destruct o; constructor. Qed.

Lemma quiet_sse_line w line : quiet (sse_line w line).
Proof.
  unfold sse_line.
  destruct (negb _); [apply quiet_ret|].
  destruct (String.eqb _ _); [apply quiet_ret|].
  apply quiet_try_catch; [|intros; apply quiet_ret].
  apply quiet_bind; [apply quiet_lift|]. intros parsed.
  apply quiet_bind; [apply quiet_lift|]. intros choices.
  destruct (Js.truthy _); [|apply quiet_ret].
  constructor; [eexists; reflexivity|constructor].
Qed.

Lemma quiet_sse_lines w ls : quiet (sse_lines w ls).
Proof.
  induction ls as [|l ls IH]; [apply quiet_ret|].
  simpl. apply quiet_bind; [apply quiet_sse_line|]. intros _. exact IH.
Qed.

Lemma quiet_sse_chunks w cs : ∀ buf, quiet (sse_chunks w buf cs).
Proof.
  induction cs as [|c cs IH]; intros buf; [apply quiet_ret|].
  simpl. apply quiet_bind; [apply quiet_sse_lines|]. intros _. apply IH.
Qed.

Lemma quiet_readSseStream w s : quiet (readSseStream w s).
Proof.
  unfold readSseStream. apply quiet_bind; [apply quiet_sse_chunks|].
  intros _. unfold stream_end. destruct (broken s); constructor.
Qed.

Lemma quiet_requests tr :
  Forall (fun e => ∃ d, e = OnChunk d) tr → requests tr = [].
Proof.
  induction 1 as [|e tr [d ->] _ IH]; [reflexivity|exact IH].
Qed.

Lemma readBody_trace s : fst (readBody s) = [].
Proof. unfold readBody, stream_end. destruct (broken s); reflexivity. Qed.

Lemma readSseStream_requests w s tr r :
  readSseStream w s = (tr, r) → requests tr = [].
Proof.
  intros H. apply quiet_requests.
  pose proof (quiet_readSseStream w s) as Hq. unfold quiet in Hq.
  rewrite H in Hq. exact Hq.
Qed.

Lemma readBody_cases s :
  readBody s = ([], Resolved (concat (chunks s)))
  ∨ ∃ msg, readBody s = ([], Rejected msg).
Proof.
  unfold readBody, stream_end. destruct (broken s); simpl; eauto.
Qed.

(** After a 402 answer: nothing more is sent, or exactly the paid request
    is, with the credential the signer returned; and an answer to it other
    than 200 ends in a rejection or in one [onError]. *)
Lemma pay_and_retry_requests w clients msgs body402 :
  let m := pay_and_retry w clients msgs body402 in
  requests (fst m) = []
  ∨ ∃ version req header,
      x402CreatePaymentHeader w clients version req = Resolved header
      ∧ requests (fst m) = [paid_request msgs header]
      ∧ (∀ r2, httpsPostStream w [first_request msgs] (paid_request msgs header)
                = Resolved r2 →
           status r2 ≠ 200%Z →
           (∃ e, m = ([Send (paid_request msgs header); OnError e], Resolved tt))
           ∨ (∃ msg, m = ([Send (paid_request msgs header)], Rejected msg))).
Proof.
  unfold pay_and_retry.
  destruct (JSON_parse w body402) as [pr|]; [|left; reflexivity].
  destruct (negb _); [left; reflexivity|].
  destruct (prop pr "accepts") as [accepts|]; [|left; reflexivity].
  cbn [lift bind ret fst snd app].
  destruct (prop accepts "0") as [accept0|]; [|left; reflexivity].
  cbn [lift bind ret fst snd app].
  destruct (prop pr "x402Version") as [version|]; [|left; reflexivity].
  cbn [lift bind ret fst snd app].
  unfold normalizePaymentRequirements.
  destruct (prop accept0 "network") as [n|]; [|left; reflexivity].
  cbn [lift bind ret fst snd app].
  match goal with
  | |- context [x402CreatePaymentHeader w clients version ?r] => set (req := r)
  end.
  destruct (x402CreatePaymentHeader w clients version req) as [header|msg] eqn:Hsign;
    [|left; reflexivity].
  right. exists version, req, header. split; [exact Hsign|].
  unfold send. cbn [emit await bind fst snd app].
  destruct (httpsPostStream w [first_request msgs] (paid_request msgs header))
    as [r2|msg] eqn:Hpost.
  - destruct (status r2 =? 200)%Z eqn:H200.
    + destruct (readSseStream w (stream r2)) as [tr2 [[]|msg2]] eqn:Hread.
      * cbn. rewrite requests_app, (readSseStream_requests _ _ _ _ Hread).
        split; [reflexivity|].
        intros r2' [= <-] Hne. apply Z.eqb_eq in H200. contradiction.
      * cbn. rewrite (readSseStream_requests _ _ _ _ Hread).
        split; [reflexivity|].
        intros r2' [= <-] Hne. apply Z.eqb_eq in H200. contradiction.
    + destruct (readBody_cases (stream r2)) as [Hb|[msg Hb]]; rewrite Hb; cbn.
      * split; [reflexivity|]. intros _ _ _. left. eexists. reflexivity.
      * split; [reflexivity|]. intros _ _ _. right. eexists. reflexivity.
  - cbn. split; [reflexivity|]. intros r2 [=].
Qed.

(** C3. In one chat turn [callConwayAI] sends at most two requests to the
    inference endpoint.  The first carries no payment credential.  A second
    one is sent only when the first answer has status 402; it is the one
    resend, with the same body and with the credential the signer returned
    in its X-PAYMENT header.  When the answer to the resend is not 200 the
    turn ends there: nothing more is sent and [onError] is called. *)
Theorem callConwayAI_single_resend w msgs :
  let tr := callConwayAI w msgs in
  let rq1 := first_request msgs in
  (List.length (requests tr) <= 2)%nat
  ∧ has_header "X-PAYMENT" rq1 = false
  ∧ (requests tr = []
     ∨ requests tr = [rq1]
     ∨ ∃ clients r1 version req header,
         getViemClients (server w) = Some clients
         ∧ httpsPostStream w [] rq1 = Resolved r1
         ∧ status r1 = 402%Z
         ∧ x402CreatePaymentHeader w clients version req = Resolved header
         ∧ requests tr = [rq1; paid_request msgs header]
         ∧ rq_body (paid_request msgs header) = rq_body rq1
         ∧ has_header "X-PAYMENT" (paid_request msgs header) = true
         ∧ (∀ r2, httpsPostStream w [rq1] (paid_request msgs header) = Resolved r2 →
              status r2 ≠ 200%Z →
              ∃ e, tr = [Send rq1; Send (paid_request msgs header); OnError e])).
Proof.
  cbv zeta.
  assert (Hcases :
    requests (callConwayAI w msgs) = []
    ∨ requests (callConwayAI w msgs) = [first_request msgs]
    ∨ ∃ clients r1 version req header,
        getViemClients (server w) = Some clients
        ∧ httpsPostStream w [] (first_request msgs) = Resolved r1
        ∧ status r1 = 402%Z
        ∧ x402CreatePaymentHeader w clients version req = Resolved header
        ∧ requests (callConwayAI w msgs)
          = [first_request msgs; paid_request msgs header]
        ∧ rq_body (paid_request msgs header) = rq_body (first_request msgs)
        ∧ has_header "X-PAYMENT" (paid_request msgs header) = true
        ∧ (∀ r2, httpsPostStream w [first_request msgs] (paid_request msgs header)
                  = Resolved r2 →
             status r2 ≠ 200%Z →
             ∃ e, callConwayAI w msgs
                  = [Send (first_request msgs); Send (paid_request msgs header);
                     OnError e])).
  { unfold callConwayAI.
    destruct (getViemClients (server w)) as [clients|] eqn:Hcl; [|left; reflexivity].
    unfold send. cbn [emit await bind fst snd app].
    destruct (httpsPostStream w [] (first_request msgs)) as [r1|msg] eqn:Hpost;
      [|right; left; reflexivity].
    destruct (status r1 =? 200)%Z eqn:H200.
    { right; left.
      destruct (readSseStream w (stream r1)) as [tr1 [[]|msg1]] eqn:Hread; cbn;
        rewrite ?requests_app, (readSseStream_requests _ _ _ _ Hread); reflexivity. }
    destruct (status r1 =? 402)%Z eqn:H402; cbn [negb].
    2:{ right; left.
        destruct (readBody_cases (stream r1)) as [Hb|[msg Hb]]; rewrite Hb;
          reflexivity. }
    apply Z.eqb_eq in H402.
    destruct (readBody_cases (stream r1)) as [Hb|[msg Hb]]; rewrite Hb;
      [|right; left; reflexivity].
    cbn [bind fst snd app].
    pose proof (pay_and_retry_requests w clients msgs (concat (chunks (stream r1))))
      as Hpay. cbv zeta in Hpay.
    destruct (pay_and_retry w clients msgs (concat (chunks (stream r1))))
      as [tr2 res2] eqn:Hm. cbn [fst] in Hpay.
    destruct Hpay as [Hnone|(version & req & header & Hsign & Hreq & Hterm)].
    - right; left. destruct res2 as [[]|msg2]; cbn;
        rewrite ?requests_app, Hnone; reflexivity.
    - right; right. exists clients, r1, version, req, header.
      split; [reflexivity|]. split; [reflexivity|]. split; [exact H402|].
      split; [exact Hsign|].
      split.
      { destruct res2 as [[]|msg2]; cbn; rewrite ?requests_app, Hreq; reflexivity. }
      split; [reflexivity|]. split; [reflexivity|].
      intros r2 Hr2 Hne.
      destruct (Hterm r2 Hr2 Hne) as [[e [= -> ->]]|[msg2 [= -> ->]]];
        cbn; eexists; reflexivity. }
  split; [|split; [reflexivity|exact Hcases]].
  destruct Hcases as [->|[->|(?&?&?&?&?&_&_&_&_&->&_)]]; simpl; lia.
Qed.

(** A turn that pays once and streams the answer, and a turn whose payment
    is refused: two requests each, and no third. *)
Example paid_turn :
  callConwayAI sample_world []
  = [ Send (first_request []); Send (paid_request [] (of_string "signed"));
      OnChunk (JStr "Hi"); OnDone ].
Proof. vm_compute. reflexivity. Qed.

Example refused_turn :
  callConwayAI unpaid_world []
  = [ Send (first_request []); Send (paid_request [] (of_string "signed"));
      OnError (PaymentRejected (JStr "HTTP 402")) ].
Proof. vm_compute. reflexivity. Qed.

End Relay.

(** ** The fallback knowledge base *)

Import Fallback.

Section KnowledgeBase.

Implicit Types (q message : str) (errCode : option str) (r : Rule).

Lemma first_match_split (rs : list Rule) q pre r post :
  rs = pre ++ r :: post →
  (∀ r', r' ∈ pre → applies r' q = false) →
  applies r q = true →
  first_match rs q = Some (respond r q).
Proof.
  intros -> Hpre Hr. induction pre as [|r0 pre IH]; simpl.
  - rewrite Hr. reflexivity.
  - rewrite (Hpre r0) by set_solver. apply IH.
    intros r' Hin. apply Hpre. set_solver.
Qed.

Lemma generateFallbackResponse_ordered message errCode :
  generateFallbackResponse message errCode = ordered_answer message errCode.
Proof.
  unfold generateFallbackResponse, ordered_answer, rules.
  cbv zeta. generalize (toLowerCase message) as q. intros q.
  cbn [first_match keywords address_rule applies respond].
  repeat (match goal with
          | |- context [has q ?ws] => destruct (has q ws); [reflexivity|]
          end).
  destruct (js_match true re_address q); [reflexivity|].
  repeat (match goal with
          | |- context [has q ?ws] => destruct (has q ws); [reflexivity|]
          end).
  reflexivity.
Qed.

(** C8. [generateFallbackResponse] is a total function of the question
    text and the error tag: equal inputs give the same answer; the answer
    is the one of the first rule, in the order of the source, whose
    keywords occur in the lower-cased question; and when no rule applies
    the answer is the generic menu. *)
Theorem generateFallbackResponse_first_match message errCode :
  (∀ message' errCode',
     message' = message → errCode' = errCode →
     generateFallbackResponse message' errCode'
     = generateFallbackResponse message errCode)
  ∧ generateFallbackResponse message errCode = ordered_answer message errCode
  ∧ (∀ pre r post,
       rules = pre ++ r :: post →
       (∀ r', r' ∈ pre → applies r' (toLowerCase message) = false) →
       applies r (toLowerCase message) = true →
       generateFallbackResponse message errCode = respond r (toLowerCase message))
  ∧ ((∀ r, r ∈ rules → applies r (toLowerCase message) = false) →
       generateFallbackResponse message errCode = Menu (creditNote errCode)).
Proof.
  split; [intros ? ? -> ->; reflexivity|].
  split; [apply generateFallbackResponse_ordered|].
  split.
  - intros pre r post Hrules Hpre Hr.
    rewrite generateFallbackResponse_ordered. unfold ordered_answer.
    rewrite (first_match_split _ _ _ _ _ Hrules Hpre Hr). reflexivity.
  - intros Hnone. rewrite generateFallbackResponse_ordered. unfold ordered_answer.
    assert (H : ∀ rs, (∀ r, r ∈ rs → applies r (toLowerCase message) = false) →
                first_match rs (toLowerCase message) = None).
    { induction rs as [|r rs IH]; intros Hrs; [reflexivity|].
      simpl. rewrite (Hrs r) by set_solver. apply IH.
      intros r' Hin. apply Hrs. set_solver. }
    rewrite (H rules Hnone). reflexivity.
Qed.

(** The first scenario of the specification, and a question no rule knows. *)
Example scenario_defi :
  generateFallbackResponse (of_string "What is DeFi?")
    (Some (of_string "agent_wallet_missing")) = Canned DeFi.
Proof. vm_compute. reflexivity. Qed.

Example unknown_question :
  generateFallbackResponse (of_string "zzz") (Some (of_string "x402_no_accepts"))
  = Menu PaymentError.
Proof. vm_compute. reflexivity. Qed.

End KnowledgeBase.

(** ** Regular expressions *)

Section RegexRuns.

Implicit Types (x y z : mstate) (l t s : str) (b : option ascii)
  (cs : list (nat * str)) (p : ascii → bool) (f : matcher) (r : regex).

Lemma hd_is_cons y (tl : list mstate) : hd_is (y :: tl) y.
Proof. exists tl. reflexivity. Qed.

Lemma hd_is_app (l1 l2 : list mstate) y : hd_is l1 y → hd_is (l1 ++ l2) y.
Proof. intros [tl ->]. exists (tl ++ l2). reflexivity. Qed.

Lemma hd_is_flat_map f (l : list mstate) z y :
  hd_is l z → hd_is (f z) y → hd_is (flat_map f l) y.
Proof. intros [tl ->] Hy. simpl. apply hd_is_app. exact Hy. Qed.

Lemma flat_map_skip f (l : list mstate) z :
  f z = [] → flat_map f (z :: l) = flat_map f l.
Proof. intros H. simpl. rewrite H. reflexivity. Qed.

Lemma flat_map_of_map {A B C} (g : A → B) (f : B → list C) (l : list A) :
  flat_map f (map g l) = flat_map (fun a => f (g a)) l.
Proof. induction l as [|a l IH]; simpl; [reflexivity|]. rewrite IH. reflexivity. Qed.

Lemma hd_seq ic r1 r2 x z y :
  hd_is (run ic r1 x) z → hd_is (run ic r2 z) y → hd_is (run ic (Seq r1 r2) x) y.
Proof. intros H1 H2. simpl. eapply hd_is_flat_map; eassumption. Qed.

Lemma run_seq_nil ic r1 r2 x : run ic r1 x = [] → run ic (Seq r1 r2) x = [].
Proof. intros H. simpl. rewrite H. reflexivity. Qed.

Lemma consumed_app l t : consumed (l ++ t) t = l.
Proof.
  unfold consumed. rewrite length_app.
  replace (List.length l + List.length t - List.length t)%nat with (List.length l) by lia.
  rewrite firstn_app, Nat.sub_diag, firstn_all. simpl. apply app_nil_r.
Qed.

Lemma clear_caps_nil x : clear_caps [] x = x.
Proof.
  destruct x as [b s cs]. unfold clear_caps; simpl. f_equal.
  induction cs as [|c cs IH]; simpl; [reflexivity|]. rewrite IH. reflexivity.
Qed.

Lemma one_hit p b c s cs :
  p c = true → one p (MState b (c :: s) cs) = [MState (Some c) s cs].
Proof. intros H. unfold one; simpl. rewrite H. reflexivity. Qed.

Lemma one_miss p b c s cs : p c = false → one p (MState b (c :: s) cs) = [].
Proof. intros H. unfold one; simpl. rewrite H. reflexivity. Qed.

Lemma one_end p b cs : one p (MState b [] cs) = [].
Proof. reflexivity. Qed.

Lemma no_progress_false (bb : bool) (c : ascii) s :
  bb && Nat.eqb (List.length s) (List.length (c :: s)) = false.
Proof.
  apply andb_false_iff. right. apply Nat.eqb_neq. simpl. lia.
Qed.

(** A greedy loop over single characters takes as many as it can first. *)
Lemma greedy_head p l :
  ∀ fuel min max b t cs,
    forallb p l = true →
    stops_after p l t max →
    (min <= List.length l)%nat →
    (List.length l < fuel)%nat →
    hd_is (repeat_loop fuel (one p) [] min max true (MState b (l ++ t) cs))
          (MState (last_char l b) t cs).
Proof.
  induction l as [|c l IH]; intros fuel min max b t cs Hp Hstop Hmin Hfuel.
  - destruct fuel as [|fuel]; [simpl in Hfuel; lia|].
    simpl in Hmin. assert (min = 0)%nat as -> by lia.
    simpl. rewrite clear_caps_nil.
    destruct Hstop as [->|[Ht Hmax]]; [apply hd_is_cons|].
    destruct max as [[|n]|]; [apply hd_is_cons| |].
    + destruct t as [|c t]; [|rewrite (one_miss _ _ _ _ _ Ht)]; apply hd_is_cons.
    + destruct t as [|c t]; [|rewrite (one_miss _ _ _ _ _ Ht)]; apply hd_is_cons.
  - destruct fuel as [|fuel]; [simpl in Hfuel; lia|].
    simpl in Hp. apply andb_true_iff in Hp as [Hc Hp].
    simpl in Hmin, Hfuel.
    assert (Hmax : max ≠ Some 0%nat).
    { destruct Hstop as [->|[_ Hmax]]; [discriminate|].
      destruct max as [n|]; [|discriminate]. simpl in Hmax. intros [= ->]. lia. }
    assert (Hrec : hd_is (repeat_loop fuel (one p) [] (Nat.pred min) (dec_max max) true
                            (MState (Some c) (l ++ t) cs))
                         (MState (last_char (c :: l) b) t cs)).
    { simpl. apply IH; [exact Hp| |lia|lia].
      destruct Hstop as [->|[Ht Hm]]; [left; reflexivity|].
      right. split; [exact Ht|]. destruct max as [n|]; simpl in *; [lia|exact I]. }
    cbn [repeat_loop]. rewrite clear_caps_nil. cbn [app].
    rewrite (one_hit _ _ _ _ _ Hc). cbn [flat_map rest]. rewrite app_nil_r.
    rewrite no_progress_false.
    destruct max as [[|n]|]; [congruence| |];
      destruct (negb (Nat.eqb min 0)); try apply hd_is_app; exact Hrec.
Qed.

(** A lazy loop with no mandatory round left hands over the states after
    0, 1, 2, ... characters in turn; the first the continuation [k] accepts
    wins. *)
Lemma lazy_first0 p (k : matcher) y l :
  ∀ fuel b t cs,
    forallb p l = true →
    (List.length l < fuel)%nat →
    (∀ l1 c l2, l = l1 ++ c :: l2 →
       k (MState (last_char l1 b) (c :: l2 ++ t) cs) = []) →
    hd_is (k (MState (last_char l b) t cs)) y →
    hd_is (flat_map k (repeat_loop fuel (one p) [] 0 None false
                         (MState b (l ++ t) cs))) y.
Proof.
  induction l as [|c l IH]; intros fuel b t cs Hp Hfuel Hskip Hy.
  - destruct fuel as [|fuel]; [simpl in Hfuel; lia|].
    cbn [repeat_loop Nat.eqb negb app flat_map]. apply hd_is_app. exact Hy.
  - destruct fuel as [|fuel]; [simpl in Hfuel; lia|].
    simpl in Hp. apply andb_true_iff in Hp as [Hc Hp]. simpl in Hfuel.
    cbn [repeat_loop Nat.eqb negb app]. rewrite clear_caps_nil.
    rewrite (one_hit _ _ _ _ _ Hc). cbn [flat_map rest]. rewrite !app_nil_r.
    rewrite no_progress_false.
    pose proof (Hskip [] c l eq_refl) as H0.
    cbn [last_char fold_left] in H0. rewrite H0. cbn [app dec_max Nat.pred].
    apply IH; [exact Hp|lia| |exact Hy].
    intros l1 c' l2 ->. apply (Hskip (c :: l1) c' l2). reflexivity.
Qed.

(** The same for [r+?]: at least one character is taken. *)
Lemma lazy_first1 p (k : matcher) y c l :
  ∀ fuel b t cs,
    forallb p (c :: l) = true →
    (S (List.length l) < fuel)%nat →
    (∀ l1 c' l2, l = l1 ++ c' :: l2 →
       k (MState (last_char l1 (Some c)) (c' :: l2 ++ t) cs) = []) →
    hd_is (k (MState (last_char l (Some c)) t cs)) y →
    hd_is (flat_map k (repeat_loop fuel (one p) [] 1 None false
                         (MState b (c :: l ++ t) cs))) y.
Proof.
  intros fuel b t cs Hp Hfuel Hskip Hy.
  destruct fuel as [|fuel]; [lia|].
  simpl in Hp. apply andb_true_iff in Hp as [Hc Hp].
  cbn [repeat_loop Nat.eqb negb]. rewrite clear_caps_nil.
  rewrite (one_hit _ _ _ _ _ Hc). cbn [flat_map andb]. rewrite app_nil_r.
  cbn [dec_max Nat.pred].
  apply lazy_first0; [exact Hp|lia|exact Hskip|exact Hy].
Qed.

(** *** Searching *)

Lemma search_hit ic r b s y :
  hd_is (run ic r (MState b s [])) y →
  search ic r b s = Some (MatchResult (consumed s (rest y)) (caps y)).
Proof. intros [tl H]. destruct s; simpl; rewrite H; reflexivity. Qed.

Lemma search_miss ic r b c s :
  run ic r (MState b (c :: s) []) = [] →
  search ic r b (c :: s) = search ic r (Some c) s.
Proof. intros H. simpl. rewrite H. reflexivity. Qed.

(** Inside a word no position is at a word boundary: a pattern that starts
    with [\b] is not found there. *)
Lemma search_skip_word ic r l :
  ∀ c t,
    is_word c = true → forallb is_word l = true →
    search ic (Seq WordBoundary r) (Some c) (l ++ t)
    = search ic (Seq WordBoundary r) (last_char l (Some c)) t.
Proof.
  induction l as [|a l IH]; intros c t Hc Hl; [reflexivity|].
  simpl in Hl. apply andb_true_iff in Hl as [Ha Hl].
  cbn [app]. rewrite search_miss.
  - apply IH; assumption.
  - apply run_seq_nil. cbn [run word_before word_after prev rest].
    rewrite Hc, Ha. reflexivity.
Qed.

(** *** What a run can have consumed *)

Lemma one_in p x y :
  In y (one p x) → ∃ c, rest x = c :: rest y ∧ p c = true.
Proof.
  unfold one. destruct (rest x) as [|c s]; [intros []|].
  destruct (p c) eqn:Hc; [|intros []].
  intros [<-|[]]. exists c. split; [reflexivity|exact Hc].
Qed.

(** A loop of exactly [n] rounds over single characters consumes [n]
    characters. *)
Lemma repeat_exact_in p n :
  ∀ fuel x y,
    In y (repeat_loop fuel (one p) [] n (Some n) true x) →
    ∃ l, rest x = l ++ rest y ∧ List.length l = n.
Proof.
  induction n as [|n IH]; intros fuel x y Hy.
  - destruct fuel as [|fuel]; [destruct Hy|].
    simpl in Hy. destruct Hy as [<-|[]]. exists []. split; reflexivity.
  - destruct fuel as [|fuel]; [destruct Hy|].
    cbn [repeat_loop Nat.eqb negb andb dec_max Nat.pred] in Hy.
    rewrite clear_caps_nil in Hy.
    apply in_flat_map in Hy as (x1 & Hx1 & Hy).
    apply one_in in Hx1 as (c & Hc & _).
    apply IH in Hy as (l & Hl & Hlen).
    exists (c :: l). split; [rewrite Hc, Hl; reflexivity|simpl; lia].
Qed.

Lemma search_some ic r s :
  ∀ b m, search ic r b s = Some m →
         ∃ x y, In y (run ic r x) ∧ groups m = caps y.
Proof.
  induction s as [|c s IH]; intros b m; simpl.
  - destruct (run ic r (MState b [] [])) as [|y tl] eqn:Hrun; [discriminate|].
    intros [= <-]. exists (MState b [] []), y. rewrite Hrun. split; [left|]; reflexivity.
  - destruct (run ic r (MState b (c :: s) [])) as [|y tl] eqn:Hrun.
    + apply IH.
    + intros [= <-]. exists (MState b (c :: s) []), y. rewrite Hrun.
      split; [left|]; reflexivity.
Qed.

Lemma boundary_in x y : In y (run false WordBoundary x) → y = x.
Proof.
  cbn [run]. destruct (xorb _ _); [intros [<-|[]]; reflexivity|intros []].
Qed.

(** *** The fuel of a loop is never used up *)

Lemma repeat_loop_forward (m : matcher) ids greedy :
  forward m →
  ∀ fuel min max x y,
    In y (repeat_loop fuel m ids min max greedy x) →
    (List.length (rest y) <= List.length (rest x))%nat.
Proof.
  intros Hm. induction fuel as [|fuel IH]; intros min max x y Hy; [destruct Hy|].
  assert (Hagain :
    In y (flat_map (fun y0 =>
            if Nat.eqb min 0 && Nat.eqb (List.length (rest y0)) (List.length (rest x))
            then []
            else repeat_loop fuel m ids (Nat.pred min) (dec_max max) greedy y0)
          (m (clear_caps ids x))) →
    (List.length (rest y) <= List.length (rest x))%nat).
  { intros (y0 & Hy0 & Hin)%in_flat_map.
    apply Hm in Hy0. cbn [clear_caps rest] in Hy0.
    destruct (_ && _); [destruct Hin|].
    apply IH in Hin. lia. }
  cbn [repeat_loop] in Hy.
  destruct max as [[|n]|].
  - destruct Hy as [<-|[]]. lia.
  - destruct (negb (Nat.eqb min 0)); [auto|].
    destruct greedy.
    + apply in_app_or in Hy as [Hy|[<-|[]]]; [auto|lia].
    + destruct Hy as [<-|Hy]; [lia|auto].
  - destruct (negb (Nat.eqb min 0)); [auto|].
    destruct greedy.
    + apply in_app_or in Hy as [Hy|[<-|[]]]; [auto|lia].
    + destruct Hy as [<-|Hy]; [lia|auto].
Qed.

Lemma one_forward p : forward (one p).
Proof. intros x y (c & Hc & _)%one_in. rewrite Hc. simpl. lia. Qed.

Lemma run_forward ic r : forward (run ic r).
Proof.
  induction r as [| c | | items | items | r1 IH1 r2 IH2 | r1 IH1 r2 IH2
                 | r IH min max greedy | i r IH | r IH | r IH | |];
    cbn [run]; try apply one_forward.
  - intros x y [<-|[]]. lia.
  - intros x y (z & Hz & Hy)%in_flat_map.
    apply IH1 in Hz. apply IH2 in Hy. lia.
  - intros x y [Hy|Hy]%in_app_or; [apply IH1|apply IH2]; exact Hy.
  - intros x y Hy. eapply repeat_loop_forward; [exact IH|exact Hy].
  - intros x y (z & <- & Hz)%in_map_iff. apply IH in Hz. exact Hz.
  - intros x y. destruct (run ic r x); [intros []|intros [<-|[]]]. simpl. lia.
  - intros x y. destruct (run ic r x); [intros [<-|[]]; lia|intros []].
  - intros x y. destruct (xorb _ _); [intros [<-|[]]; lia|intros []].
  - intros x y Hy. assert (y = x) as ->; [|lia].
    destruct (rest x); [destruct Hy as [<-|[]]; reflexivity|destruct Hy].
Qed.

Lemma flat_map_ext_in {A B} (f g : A → list B) (l : list A) :
  (∀ a, In a l → f a = g a) → flat_map f l = flat_map g l.
Proof.
  induction l as [|a l IH]; intros H; [reflexivity|].
  simpl. rewrite (H a) by (left; reflexivity). rewrite IH; [reflexivity|].
  intros b Hb. apply H. right. exact Hb.
Qed.

(** With a matcher that never moves backwards, a loop started with more
    than [min + length (rest x)] rounds of fuel does the same with any
    larger amount: it never stops for want of fuel. *)
Lemma repeat_loop_fuel (m : matcher) ids greedy :
  forward m →
  ∀ fuel1 fuel2 min max x,
    (min + List.length (rest x) < fuel1)%nat →
    (min + List.length (rest x) < fuel2)%nat →
    repeat_loop fuel1 m ids min max greedy x = repeat_loop fuel2 m ids min max greedy x.
Proof.
  intros Hm. induction fuel1 as [|fuel1 IH]; intros fuel2 min max x H1 H2; [lia|].
  destruct fuel2 as [|fuel2]; [lia|].
  cbn [repeat_loop].
  assert (Hagain :
    flat_map (fun y =>
        if Nat.eqb min 0 && Nat.eqb (List.length (rest y)) (List.length (rest x))
        then []
        else repeat_loop fuel1 m ids (Nat.pred min) (dec_max max) greedy y)
      (m (clear_caps ids x))
    = flat_map (fun y =>
        if Nat.eqb min 0 && Nat.eqb (List.length (rest y)) (List.length (rest x))
        then []
        else repeat_loop fuel2 m ids (Nat.pred min) (dec_max max) greedy y)
      (m (clear_caps ids x))).
  { apply flat_map_ext_in. intros y Hy. apply Hm in Hy. cbn [clear_caps rest] in Hy.
    destruct (Nat.eqb min 0) eqn:Hmin; cbn [andb].
    - apply Nat.eqb_eq in Hmin. subst min.
      destruct (Nat.eqb _ _) eqn:Hlen; [reflexivity|].
      apply Nat.eqb_neq in Hlen. apply IH; simpl; lia.
    - apply Nat.eqb_neq in Hmin. apply IH; lia. }
  rewrite Hagain. reflexivity.
Qed.

(** The fuel [run] gives to a loop is enough. *)
Lemma run_repeat_fuel ic r min max greedy x extra :
  repeat_loop (min + List.length (rest x) + 1 + extra) (run ic r) (groups_of r)
    min max greedy x
  = run ic (Repeat r min max greedy) x.
Proof.
  cbn [run]. apply repeat_loop_fuel; [apply run_forward|lia|lia].
Qed.

End RegexRuns.

(** ** The deploy-intent parser *)

Section Parser.

Implicit Types (c : ascii) (foo bar w text t : str).

Ltac by_cases_on c :=
  destruct c as [[|] [|] [|] [|] [|] [|] [|] [|]];
  vm_compute; intros; try reflexivity; try discriminate; try congruence.

Lemma letter_alnum c : is_letter c = true → is_alnum c = true.
Proof. unfold is_alnum. intros ->. reflexivity. Qed.

Lemma alnum_word c : is_alnum c = true → is_word c = true.
Proof. unfold is_word. intros ->. reflexivity. Qed.

Lemma alnum_not_space c : is_alnum c = true → is_space c = false.
Proof. by_cases_on c. Qed.

Lemma alnum_not_separator c :
  is_alnum c = true →
  class_has true [CChar ":"; CSpace] c = false.
Proof. by_cases_on c. Qed.

Lemma alnum_in_name c :
  is_alnum c = true →
  negb (class_has true [CChar nl; CChar ","; CChar ";"] c) = true.
Proof. by_cases_on c. Qed.

Lemma letter_in_class c :
  is_letter c = true →
  class_has true [CRange "A" "Z"; CRange "a" "z"] c = true.
Proof. by_cases_on c. Qed.

Lemma letter_not_zero c : is_letter c = true → Ascii.eqb c "0" = false.
Proof. by_cases_on c. Qed.

Lemma hex_in_class c :
  is_hex c = true →
  class_has false [CRange "a" "f"; CRange "A" "F"; CRange "0" "9"] c = true.
Proof. by_cases_on c. Qed.

Lemma hex_word c : is_hex c = true → is_word c = true.
Proof. by_cases_on c. Qed.

Lemma explicit_message_keyword foo bar w :
  has_deploy_keyword (explicit_message foo bar w) = true.
Proof. reflexivity. Qed.

Lemma lookahead_after_alnum b c t cs :
  is_alnum c = true →
  run true name_lookahead (MState b (c :: t) cs) = [].
Proof.
  intros Hc. unfold name_lookahead. cbn [run Plus Space].
  replace (1 + List.length (rest (MState b (c :: t) cs)) + 1)%nat
    with (S (S (List.length t + 1))) by (simpl; lia).
  cbn [repeat_loop groups_of]. rewrite clear_caps_nil.
  rewrite one_miss; [reflexivity|].
  cbn. rewrite (alnum_not_space _ Hc). reflexivity.
Qed.

Lemma lookahead_at_symbol b t s :
  run true name_lookahead (MState b (of_string " Symbol: " ++ t) [(1%nat, s)])
  = [MState b (of_string " Symbol: " ++ t) [(1%nat, s)]].
Proof. vm_compute. reflexivity. Qed.

Lemma forallb_alnum_in_name foo :
  forallb is_alnum foo = true →
  forallb (fun a => negb (class_has true [CChar nl; CChar ","; CChar ";"] a)) foo = true.
Proof.
  induction foo as [|a foo IH]; [reflexivity|].
  simpl. intros [Ha Hfoo]%andb_true_iff.
  apply andb_true_iff. split; [apply (alnum_in_name _ Ha)|apply IH, Hfoo].
Qed.

Lemma name_of_explicit_message c foo bar w :
  is_letter c = true → forallb is_alnum foo = true →
  ∃ m, js_match true re_name1 (explicit_message (c :: foo) bar w) = Some m
       ∧ g1 m = c :: foo.
Proof.
  intros Hc Hfoo.
  unfold js_match, explicit_message.
  set (T := bar ++ of_string " Wallet: " ++ w).
  change (of_string "Deploy token Name: " ++ (c :: foo) ++ of_string " Symbol: " ++ T)
    with ("D" :: "e" :: "p" :: "l" :: "o" :: "y" :: " " :: "t" :: "o" :: "k"
          :: "e" :: "n" :: " " :: "N" :: "a" :: "m" :: "e" :: ":" :: " "
          :: c :: foo ++ of_string " Symbol: " ++ T)%char.
  do 13 (rewrite search_miss by reflexivity).
  eexists. split.
  - apply search_hit. unfold re_name1. cbn [Seqs].
    eapply hd_seq; [apply hd_is_cons|].
    eapply hd_seq; [apply hd_is_cons|].
    eapply hd_seq.
    { cbn [run Plus colon_or_space groups_of rest].
      change (":" :: " " :: c :: foo ++ of_string " Symbol: " ++ T)%char
        with ([":"; " "]%char ++ (c :: foo ++ of_string " Symbol: " ++ T)).
      apply greedy_head.
      - reflexivity.
      - right. split; [|exact I]. apply alnum_not_separator, letter_alnum, Hc.
      - simpl; lia.
      - simpl; lia. }
    cbn [last_char fold_left].
    change (run true (Seq (Group 1 (PlusLazy (NClass [CChar nl; CChar ","; CChar ";"]))) name_lookahead) ?x)
      with (flat_map (run true name_lookahead)
              (map (fun y => set_cap 1 (consumed (rest x) (rest y)) y)
                 (run true (PlusLazy (NClass [CChar nl; CChar ","; CChar ";"])) x))).
    cbn [caps rest prev]. rewrite flat_map_of_map.
    set (LA := run true name_lookahead).
    cbn [run PlusLazy groups_of rest].
    eapply lazy_first1.
    + cbn [forallb]. rewrite (alnum_in_name _ (letter_alnum _ Hc)).
      apply forallb_alnum_in_name, Hfoo.
    + cbn [List.length]. rewrite length_app. lia.
    + intros l1 c' l2 Hsplit. unfold LA, set_cap. cbn [prev rest caps].
      apply lookahead_after_alnum.
      rewrite Hsplit in Hfoo. rewrite forallb_app in Hfoo.
      apply andb_true_iff in Hfoo as [_ Hfoo]. simpl in Hfoo.
      apply andb_true_iff in Hfoo as [Hfoo _]. exact Hfoo.
    + unfold LA, set_cap. cbn [prev rest caps].
      rewrite lookahead_at_symbol. apply hd_is_cons.
  - cbn [caps]. unfold g1, group. cbn [groups get_cap List.find fst snd Nat.eqb].
    change (c :: foo ++ of_string " Symbol: " ++ T)
      with ((c :: foo) ++ of_string " Symbol: " ++ T).
    apply consumed_app.
Qed.

Lemma one_cons p b c s cs :
  one p (MState b (c :: s) cs) = if p c then [MState (Some c) s cs] else [].
Proof. reflexivity. Qed.

Lemma run_after_boundary ic r x :
  run ic r x = [] → run ic (Seq WordBoundary r) x = [].
Proof.
  intros H. cbn [run]. destruct (xorb _ _); simpl; [rewrite H|]; reflexivity.
Qed.

Lemma plus_class_miss ic items b c s cs :
  class_has ic items c = false →
  run ic (Plus (Class items)) (MState b (c :: s) cs) = [].
Proof.
  intros H. cbn [run Plus rest groups_of].
  replace (1 + List.length (c :: s) + 1)%nat with (S (S (List.length s + 1)))
    by (simpl; lia).
  cbn [repeat_loop]. rewrite clear_caps_nil, (one_miss _ _ _ _ _ H). reflexivity.
Qed.

(** One character of a literal: the test is decided when the character is
    known, and is a case distinction otherwise. *)
Ltac literal_step :=
  rewrite one_cons; cbv beta;
  match goal with
  | |- context [if ?cnd then _ else _] =>
      let E := fresh "E" in
      destruct cnd eqn:E; [try (vm_compute in E; discriminate E)|];
      cbn [flat_map app]
  end.

Lemma separator_needed r b c s cs :
  is_alnum c = true →
  run true (Seq (Plus colon_or_space) r) (MState b (c :: s) cs) = [].
Proof.
  intros Hc. apply run_seq_nil. apply plus_class_miss.
  apply alnum_not_separator, Hc.
Qed.

(** A token name is not mistaken for the keyword of the symbol pattern. *)
Lemma symbol_not_in_name c foo t :
  is_letter c = true → forallb is_alnum foo = true →
  eq_ci (c :: foo) "symbol" = false → eq_ci (c :: foo) "ticker" = false →
  run true re_symbol1
    (MState (Some " "%char) (c :: foo ++ of_string " Symbol: " ++ t) []) = [].
Proof.
  intros Hc Hfoo Hs Ht.
  apply run_after_boundary.
  unfold re_symbol1. cbn [Seqs]. set (R := Seq (Plus colon_or_space) _).
  destruct foo as [|a1 [|a2 [|a3 [|a4 [|a5 [|a6 foo]]]]]];
    cbn [eq_ci of_string list_ascii_of_string] in Hs, Ht;
    cbn [forallb] in Hfoo;
    repeat (apply andb_true_iff in Hfoo as [? Hfoo]);
    cbn [run Lit of_string list_ascii_of_string app canon];
    repeat literal_step; try reflexivity;
    try (cbn [andb] in Hs; discriminate Hs);
    try (cbn [andb] in Ht; discriminate Ht);
    unfold R; rewrite !separator_needed by assumption; reflexivity.
Qed.

Lemma hd_is_map (g : mstate → mstate) (l : list mstate) y :
  hd_is l y → hd_is (map g l) (g y).
Proof. intros [tl ->]. exists (map g tl). reflexivity. Qed.

Lemma forallb_impl {A} (p q : A → bool) (l : list A) :
  (∀ a, p a = true → q a = true) → forallb p l = true → forallb q l = true.
Proof.
  intros Hpq. induction l as [|a l IH]; [reflexivity|].
  simpl. intros [Ha Hl]%andb_true_iff. rewrite (Hpq _ Ha). apply IH, Hl.
Qed.

Lemma symbol_of_explicit_message c foo bar w :
  token_name (c :: foo) = true → ticker_symbol bar = true →
  ∃ m, js_match true re_symbol1 (explicit_message (c :: foo) bar w) = Some m
       ∧ g1 m = bar.
Proof.
  unfold token_name, ticker_symbol.
  intros [[[Hc Hfoo]%andb_true_iff Hs%negb_true_iff]%andb_true_iff
            Ht%negb_true_iff]%andb_true_iff
         [[Hbar Hmin%Nat.leb_le]%andb_true_iff Hmax%Nat.leb_le]%andb_true_iff.
  destruct bar as [|b0 bar]; [simpl in Hmin; lia|].
  pose proof Hbar as Hbar'. cbn [forallb] in Hbar'.
  apply andb_true_iff in Hbar' as [Hb0 _].
  unfold js_match, explicit_message.
  set (T := of_string " Wallet: " ++ w).
  change (of_string "Deploy token Name: " ++ (c :: foo) ++ of_string " Symbol: "
          ++ (b0 :: bar) ++ T)
    with ("D" :: "e" :: "p" :: "l" :: "o" :: "y" :: " " :: "t" :: "o" :: "k"
          :: "e" :: "n" :: " " :: "N" :: "a" :: "m" :: "e" :: ":" :: " "
          :: c :: foo ++ of_string " Symbol: " ++ (b0 :: bar) ++ T)%char.
  do 19 (rewrite search_miss by reflexivity).
  rewrite search_miss by (apply symbol_not_in_name; assumption).
  unfold re_symbol1 at 1. cbn [Seqs].
  rewrite search_skip_word;
    [|apply alnum_word, letter_alnum, Hc
     |apply (forallb_impl _ _ _ alnum_word), Hfoo].
  fold re_symbol1.
  change (of_string " Symbol: " ++ (b0 :: bar) ++ T)
    with (" " :: "S" :: "y" :: "m" :: "b" :: "o" :: "l" :: ":" :: " "
          :: (b0 :: bar) ++ T)%char.
  rewrite search_miss by (apply run_after_boundary; reflexivity).
  eexists. split.
  - apply search_hit. unfold re_symbol1. cbn [Seqs].
    eapply hd_seq; [apply hd_is_cons|].
    eapply hd_seq; [apply hd_is_cons|].
    eapply hd_seq.
    { cbn [run Plus colon_or_space groups_of rest].
      change (":" :: " " :: (b0 :: bar) ++ T)%char
        with ([":"; " "]%char ++ ((b0 :: bar) ++ T)).
      apply greedy_head.
      - reflexivity.
      - right. split; [|exact I]. apply alnum_not_separator, letter_alnum, Hb0.
      - simpl; lia.
      - simpl; lia. }
    cbn [last_char fold_left run rest letter groups_of].
    apply hd_is_map. apply greedy_head.
    + apply (forallb_impl _ _ _ letter_in_class), Hbar.
    + right. split; [reflexivity|exact Hmax].
    + exact Hmin.
    + rewrite length_app. lia.
  - cbn [caps set_cap]. unfold g1, group.
    cbn [groups get_cap List.find fst snd Nat.eqb rest].
    apply consumed_app.
Qed.

(** An address starts with the digit 0. *)
Lemma wallet_needs_zero b c s cs :
  Ascii.eqb c "0" = false → run false re_wallet (MState b (c :: s) cs) = [].
Proof.
  intros Hc. apply run_after_boundary.
  cbn [run Seqs canon]. rewrite one_cons.
  cbv beta. rewrite Hc. reflexivity.
Qed.

Lemma last_char_word l :
  ∀ c, is_word c = true → forallb is_word l = true →
       ∃ d, last_char l (Some c) = Some d ∧ is_word d = true.
Proof.
  induction l as [|a l IH]; intros c Hc Hl; [exists c; split; [reflexivity|exact Hc]|].
  simpl in Hl. apply andb_true_iff in Hl as [Ha Hl].
  cbn [last_char fold_left]. apply (IH a Ha Hl).
Qed.

Lemma wallet_of_explicit_message c foo bar h :
  is_letter c = true → forallb is_alnum foo = true →
  forallb is_letter bar = true → bar ≠ [] →
  forallb is_hex h = true → List.length h = 40%nat →
  ∃ m, js_match false re_wallet
         (explicit_message (c :: foo) bar ("0" :: "x" :: h)%char) = Some m
       ∧ g1 m = ("0" :: "x" :: h)%char.
Proof.
  intros Hc Hfoo Hbar Hne Hh Hlen.
  destruct bar as [|b0 bar]; [contradiction|]. clear Hne.
  cbn [forallb] in Hbar. apply andb_true_iff in Hbar as [Hb0 Hbar].
  unfold js_match, explicit_message.
  change (of_string "Deploy token Name: " ++ (c :: foo) ++ of_string " Symbol: "
          ++ (b0 :: bar) ++ of_string " Wallet: " ++ ("0" :: "x" :: h)%char)
    with ("D" :: "e" :: "p" :: "l" :: "o" :: "y" :: " " :: "t" :: "o" :: "k"
          :: "e" :: "n" :: " " :: "N" :: "a" :: "m" :: "e" :: ":" :: " "
          :: c :: foo ++
          (" " :: "S" :: "y" :: "m" :: "b" :: "o" :: "l" :: ":" :: " "
           :: b0 :: bar ++
           (" " :: "W" :: "a" :: "l" :: "l" :: "e" :: "t" :: ":" :: " "
            :: "0" :: "x" :: h)))%char.
  do 19 (rewrite search_miss by (apply wallet_needs_zero; reflexivity)).
  rewrite search_miss by (apply wallet_needs_zero, letter_not_zero, Hc).
  unfold re_wallet. cbn [Seqs].
  rewrite search_skip_word;
    [|apply alnum_word, letter_alnum, Hc
     |apply (forallb_impl _ _ _ alnum_word), Hfoo].
  fold re_wallet.
  do 9 (rewrite search_miss by (apply wallet_needs_zero; reflexivity)).
  rewrite search_miss by (apply wallet_needs_zero, letter_not_zero, Hb0).
  unfold re_wallet. cbn [Seqs].
  rewrite search_skip_word;
    [|apply alnum_word, letter_alnum, Hb0
     |apply (forallb_impl _ _ _ (fun a H => alnum_word a (letter_alnum a H))), Hbar].
  fold re_wallet.
  do 9 (rewrite search_miss by (apply wallet_needs_zero; reflexivity)).
  destruct (last_char_word h "x" eq_refl (forallb_impl _ _ _ hex_word Hh))
    as (d & Hd & Hword).
  eexists. split.
  - apply search_hit. unfold re_wallet. cbn [Seqs].
    eapply hd_seq; [apply hd_is_cons|].
    eapply hd_seq.
    { cbn [run]. apply hd_is_map.
      eapply hd_is_flat_map; [apply hd_is_cons|].
      eapply hd_is_flat_map; [apply hd_is_cons|].
      cbn [rest groups_of]. rewrite <- (app_nil_r h) at 2.
      apply greedy_head.
      - apply (forallb_impl _ _ _ hex_in_class), Hh.
      - left. rewrite Hlen. reflexivity.
      - lia.
      - lia. }
    cbn [run word_before word_after set_cap prev rest last_char fold_left].
    fold (last_char h (Some "x"%char)). rewrite Hd.
    cbn [word_before set_cap prev rest caps]. rewrite Hword. apply hd_is_cons.
  - cbn [caps set_cap]. unfold g1, group.
    cbn [groups get_cap List.find fst snd Nat.eqb rest].
    rewrite <- (app_nil_r ("0" :: "x" :: h)%char) at 1.
    apply consumed_app.
Qed.

(** *** Trimming a word *)

Lemma trimStart_word s :
  forallb (fun a => negb (is_space a)) s = true → trimStart s = s.
Proof.
  destruct s as [|a s]; [reflexivity|].
  simpl. intros [Ha _]%andb_true_iff. apply negb_true_iff in Ha.
  rewrite Ha. reflexivity.
Qed.

Lemma trim_word s :
  forallb (fun a => negb (is_space a)) s = true → trim s = s.
Proof.
  intros Hs. unfold trim. rewrite (trimStart_word _ Hs).
  rewrite trimStart_word; [apply rev_involutive|].
  apply forallb_forall. intros a Ha%in_rev.
  exact (proj1 (forallb_forall _ _) Hs a Ha).
Qed.

Lemma collapse_word s :
  forallb (fun a => negb (is_space a)) s = true → collapse_ws s = s.
Proof.
  unfold collapse_ws. induction s as [|a s IH]; [reflexivity|].
  simpl. intros [Ha Hs]%andb_true_iff. apply negb_true_iff in Ha.
  rewrite Ha, (IH Hs). reflexivity.
Qed.

Lemma alnum_no_space s :
  forallb is_alnum s = true → forallb (fun a => negb (is_space a)) s = true.
Proof.
  apply forallb_impl. intros a Ha. rewrite (alnum_not_space _ Ha). reflexivity.
Qed.

Lemma wallet_address_inv w :
  wallet_address w = true →
  ∃ h, w = ("0" :: "x" :: h)%char ∧ forallb is_hex h = true
       ∧ List.length h = 40%nat.
Proof.
  destruct w as [|w0 w]; [discriminate|].
  destruct w0 as [[|] [|] [|] [|] [|] [|] [|] [|]]; try discriminate.
  destruct w as [|w1 h]; [discriminate|].
  destruct w1 as [[|] [|] [|] [|] [|] [|] [|] [|]]; try discriminate.
  unfold wallet_address. intros [Hh Hlen%Nat.eqb_eq]%andb_true_iff.
  exists h. auto.
Qed.

(** A symbol written in capitals is returned as it is. *)
Lemma toUpperCase_capitals bar :
  forallb is_upper bar = true → toUpperCase bar = bar.
Proof.
  induction bar as [|a bar IH]; [reflexivity|].
  simpl. intros [Ha Hbar]%andb_true_iff. rewrite (IH Hbar). f_equal.
  revert Ha. clear. by_cases_on a.
Qed.

(** C2 (as the code has it). For a message of the form
    "Deploy token Name: Foo Symbol: BAR Wallet: 0x<40 hex>", where Foo is a
    one-word token name (a letter, then letters and digits, other than the
    words symbol and ticker), BAR is two to ten letters and the wallet is
    0x and forty hexadecimal digits, [parseDeployMessage] returns a
    parameter set whose name is Foo, whose symbol is BAR in upper case and
    whose wallet is the given address. *)
Theorem parseDeployMessage_explicit foo bar w :
  token_name foo = true → ticker_symbol bar = true → wallet_address w = true →
  ∃ p, parseDeployMessage (explicit_message foo bar w) = Some p
       ∧ name p = Some foo
       ∧ symbol p = Some (toUpperCase bar)
       ∧ wallet p = Some w.
Proof.
  intros Hfoo Hbar Hw.
  destruct foo as [|c foo]; [discriminate Hfoo|].
  destruct (wallet_address_inv _ Hw) as (h & -> & Hh & Hlen).
  pose proof Hfoo as Hfoo'. pose proof Hbar as Hbar'.
  unfold token_name in Hfoo'. unfold ticker_symbol in Hbar'.
  apply andb_true_iff in Hfoo' as [[[Hc Hal]%andb_true_iff _]%andb_true_iff _].
  apply andb_true_iff in Hbar' as [[Hlet Hmin%Nat.leb_le]%andb_true_iff _].
  destruct (name_of_explicit_message c foo bar ("0" :: "x" :: h)%char Hc Hal)
    as (mn & Hmn & Hgn).
  destruct (symbol_of_explicit_message c foo bar ("0" :: "x" :: h)%char Hfoo Hbar)
    as (ms & Hms & Hgs).
  destruct (wallet_of_explicit_message c foo bar h Hc Hal Hlet) as (mw & Hmw & Hgw);
    [intros ->; simpl in Hmin; lia|exact Hh|exact Hlen|].
  assert (Hword : forallb (fun a => negb (is_space a)) (c :: foo) = true).
  { apply alnum_no_space. simpl. rewrite (letter_alnum _ Hc). exact Hal. }
  assert (Hname : name (extract (explicit_message (c :: foo) bar ("0" :: "x" :: h)%char))
                  = Some (c :: foo)).
  { unfold extract. cbn [name]. rewrite Hmn. cbn [or_else option_map].
    rewrite Hgn, (trim_word _ Hword), (collapse_word _ Hword). reflexivity. }
  exists (extract (explicit_message (c :: foo) bar ("0" :: "x" :: h)%char)).
  split; [|split; [exact Hname|split]].
  - unfold parseDeployMessage. rewrite explicit_message_keyword. cbn [negb].
    rewrite Hname. reflexivity.
  - unfold extract. cbn [symbol]. rewrite Hms. cbn [or_else option_map].
    rewrite Hgs, trim_word; [reflexivity|].
    apply alnum_no_space. revert Hlet. apply forallb_impl, letter_alnum.
  - unfold extract. cbn [wallet]. rewrite Hmw. cbn [option_map].
    rewrite Hgw. reflexivity.
Qed.

Lemma parseDeployMessage_explicit_witness :
  ∃ p, parseDeployMessage
         (explicit_message (of_string "Foo") (of_string "FOO") address_1) = Some p
       ∧ name p = Some (of_string "Foo")
       ∧ symbol p = Some (toUpperCase (of_string "FOO"))
       ∧ wallet p = Some address_1.
Proof.
  apply (parseDeployMessage_explicit (of_string "Foo") (of_string "FOO") address_1);
    reflexivity.
Defined.

(** C2, the claim as written fails: a text can contain the pattern
    "Name: Foo Symbol: BAR Wallet: 0x<40 hex>" and be no deploy request at
    all, and an earlier word [ticker] takes the symbol from the words that
    follow it. *)
Lemma parseDeployMessage_pattern_is_not_enough :
  includes pattern_alone
    (of_string "Name: Foo Symbol: BAR Wallet: 0x1111111111111111111111111111111111111111")
    = true
  ∧ parseDeployMessage pattern_alone = None
  ∧ includes pattern_after_ticker
      (of_string "Name: Foo Symbol: BAR Wallet: 0x1111111111111111111111111111111111111111")
      = true
  ∧ option_map symbol (parseDeployMessage pattern_after_ticker)
    = Some (Some (of_string "TODAY")).
Proof. vm_compute. repeat split; reflexivity. Qed.

(** C7. [parseDeployMessage] returns null for every text without one of
    the keywords deploy, launch and create token (in any case), and for
    every text from which neither a name nor a symbol is extracted; so a
    parameter set it returns has a name or a symbol. *)
Theorem parseDeployMessage_null text :
  (includes (toLowerCase text) (of_string "deploy") = false →
   includes (toLowerCase text) (of_string "launch") = false →
   includes (toLowerCase text) (of_string "create token") = false →
   parseDeployMessage text = None)
  ∧ (Deploy.truthy (name (extract text)) = false →
     Deploy.truthy (symbol (extract text)) = false →
     parseDeployMessage text = None)
  ∧ (∀ p, parseDeployMessage text = Some p →
          Deploy.truthy (name p) = true ∨ Deploy.truthy (symbol p) = true).
Proof.
  unfold parseDeployMessage, has_deploy_keyword. cbv zeta.
  split; [|split].
  - intros -> -> ->. reflexivity.
  - intros -> ->. destruct (negb _); reflexivity.
  - intros p. destruct (negb _); [discriminate|].
    destruct (Deploy.truthy (name (extract text))) eqn:Hn.
    + intros [= <-]. left. exact Hn.
    + destruct (Deploy.truthy (symbol (extract text))) eqn:Hs; [|discriminate].
      intros [= <-]. right. exact Hs.
Qed.

(** *** What a wallet match captures *)

(** The wallet pattern captures [0x] and forty more characters. *)
Lemma wallet_capture text m :
  js_match false re_wallet text = Some m →
  startsWith (g1 m) (of_string "0x") = true ∧ List.length (g1 m) = 42%nat.
Proof.
  intros Hm. apply search_some in Hm as (x & y & Hy & Hg).
  unfold g1, group. rewrite Hg. clear Hg m.
  unfold re_wallet in Hy. cbn [Seqs] in Hy.
  change (run false (Seq WordBoundary ?r) x)
    with (flat_map (run false r) (run false WordBoundary x)) in Hy.
  apply in_flat_map in Hy as (x0 & ->%boundary_in & Hy).
  change (run false (Seq ?g WordBoundary) x)
    with (flat_map (run false WordBoundary) (run false g x)) in Hy.
  apply in_flat_map in Hy as (z & Hz & ->%boundary_in).
  change (run false (Group 1 ?r) x)
    with (map (fun y => set_cap 1 (consumed (rest x) (rest y)) y) (run false r x))
    in Hz.
  apply in_map_iff in Hz as (z' & <- & Hz').
  cbn [run groups_of] in Hz'.
  apply in_flat_map in Hz' as (x1 & (c0 & Hc0 & E0)%one_in & Hz').
  apply in_flat_map in Hz' as (x2 & (c1 & Hc1 & E1)%one_in & Hz').
  apply repeat_exact_in in Hz' as (l & Hl & Hlen).
  cbn [canon] in E0, E1. apply Ascii.eqb_eq in E0, E1. subst c0 c1.
  cbn [set_cap caps get_cap List.find fst snd Nat.eqb].
  rewrite Hc0, Hc1, Hl.
  change ("0" :: "x" :: l ++ rest z')%char with (("0" :: "x" :: l)%char ++ rest z').
  rewrite consumed_app. split; [destruct l; reflexivity|simpl; lia].
Qed.

Lemma parseDeployMessage_some text p :
  parseDeployMessage text = Some p → p = extract text.
Proof.
  unfold parseDeployMessage. destruct (negb _); [discriminate|].
  cbv zeta. destruct (_ || _); [|discriminate]. intros [= <-]. reflexivity.
Qed.

Lemma parsed_wallet_valid message a :
  parsed_wallet message = Some a → isValidWallet a = true.
Proof.
  unfold parsed_wallet.
  destruct (parseDeployMessage message) as [p|] eqn:Hp; [|discriminate].
  apply parseDeployMessage_some in Hp as ->.
  unfold extract; cbn [wallet].
  destruct (js_match false re_wallet message) as [m|] eqn:Hm; [|discriminate].
  intros [= <-]. destruct (wallet_capture _ _ Hm) as [H0x Hlen].
  unfold isValidWallet. rewrite H0x, Hlen. reflexivity.
Qed.

Lemma isValidWallet_nonempty a : isValidWallet a = true → nonempty a = true.
Proof. destruct a; [discriminate|reflexivity]. Qed.

(** C1 (as the code has it). On the chat route a wallet is handed to the
    deploy dispatch only if it is not empty and starts with "0x".  It is
    the address found in the message when there is one, which is "0x" and
    forty hexadecimal digits, 42 characters; otherwise it is the
    caller-supplied userWallet, of which only the "0x" prefix is checked.
    POST /api/clanker/deploy hands on any non-empty tokenAdmin.  The check
    "starts with 0x and has exactly 42 characters" is the one of the
    wallet forms of the client. *)
Theorem wallet_checks_before_dispatch :
  (∀ message userWallet p,
     chat_step message userWallet = Dispatch p →
     ∃ w, wallet p = Some w
          ∧ nonempty w = true
          ∧ startsWith w (of_string "0x") = true
          ∧ match parsed_wallet message with
            | Some a => w = a ∧ isValidWallet w = true
            | None => userWallet = Some w
            end)
  ∧ (∀ body p,
       deploy_route body = Some p →
       wallet p = b_tokenAdmin body ∧ Deploy.truthy (wallet p) = true)
  ∧ (∀ w, isValidWallet w = true
          ↔ startsWith w (of_string "0x") = true ∧ List.length w = 42%nat).
Proof.
  split; [|split].
  - intros message userWallet p. unfold chat_step.
    pose proof (parsed_wallet_valid message) as Hvalid.
    unfold parsed_wallet in *.
    destruct (parseDeployMessage message) as [dp|]; [|discriminate].
    destruct (Deploy.truthy (name dp) && Deploy.truthy (symbol dp)); [|discriminate].
    cbv zeta. unfold walletToUse.
    destruct (wallet dp) as [a|].
    + specialize (Hvalid a eq_refl).
      cbn [or_default]. rewrite (isValidWallet_nonempty _ Hvalid).
      destruct (negb (nonempty a) || negb (startsWith a (of_string "0x"))) eqn:Hg;
        [discriminate|].
      intros [= <-]. exists a. cbn [with_wallet wallet].
      apply orb_false_iff in Hg as [Hn Hs]. apply negb_false_iff in Hn, Hs. auto.
    + cbn [or_default].
      destruct (negb (nonempty (or_default userWallet []))
                || negb (startsWith (or_default userWallet []) (of_string "0x")))
        eqn:Hg; [discriminate|].
      intros [= <-]. exists (or_default userWallet []). cbn [with_wallet wallet].
      apply orb_false_iff in Hg as [Hn Hs]. apply negb_false_iff in Hn, Hs.
      repeat split; try assumption.
      destruct userWallet as [u|]; [|discriminate Hn].
      cbn [or_default] in *. destruct (nonempty u); [reflexivity|discriminate Hn].
  - intros body p. unfold deploy_route.
    destruct (Deploy.truthy (b_tokenAdmin body)) eqn:Ha;
      [|rewrite !orb_true_r; discriminate].
    destruct (_ || _); [discriminate|]. intros [= <-]. cbn [wallet]. auto.
  - intros w. unfold isValidWallet. rewrite andb_true_iff, Nat.eqb_eq. reflexivity.
Qed.

(** C1, the claim as written fails: a deploy request without an address,
    sent with the userWallet "0xabc", reaches the dispatch with that
    wallet of five characters. *)
Lemma chat_dispatches_short_wallet :
  isValidWallet (of_string "0xabc") = false
  ∧ chat_step request_without_wallet (Some (of_string "0xabc"))
    = Dispatch {| name := Some (of_string "Foo");
                  symbol := Some (of_string "BAR");
                  wallet := Some (of_string "0xabc");
                  websiteUrl := None; twitterUrl := None;
                  description := None; imageUrl := None |}.
Proof. split; reflexivity. Qed.

(** The second scenario of the specification. *)
Example scenario_deploy_message :
  parseDeployMessage
    (of_string "Deploy token Name: Foo Symbol: FOO Wallet: 0x1111111111111111111111111111111111111111")
  = Some {| name := Some (of_string "Foo");
            symbol := Some (of_string "FOO");
            wallet := Some address_1;
            websiteUrl := None; twitterUrl := None;
            description := None; imageUrl := None |}.
Proof. vm_compute. reflexivity. Qed.

(** The format of the comment above [parseDeployMessage]: without colons
    and with a one-letter symbol, the symbol is not found. *)
Example comment_format_message :
  option_map (fun p => (name p, symbol p, websiteUrl p, twitterUrl p))
    (parseDeployMessage
       (of_string "Deploy token Name X symbol Y website Z x http://a.b wallet 0x1111111111111111111111111111111111111111"))
  = Some (Some (of_string "X"), None, Some (of_string "https://Z"),
          Some (of_string "http://a.b")).
Proof. vm_compute. reflexivity. Qed.

End Parser.

Import Wire.

(** ** The inference relay: streams and callbacks *)

Section RelayStreams.

Implicit Types (w : World) (tr : list Event) (s : Stream) (buf raw cur : str).

Lemma split_lines_nonempty cur t : split_lines cur t ≠ [].
Proof.
  revert cur. induction t as [|c t IH]; intros cur; simpl; [discriminate|].
  destruct (Ascii.eqb c "010"); [discriminate|apply IH].
Qed.

(** Splitting a text that arrives in two pieces: the lines of the first
    piece but the last, and then the lines of the second piece read after
    the incomplete line. *)
Lemma split_lines_app cur a b :
  split_lines cur (a ++ b)
  = List.removelast (split_lines cur a)
    ++ split_lines (rev (List.last (split_lines cur a) [])) b.
Proof.
  revert cur. induction a as [|c a IH]; intros cur; simpl.
  - rewrite rev_involutive. reflexivity.
  - destruct (Ascii.eqb c "010").
    + rewrite IH.
      destruct (split_lines [] a) eqn:E; [exfalso; exact (split_lines_nonempty _ _ E)|].
      reflexivity.
    + apply IH.
Qed.

Lemma split_lines_no_nl t :
  ∀ cur, no_nl cur → Forall no_nl (split_lines cur t).
Proof.
  induction t as [|c t IH]; intros cur Hcur; simpl.
  - constructor; [|constructor]. unfold no_nl in *.
    rewrite forallb_forall in *. intros x Hx. apply Hcur. apply in_rev. exact Hx.
  - destruct (Ascii.eqb c "010") eqn:E.
    + constructor; [|apply IH; reflexivity]. unfold no_nl in *.
      rewrite forallb_forall in *. intros x Hx. apply Hcur. apply in_rev. exact Hx.
    + apply IH. unfold no_nl in *. simpl. rewrite E. exact Hcur.
Qed.

Lemma last_no_nl (ls : list str) : Forall no_nl ls → no_nl (List.last ls []).
Proof.
  induction 1 as [|l ls Hl Hls IH]; [reflexivity|].
  destruct ls; [exact Hl|exact IH].
Qed.

Lemma split_lines_prefix x :
  no_nl x → ∀ cur u, split_lines cur (x ++ u) = split_lines (rev x ++ cur) u.
Proof.
  unfold no_nl. induction x as [|c x IH]; intros Hx cur u; [reflexivity|].
  simpl in Hx. apply andb_prop in Hx as [Hc Hx].
  simpl. destruct (Ascii.eqb c "010"); [discriminate|].
  rewrite IH by exact Hx. rewrite <- app_assoc. reflexivity.
Qed.

(** The lines a reader handles are the complete lines of the whole text:
    where the chunks are cut does not matter. *)
Lemma complete_lines_concat cs :
  ∀ buf, no_nl buf →
         complete_lines buf cs
         = List.removelast (split_lines [] (buf ++ concat cs)).
Proof.
  induction cs as [|raw cs IH]; intros buf Hbuf.
  - simpl. rewrite app_nil_r.
    rewrite <- (app_nil_r buf) at 1. rewrite split_lines_prefix by exact Hbuf.
    reflexivity.
  - cbn [complete_lines concat]. cbv zeta.
    set (L := split_lines [] (buf ++ raw)).
    assert (HL : no_nl (List.last L [])).
    { apply last_no_nl. apply split_lines_no_nl. reflexivity. }
    rewrite (IH _ HL).
    rewrite (app_assoc buf raw), (split_lines_app [] (buf ++ raw)). fold L.
    rewrite removelast_app by apply split_lines_nonempty.
    rewrite (split_lines_prefix _ HL), app_nil_r. reflexivity.
Qed.

Lemma sse_line_resolves w line : snd (sse_line w line) = Resolved tt.
Proof.
  unfold sse_line.
  destruct (negb _); [reflexivity|].
  destruct (String.eqb _ _); [reflexivity|].
  destruct (JSON_parse w _) as [parsed|]; [|reflexivity].
  cbn [lift bind ret fst snd app try_catch].
  destruct (prop parsed "choices") as [choices|]; [|reflexivity].
  cbn [lift bind ret fst snd app try_catch].
  destruct (Js.truthy _); reflexivity.
Qed.

Lemma sse_lines_resolves w ls : snd (sse_lines w ls) = Resolved tt.
Proof.
  induction ls as [|l ls IH]; [reflexivity|].
  simpl. pose proof (sse_line_resolves w l) as Hl.
  destruct (sse_line w l) as [tr r]; simpl in Hl; subst r. simpl.
  destruct (sse_lines w ls) as [tr' r']; simpl in *. exact IH.
Qed.

Lemma sse_lines_app w ls1 ls2 :
  sse_lines w (ls1 ++ ls2) = (sse_lines w ls1 ;; sse_lines w ls2).
Proof.
  induction ls1 as [|l ls1 IH]; simpl.
  - destruct (sse_lines w ls2); reflexivity.
  - rewrite IH.
    destruct (sse_line w l) as [tr [[]|msg]]; [|reflexivity]. simpl.
    destruct (sse_lines w ls1) as [tr1 [[]|msg1]]; simpl.
    + destruct (sse_lines w ls2) as [tr2 r2]. rewrite app_assoc. reflexivity.
    + reflexivity.
Qed.

Lemma sse_chunks_lines w cs :
  ∀ buf, sse_chunks w buf cs = sse_lines w (complete_lines buf cs).
Proof.
  induction cs as [|raw cs IH]; intros buf; [reflexivity|].
  cbn [sse_chunks complete_lines]. cbv zeta.
  rewrite sse_lines_app, IH. reflexivity.
Qed.

Lemma deltas_sse_line w line : deltas (fst (sse_line w line)).
Proof.
  unfold sse_line, deltas.
  destruct (negb _); [constructor|].
  destruct (String.eqb _ _); [constructor|].
  destruct (JSON_parse w _) as [parsed|]; [|constructor].
  cbn [lift bind ret fst snd app try_catch].
  destruct (prop parsed "choices") as [choices|]; [|constructor].
  cbn [lift bind ret fst snd app try_catch].
  destruct (Js.truthy _) eqn:E; [|constructor].
  constructor; [|constructor]. eexists. split; [reflexivity|exact E].
Qed.

Lemma deltas_sse_lines w ls : deltas (fst (sse_lines w ls)).
Proof.
  induction ls as [|l ls IH]; [constructor|].
  simpl. pose proof (deltas_sse_line w l) as Hl.
  pose proof (sse_line_resolves w l) as Hr.
  destruct (sse_line w l) as [tr r]; simpl in *; subst r. simpl.
  destruct (sse_lines w ls) as [tr' r']; simpl in *.
  apply Forall_app; split; assumption.
Qed.

(** What [readSseStream] does with a stream: the deltas of its complete
    lines, and then the end of the stream. *)
Lemma readSseStream_lines w s :
  readSseStream w s
  = (fst (sse_lines w (List.removelast (split_lines [] (concat (chunks s))))),
     match broken s with Some msg => Rejected msg | None => Resolved tt end).
Proof.
  unfold readSseStream. rewrite sse_chunks_lines.
  rewrite complete_lines_concat by reflexivity. simpl app.
  pose proof (sse_lines_resolves w
                (List.removelast (split_lines [] (concat (chunks s))))) as Hr.
  destruct (sse_lines w _) as [tr r]; simpl in Hr; subst r.
  unfold stream_end. destruct (broken s); simpl; rewrite ?app_nil_r; reflexivity.
Qed.

(** X1. [readSseStream] does not depend on how the text of the stream is
    divided into chunks: two streams whose chunks spell the same text and
    that end the same way give the same calls of [onChunk], in the same
    order, and the same outcome. *)
Theorem readSseStream_chunking w s s' :
  concat (chunks s) = concat (chunks s') →
  broken s = broken s' →
  readSseStream w s = readSseStream w s'.
Proof.
  intros Htext Hend. rewrite !readSseStream_lines, Htext, Hend. reflexivity.
Qed.

Lemma readSseStream_chunking_witness :
  readSseStream sample_world
    (mkStream [of_string "data: {h"; of_string "i}"; ["010"%char]] None)
  = readSseStream sample_world
      (mkStream [of_string "data: "; of_string "{hi}"; ["010"%char]; []] None).
Proof.
  apply readSseStream_chunking; reflexivity.
Defined.

Lemma readSseStream_outcome w s :
  snd (readSseStream w s)
  = match broken s with Some msg => Rejected msg | None => Resolved tt end
  ∧ deltas (fst (readSseStream w s)).
Proof.
  rewrite readSseStream_lines. split; [reflexivity|]. apply deltas_sse_lines.
Qed.

(** X2. [readSseStream] skips what it cannot use: whatever the lines hold
    (text that is no JSON, events without [choices], empty deltas), it
    fails only when the stream itself breaks, with the error of the
    stream, and [onChunk] is only ever called with a truthy delta. *)
Theorem readSseStream_skips_malformed w s :
  snd (readSseStream w s)
  = match broken s with Some msg => Rejected msg | None => Resolved tt end
  ∧ deltas (fst (readSseStream w s)).
Proof.
  rewrite readSseStream_lines. split; [reflexivity|]. apply deltas_sse_lines.
Qed.

Lemma deltas_calm tr : deltas tr → calm tr.
Proof.
  unfold deltas, calm. induction 1 as [|e tr (d & -> & _) _ IH]; [reflexivity|exact IH].
Qed.

Lemma turn_ok_error w sent e : turn_ok w sent ([OnError e], Resolved tt).
Proof.
  exists [], (OnError e). split; [reflexivity|]. split; [reflexivity|].
  split; [reflexivity|]. split; [discriminate|]. intros [d []].
Qed.

Lemma turn_ok_throw w sent msg : turn_ok w sent ([], Rejected msg).
Proof. split; [reflexivity|]. intros [d []]. Qed.

Lemma deltas_requests tr : deltas tr → requests tr = [].
Proof.
  induction 1 as [|e tr (d & -> & _) _ IH]; [reflexivity|exact IH].
Qed.

(** Streaming an answer of status 200 and then calling [onDone]. *)
Lemma turn_ok_stream w sent rq r :
  httpsPostStream w sent rq = Resolved r → status r = 200%Z →
  turn_ok w (sent ++ [rq]) (readSseStream w (stream r) ;; emit OnDone).
Proof.
  intros Hpost H200.
  destruct (readSseStream_outcome w (stream r)) as [Hsnd Hd].
  destruct (readSseStream w (stream r)) as [tr res]; simpl in Hsnd, Hd.
  pose proof (deltas_requests _ Hd) as Hreq.
  destruct (broken (stream r)) as [msg|] eqn:Hb; subst res; simpl.
  - split; [apply deltas_calm, Hd|]. intros _.
    exists sent, rq, [], r. rewrite Hreq, app_nil_r. auto.
  - assert (Hall : requests (tr ++ [OnDone]) = []).
    { rewrite requests_app, Hreq. reflexivity. }
    exists tr, OnDone. split; [reflexivity|]. split; [reflexivity|].
    split; [apply deltas_calm, Hd|]. split; intros _.
    + exists sent, rq, [], r. rewrite Hall, app_nil_r. auto.
    + exists sent, rq, [], r. rewrite Hall, app_nil_r. auto.
Qed.

(** A request goes out before the part of the turn that handles its
    answer. *)
Lemma turn_ok_send w sent rq (m : M unit) :
  turn_ok w (sent ++ [rq]) m →
  turn_ok w sent (let (tr, r) := m in (Send rq :: tr, r)).
Proof.
  assert (Hreq : ∀ l : list Request, sent ++ rq :: l = (sent ++ [rq]) ++ l).
  { intros l. rewrite <- app_assoc. reflexivity. }
  destruct m as [tr [[]|msg]]; cbn [turn_ok requests].
  - intros (pre & last & -> & Hl & Hc & Hd & Hk).
    exists (Send rq :: pre), last. split; [reflexivity|]. split; [exact Hl|].
    split; [exact Hc|]. rewrite Hreq. split; [exact Hd|].
    intros [d [Hin|Hin]]; [discriminate|]. apply Hk. exists d. exact Hin.
  - intros [Hc Hk]. split; [exact Hc|]. rewrite Hreq.
    intros [d [Hin|Hin]]; [discriminate|]. apply Hk. exists d. exact Hin.
Qed.

Lemma pay_and_retry_turn w clients msgs body402 :
  turn_ok w [first_request msgs] (pay_and_retry w clients msgs body402).
Proof.
  unfold pay_and_retry.
  destruct (JSON_parse w body402) as [pr|]; [|apply turn_ok_error].
  destruct (negb _); [apply turn_ok_error|].
  destruct (prop pr "accepts") as [accepts|]; [|apply turn_ok_throw].
  cbn [lift bind ret fst snd app].
  destruct (prop accepts "0") as [accept0|]; [|apply turn_ok_throw].
  cbn [lift bind ret fst snd app].
  destruct (prop pr "x402Version") as [version|]; [|apply turn_ok_throw].
  cbn [lift bind ret fst snd app].
  unfold normalizePaymentRequirements.
  destruct (prop accept0 "network") as [n|]; [|apply turn_ok_throw].
  cbn [lift bind ret fst snd app].
  destruct (x402CreatePaymentHeader w clients version _) as [header|msg];
    [|apply turn_ok_error].
  unfold send. cbn [emit await bind fst snd app].
  destruct (httpsPostStream w [first_request msgs] (paid_request msgs header))
    as [r2|msg] eqn:Hpost;
    [|apply (turn_ok_send w _ _ ([], Rejected msg)), turn_ok_throw].
  destruct (status r2 =? 200)%Z eqn:H200.
  - apply Z.eqb_eq in H200.
    pose proof (turn_ok_send w _ (paid_request msgs header) _
                  (turn_ok_stream w _ _ _ Hpost H200)) as H.
    destruct (readSseStream w (stream r2) ;; emit OnDone) as [tr res]. exact H.
  - destruct (readBody_cases (stream r2)) as [Hb|[msg Hb]]; rewrite Hb;
      cbn [bind emit fst snd app].
    + apply (turn_ok_send w _ _ ([OnError _], Resolved tt)), turn_ok_error.
    + apply (turn_ok_send w _ _ ([], Rejected msg)), turn_ok_throw.
Qed.

Lemma callConwayAI_turn w msgs :
  turn_ok w [] (callConwayAI w msgs, Resolved tt).
Proof.
  unfold callConwayAI.
  destruct (getViemClients (server w)) as [clients|]; [|apply turn_ok_error].
  unfold send. cbn [emit await bind fst snd app].
  assert (Hcatch : ∀ m : M unit,
            turn_ok w [] m →
            turn_ok w []
              (fst (try_catch m (fun msg =>
                      emit (OnError (Text (or_message msg
                                             (of_string "Network error")))))),
               Resolved tt)).
  { intros [tr [[]|msg]]; simpl; [exact (fun H => H)|].
    intros [Hc Hk]. exists tr, (OnError (Text (or_message msg (of_string "Network error")))).
    split; [reflexivity|]. split; [reflexivity|]. split; [exact Hc|].
    split; [discriminate|]. rewrite requests_app. cbn [requests].
    rewrite app_nil_r. exact Hk. }
  apply Hcatch.
  destruct (httpsPostStream w [] (first_request msgs)) as [r1|msg] eqn:Hpost;
    [|apply (turn_ok_send w [] _ ([], Rejected msg)), turn_ok_throw].
  destruct (status r1 =? 200)%Z eqn:H200.
  { apply Z.eqb_eq in H200.
    pose proof (turn_ok_send w [] (first_request msgs) _
                  (turn_ok_stream w _ _ _ Hpost H200)) as H.
    destruct (readSseStream w (stream r1) ;; emit OnDone) as [tr res]. exact H. }
  destruct (status r1 =? 402)%Z; cbn [negb].
  2:{ destruct (readBody_cases (stream r1)) as [Hb|[msg Hb]]; rewrite Hb;
        cbn [bind emit fst snd app].
      - apply (turn_ok_send w [] _ ([OnError _], Resolved tt)), turn_ok_error.
      - apply (turn_ok_send w [] _ ([], Rejected msg)), turn_ok_throw. }
  destruct (readBody_cases (stream r1)) as [Hb|[msg Hb]]; rewrite Hb;
    cbn [bind emit fst snd app];
    [|apply (turn_ok_send w [] _ ([], Rejected msg)), turn_ok_throw].
  pose proof (turn_ok_send w [] (first_request msgs) _
                (pay_and_retry_turn w clients msgs (concat (chunks (stream r1)))))
    as H.
  destruct (pay_and_retry w clients msgs (concat (chunks (stream r1))))
    as [tr res]. exact H.
Qed.


(** X4. [callConwayAI] reports success only for an answer it has streamed
    to the end: [onDone] is called only when a request of the turn was
    answered with status 200 and the stream of that answer ended without
    an error, and [onChunk] is called only when a request of the turn was
    answered with status 200. *)
Theorem callConwayAI_done_after_200 w msgs :
  let tr := callConwayAI w msgs in
  (In OnDone tr → streamed_200 w (requests tr))
  ∧ (∀ d, In (OnChunk d) tr → answered_200 w (requests tr)).
Proof.
  cbv zeta.
  destruct (callConwayAI_turn w msgs) as (pre & last & H & Hl & Hc & Hd & Hk).
  cbn [app] in Hd, Hk. rewrite H in Hd, Hk |- *. split.
  - intros Hin. apply in_app_or in Hin as [Hin|[Heq|[]]]; [|apply Hd; exact Heq].
    exfalso. unfold calm in Hc. rewrite forallb_forall in Hc.
    specialize (Hc _ Hin). discriminate.
  - intros d Hin. apply in_app_or in Hin as [Hin|[Heq|[]]];
      [|subst last; discriminate].
    apply Hk. exists d. exact Hin.
Qed.

End RelayStreams.

Section PaymentRequirements.

Lemma network_table_names s name :
  CAIP2_TO_X402_NETWORK !! s = Some (JStr name) → s ≠ "" ∧ name ≠ "".
Proof.
  unfold CAIP2_TO_X402_NETWORK. intros H.
  repeat (apply lookup_insert_Some in H as [[<- [= <-]]|[_ H]]; [split; discriminate|]).
  rewrite lookup_empty in H. discriminate.
Qed.

(** X5. [normalizePaymentRequirements] on an object: it returns a copy in
    which only [network] may differ; each of the six CAIP-2 identifiers of
    the table is replaced by the plain name the table gives it, and a
    missing [network] becomes the empty string.  On [undefined] and [null]
    it throws. *)
Theorem normalizePaymentRequirements_frame (w : World) (m : gmap string jsval) :
  (∃ m', normalizePaymentRequirements w (JObj m) = ret (JObj m')
         ∧ (∀ k, k ≠ "network" → m' !! k = m !! k)
         ∧ (∀ s name, m !! "network" = Some (JStr s) →
                      CAIP2_TO_X402_NETWORK !! s = Some (JStr name) →
                      m' !! "network" = Some (JStr name))
         ∧ (m !! "network" = None → m' !! "network" = Some (JStr "")))
  ∧ normalizePaymentRequirements w JUndefined = throw (type_error w)
  ∧ normalizePaymentRequirements w JNull = throw (type_error w).
Proof.
  split; [|split; reflexivity].
  unfold normalizePaymentRequirements. cbn [prop nullish lift bind ret own spread].
  eexists. split; [reflexivity|]. split; [|split].
  - intros k Hk. rewrite lookup_insert_ne by congruence. reflexivity.
  - intros s name Hs Htab. rewrite lookup_insert_eq. rewrite Hs.
    destruct (network_table_names _ _ Htab) as [Hnon Hname].
    unfold jor at 2. cbn [Js.truthy].
    destruct (String.eqb s "") eqn:E; [apply String.eqb_eq in E; contradiction|].
    cbn [negb table_lookup own]. rewrite Htab.
    unfold jor. cbn [Js.truthy].
    destruct (String.eqb name "") eqn:E'; [apply String.eqb_eq in E'; contradiction|].
    reflexivity.
  - intros Hnone. rewrite lookup_insert_eq, Hnone. reflexivity.
Qed.

End PaymentRequirements.

(** ** The knowledge base: what the order of the rules implies *)

Section KnowledgeBaseOrder.

Implicit Types (q message w : str) (errCode : option str).

Lemma startsWith_prefix s p : startsWith s p = true ↔ ∃ t, s = p ++ t.
Proof.
  revert s. induction p as [|a p IH]; intros s.
  - split; [intros _; exists s; reflexivity|intros _; destruct s; reflexivity].
  - destruct s as [|b s]; simpl; [split; [discriminate|intros [t [=]]]|].
    rewrite andb_true_iff, IH. split.
    + intros [Hab [t ->]]. apply Ascii.eqb_eq in Hab as ->. exists t. reflexivity.
    + intros [t [= -> ->]]. split; [apply Ascii.eqb_refl|exists t; reflexivity].
Qed.

(** [s.includes(w)]: [w] occurs somewhere in [s]. *)
Lemma includes_occurs s w : includes s w = true ↔ ∃ l1 l2, s = l1 ++ w ++ l2.
Proof.
  induction s as [|c s IH]; cbn [includes].
  - rewrite orb_false_r, startsWith_prefix. split.
    + intros [t H]. exists [], t. exact H.
    + intros (l1 & l2 & H). destruct l1 as [|? ?]; [|discriminate].
      exists l2. exact H.
  - rewrite orb_true_iff, startsWith_prefix, IH. split.
    + intros [[t H]|(l1 & l2 & ->)].
      * exists [], t. exact H.
      * exists (c :: l1), l2. reflexivity.
    + intros (l1 & l2 & H). destruct l1 as [|c' l1].
      * left. exists l2. exact H.
      * right. injection H as -> ->. exists l1, l2. reflexivity.
Qed.

(** A text that holds a phrase holds every part of the phrase. *)
Lemma includes_part q a b :
  includes q (a ++ b) = true → includes q a = true ∧ includes q b = true.
Proof.
  rewrite !includes_occurs. intros (l1 & l2 & ->). split.
  - exists l1, (b ++ l2). rewrite <- app_assoc. reflexivity.
  - exists (l1 ++ a), l2. rewrite <- !app_assoc. reflexivity.
Qed.

Lemma includes_right q (a b : string) :
  includes q (of_string a ++ of_string b) = true → includes q (of_string b) = true.
Proof. intros H. apply (includes_part _ _ _ H). Qed.

(** X6. The error tag never changes which answer is chosen: two calls on
    the same message give the same answer, unless both give the generic
    menu, which differs only in the note made from the tag. *)
Theorem generateFallbackResponse_errCode message errCode errCode' :
  generateFallbackResponse message errCode
  = generateFallbackResponse message errCode'
  ∨ (generateFallbackResponse message errCode = Menu (creditNote errCode)
     ∧ generateFallbackResponse message errCode' = Menu (creditNote errCode')).
Proof.
  rewrite !generateFallbackResponse_ordered. unfold ordered_answer.
  destruct (first_match rules (toLowerCase message)); [left|right; split]; reflexivity.
Qed.

(** The facts an answer gives about the lower-cased message: the keywords
    of every earlier rule are absent, and a keyword of its own rule is
    present. *)
Ltac answer_facts H :=
  unfold generateFallbackResponse in H; cbv zeta in H;
  repeat match type of H with
         | context [has ?q ?ws] =>
             let E := fresh "E" in
             destruct (has q ws) eqn:E; [try discriminate H|]
         end;
  try discriminate H;
  try (match type of H with
       | context [js_match ?ic ?r ?q] => destruct (js_match ic r q)
       end; discriminate H).

Ltac split_absent :=
  repeat match goal with
         | H : has _ _ = false |- _ =>
             unfold has in H; cbn [existsb] in H; rewrite ?orb_false_r in H;
             repeat (apply orb_false_iff in H as [? H])
         end.

Ltac keyword_cases :=
  match goal with
  | H : has _ _ = true |- _ =>
      unfold has in H; cbn [existsb] in H; rewrite ?orb_false_r in H;
      repeat (apply orb_true_iff in H as [H|H])
  end.

(** X7. Keywords that can never choose their own answer, because an earlier
    rule takes every message that holds them.  The gas-fee answer is never
    given to a message that mentions a fee; the cold-wallet answer is given
    only for [ledger] and [trezor], never for [cold wallet], [hardware
    wallet] or [hot wallet]; the yield-farming answer is never given for
    [provide liquidity] or [liquidity provider]; and the BNB answer is
    never given for [pancakeswap]. *)
Theorem generateFallbackResponse_shadowed message errCode :
  let q := toLowerCase message in
  let answer := generateFallbackResponse message errCode in
  (answer = Canned GasFees → includes q (of_string "fee") = false)
  ∧ (answer = Canned ColdWallet →
       includes q (of_string "wallet") = false
       ∧ (includes q (of_string "ledger") = true
          ∨ includes q (of_string "trezor") = true))
  ∧ (answer = Canned YieldFarming → includes q (of_string "liquidity") = false)
  ∧ (answer = Canned BnbChain → includes q (of_string "swap") = false).
Proof.
  cbv zeta.
  split; [|split; [|split]]; intros H; answer_facts H; split_absent.
  - assumption.
  - split; [assumption|].
    keyword_cases; auto;
      match goal with
      | Hk : includes _ _ = true |- _ =>
          first [ apply (includes_right _ "cold " "wallet") in Hk
                | apply (includes_right _ "hardware " "wallet") in Hk
                | apply (includes_right _ "hot " "wallet") in Hk ]
      end; congruence.
  - assumption.
  - assumption.
Qed.

(** The four answers are reachable, by the keywords that are left; and the
    shadowed keywords get the answer of the earlier rule. *)
Example shadowed_keywords :
  generateFallbackResponse (of_string "what is gwei") None = Canned GasFees
  ∧ generateFallbackResponse (of_string "what is a gas fee") None
    = Canned PlatformFees
  ∧ generateFallbackResponse (of_string "is a trezor safe") None
    = Canned ColdWallet
  ∧ generateFallbackResponse (of_string "what is a cold wallet") None
    = Canned Wallet
  ∧ generateFallbackResponse (of_string "what is an lp token") None
    = Canned YieldFarming
  ∧ generateFallbackResponse (of_string "what is a liquidity provider") None
    = Canned PlatformUniswap
  ∧ generateFallbackResponse (of_string "tell me about bsc") None
    = Canned BnbChain
  ∧ generateFallbackResponse (of_string "tell me about pancakeswap") None
    = Canned PlatformUniswap.
Proof. vm_compute. repeat split; reflexivity. Qed.

End KnowledgeBaseOrder.

(** ** Regular expressions: what a match can hold *)

Section RegexInversion.

Implicit Types (x y : mstate) (p : ascii → bool) (s t : str).

(** A loop over single characters consumes characters the class accepts,
    at least [min] of them and at most [max]. *)
Lemma repeat_in p greedy :
  ∀ fuel min max x y,
    match max with Some n => (min <= n)%nat | None => True end →
    In y (repeat_loop fuel (one p) [] min max greedy x) →
    ∃ l, rest x = l ++ rest y ∧ forallb p l = true
         ∧ (min <= List.length l)%nat
         ∧ match max with Some n => (List.length l <= n)%nat | None => True end
         ∧ caps y = caps x.
Proof.
  induction fuel as [|fuel IH]; intros min max x y Hmax Hy; [destruct Hy|].
  cbn [repeat_loop] in Hy.
  assert (Hstay : y = x → min = 0%nat →
            ∃ l, rest x = l ++ rest y ∧ forallb p l = true
                 ∧ (min <= List.length l)%nat
                 ∧ match max with Some n => (List.length l <= n)%nat | None => True end
                 ∧ caps y = caps x).
  { intros -> ->. exists []. repeat split; simpl; try lia. destruct max; [lia|exact I]. }
  assert (Hagain :
    In y (flat_map
            (fun y0 =>
               if Nat.eqb min 0 && Nat.eqb (List.length (rest y0)) (List.length (rest x))
               then []
               else repeat_loop fuel (one p) [] (Nat.pred min) (dec_max max) greedy y0)
            (one p (clear_caps [] x))) →
    max ≠ Some 0%nat →
    ∃ l, rest x = l ++ rest y ∧ forallb p l = true
         ∧ (min <= List.length l)%nat
         ∧ match max with Some n => (List.length l <= n)%nat | None => True end
         ∧ caps y = caps x).
  { intros Hin Hne. rewrite clear_caps_nil in Hin.
    apply in_flat_map in Hin as (x1 & Hx1 & Hin).
    pose proof Hx1 as Hcaps. unfold one in Hcaps.
    destruct (rest x) as [|c0 s0] eqn:Hrest; [destruct Hcaps|].
    destruct (p c0) eqn:Hp0; [|destruct Hcaps].
    destruct Hcaps as [<-|[]]. cbn [rest] in Hin.
    destruct (_ && _); [destruct Hin|].
    apply IH in Hin as (l & Hl & Hall & Hmin & Hbound & Hc).
    2:{ destruct max as [n|]; [|exact I]. simpl. lia. }
    cbn [rest caps] in Hl, Hc.
    exists (c0 :: l). split; [rewrite Hl; reflexivity|].
    split; [simpl; rewrite Hp0; exact Hall|].
    split; [simpl; lia|]. split; [|exact Hc].
    destruct max as [n|]; [|exact I]. simpl in Hbound |- *.
    destruct n; [contradiction Hne; reflexivity|lia]. }
  destruct max as [[|n]|].
  - destruct Hy as [<-|[]]. apply Hstay; [reflexivity|lia].
  - destruct (Nat.eqb min 0) eqn:Hmin0; cbn [negb] in Hy.
    + apply Nat.eqb_eq in Hmin0. destruct greedy.
      * apply in_app_or in Hy as [Hy|[<-|[]]]; [apply Hagain; [exact Hy|discriminate]|].
        apply Hstay; [reflexivity|exact Hmin0].
      * destruct Hy as [<-|Hy]; [apply Hstay; [reflexivity|exact Hmin0]|].
        apply Hagain; [exact Hy|discriminate].
    + apply Hagain; [exact Hy|discriminate].
  - destruct (Nat.eqb min 0) eqn:Hmin0; cbn [negb] in Hy.
    + apply Nat.eqb_eq in Hmin0. destruct greedy.
      * apply in_app_or in Hy as [Hy|[<-|[]]]; [apply Hagain; [exact Hy|discriminate]|].
        apply Hstay; [reflexivity|exact Hmin0].
      * destruct Hy as [<-|Hy]; [apply Hstay; [reflexivity|exact Hmin0]|].
        apply Hagain; [exact Hy|discriminate].
    + apply Hagain; [exact Hy|discriminate].
Qed.

(** A search that succeeds found its match at some position of the text:
    the text before it, the match, and the text the match left. *)
Lemma search_found ic r s :
  ∀ b m, search ic r b s = Some m →
         ∃ before t b' y,
           s = before ++ t
           ∧ In y (run ic r (MState b' t []))
           ∧ whole m = consumed t (rest y)
           ∧ groups m = caps y.
Proof.
  induction s as [|c s IH]; intros b m; simpl.
  - destruct (run ic r (MState b [] [])) as [|y tl] eqn:Hrun; [discriminate|].
    intros [= <-]. exists [], [], b, y. rewrite Hrun.
    split; [reflexivity|]. split; [left; reflexivity|]. split; reflexivity.
  - destruct (run ic r (MState b (c :: s) [])) as [|y tl] eqn:Hrun.
    + intros Hm. apply IH in Hm as (before & t & b' & y & -> & Hy & Hw & Hg).
      exists (c :: before), t, b', y. auto.
    + intros [= <-]. exists [], (c :: s), b, y. rewrite Hrun.
      split; [reflexivity|]. split; [left; reflexivity|]. split; reflexivity.
Qed.

Lemma boundary_in_any ic x y : In y (run ic WordBoundary x) → y = x.
Proof.
  cbn [run]. destruct (xorb _ _); [intros [<-|[]]; reflexivity|intros []].
Qed.

End RegexInversion.

(** ** What [parseDeployMessage] can return *)

Section ParserShape.

Implicit Types (text s w : str) (p : DeployParams) (m : match_result).

Ltac each_char c :=
  destruct c as [[|] [|] [|] [|] [|] [|] [|] [|]];
  vm_compute; intros; try reflexivity; try discriminate; try congruence.

Lemma class_is_hex c :
  class_has false [CRange "a" "f"; CRange "A" "F"; CRange "0" "9"] c = true →
  is_hex c = true.
Proof. each_char c. Qed.

Lemma class_is_letter c :
  class_has true [CRange "A" "Z"; CRange "a" "z"] c = true → is_letter c = true.
Proof. each_char c. Qed.

Lemma class_is_upper c :
  class_has false [CRange "A" "Z"] c = true → is_letter c = true.
Proof. each_char c. Qed.

Lemma letter_upper c : is_letter c = true → is_upper (upper_ascii c) = true.
Proof. each_char c. Qed.

Lemma letter_not_space c : is_letter c = true → negb (is_space c) = true.
Proof. each_char c. Qed.

(** The wallet pattern captures [0x] and forty hexadecimal digits. *)
Lemma wallet_capture_hex text m :
  js_match false re_wallet text = Some m → wallet_address (g1 m) = true.
Proof.
  intros Hm. apply search_some in Hm as (x & y & Hy & Hg).
  unfold g1, group. rewrite Hg. clear Hg m.
  unfold re_wallet in Hy. cbn [Seqs] in Hy.
  change (run false (Seq WordBoundary ?r) x)
    with (flat_map (run false r) (run false WordBoundary x)) in Hy.
  apply in_flat_map in Hy as (x0 & ->%boundary_in & Hy).
  change (run false (Seq ?g WordBoundary) x)
    with (flat_map (run false WordBoundary) (run false g x)) in Hy.
  apply in_flat_map in Hy as (z & Hz & ->%boundary_in).
  change (run false (Group 1 ?r) x)
    with (map (fun y => set_cap 1 (consumed (rest x) (rest y)) y) (run false r x))
    in Hz.
  apply in_map_iff in Hz as (z' & <- & Hz').
  cbn [run groups_of] in Hz'.
  apply in_flat_map in Hz' as (x1 & (c0 & Hc0 & E0)%one_in & Hz').
  apply in_flat_map in Hz' as (x2 & (c1 & Hc1 & E1)%one_in & Hz').
  apply repeat_in in Hz' as (l & Hl & Hall & Hmin & Hmax & _); [|lia].
  cbn [canon] in E0, E1. apply Ascii.eqb_eq in E0, E1. subst c0 c1.
  cbn [set_cap caps get_cap List.find fst snd Nat.eqb].
  rewrite Hc0, Hc1, Hl.
  change ("0" :: "x" :: l ++ rest z')%char with (("0" :: "x" :: l)%char ++ rest z').
  rewrite consumed_app. cbn [wallet_address].
  rewrite (forallb_impl _ _ _ class_is_hex Hall). simpl.
  apply Nat.eqb_eq. lia.
Qed.

(** X8. A wallet address in the result of [parseDeployMessage] is always
    well formed: [0x] followed by exactly forty hexadecimal digits. *)
Theorem parseDeployMessage_wallet_shape text p w :
  parseDeployMessage text = Some p → wallet p = Some w →
  wallet_address w = true.
Proof.
  intros Hp Hw. apply parseDeployMessage_some in Hp as ->.
  unfold extract in Hw; cbn [wallet] in Hw.
  destruct (js_match false re_wallet text) as [m|] eqn:Hm; [|discriminate].
  injection Hw as <-. apply (wallet_capture_hex _ _ Hm).
Qed.

Lemma parseDeployMessage_wallet_shape_witness :
  ∃ p w,
    parseDeployMessage
      (of_string "launch FOO for 0x52908400098527886E0F7030069857D2E4169EE7 now")
    = Some p
    ∧ wallet p = Some w ∧ wallet_address w = true.
Proof.
  eexists _, _. split; [vm_compute; reflexivity|]. split; [reflexivity|].
  eapply (parseDeployMessage_wallet_shape
            (of_string "launch FOO for 0x52908400098527886E0F7030069857D2E4169EE7 now"));
    [vm_compute; reflexivity|reflexivity].
Defined.

Lemma neg_lookahead_in ic r x y : In y (run ic (NegLookAhead r) x) → y = x.
Proof.
  cbn [run]. destruct (run ic r x); [intros [<-|[]]; reflexivity|intros []].
Qed.

Lemma space_or_end_caps ic x y :
  In y (run ic (LookAhead (Alt Space EndOfInput)) x) → caps y = caps x.
Proof.
  cbn [run Space]. unfold one. destruct (rest x) as [|c t]; cbn [app].
  - intros [<-|[]]. reflexivity.
  - destruct (class_has ic [CSpace] c); cbn [app]; [|intros []].
    intros [<-|[]]. reflexivity.
Qed.

(** Both symbol patterns capture two to ten ASCII letters. *)
Lemma symbol1_capture text m :
  js_match true re_symbol1 text = Some m → ticker_symbol (g1 m) = true.
Proof.
  intros Hm. apply search_some in Hm as (x & y & Hy & Hg).
  unfold g1, group. rewrite Hg. clear Hg m.
  unfold re_symbol1 in Hy. cbn [Seqs] in Hy.
  change (run true (Seq ?a ?r) x) with (flat_map (run true r) (run true a x)) in Hy.
  apply in_flat_map in Hy as (x0 & _ & Hy).
  change (run true (Seq ?a ?r) x0) with (flat_map (run true r) (run true a x0)) in Hy.
  apply in_flat_map in Hy as (x1 & _ & Hy).
  change (run true (Seq ?a ?r) x1) with (flat_map (run true r) (run true a x1)) in Hy.
  apply in_flat_map in Hy as (x2 & _ & Hy).
  change (run true (Group 1 ?r) x2)
    with (map (fun y => set_cap 1 (consumed (rest x2) (rest y)) y) (run true r x2))
    in Hy.
  apply in_map_iff in Hy as (z & <- & Hz).
  cbn [run groups_of letter] in Hz.
  apply repeat_in in Hz as (l & Hl & Hall & Hmin & Hmax & _); [|lia].
  cbn [set_cap caps get_cap List.find fst snd Nat.eqb].
  rewrite Hl, consumed_app. unfold ticker_symbol.
  rewrite (forallb_impl _ _ _ class_is_letter Hall). cbn [andb].
  apply andb_true_iff. split; apply Nat.leb_le; lia.
Qed.

Lemma symbol2_capture text m :
  js_match false re_symbol2 text = Some m → ticker_symbol (g1 m) = true.
Proof.
  intros Hm. apply search_some in Hm as (x & y & Hy & Hg).
  unfold g1, group. rewrite Hg. clear Hg m.
  unfold re_symbol2 in Hy. cbn [Seqs] in Hy.
  change (run false (Seq ?a ?r) x) with (flat_map (run false r) (run false a x)) in Hy.
  apply in_flat_map in Hy as (x0 & _ & Hy).
  change (run false (Seq ?a ?r) x0) with (flat_map (run false r) (run false a x0)) in Hy.
  apply in_flat_map in Hy as (z0 & Hz & Hy).
  change (run false (Seq ?a ?r) z0) with (flat_map (run false r) (run false a z0)) in Hy.
  apply in_flat_map in Hy as (z1 & ->%boundary_in_any & Hy).
  change (run false (Seq ?a ?r) z0) with (flat_map (run false r) (run false a z0)) in Hy.
  apply in_flat_map in Hy as (z2 & Hz2%space_or_end_caps & ->%neg_lookahead_in).
  rewrite Hz2. clear Hz2 z2.
  change (run false (Group 1 ?r) x0)
    with (map (fun y => set_cap 1 (consumed (rest x0) (rest y)) y) (run false r x0))
    in Hz.
  apply in_map_iff in Hz as (z & <- & Hz).
  cbn [run groups_of] in Hz.
  apply repeat_in in Hz as (l & Hl & Hall & Hmin & Hmax & _); [|lia].
  cbn [set_cap caps get_cap List.find fst snd Nat.eqb].
  rewrite Hl, consumed_app. unfold ticker_symbol.
  rewrite (forallb_impl _ _ _ class_is_upper Hall). cbn [andb].
  apply andb_true_iff. split; apply Nat.leb_le; lia.
Qed.

Lemma toUpperCase_letters l :
  forallb is_letter l = true → forallb is_upper (toUpperCase l) = true.
Proof.
  induction l as [|c l IH]; [reflexivity|].
  simpl. intros [Hc Hl]%andb_true_iff.
  rewrite (letter_upper _ Hc). apply IH, Hl.
Qed.

(** X9. A symbol in the result of [parseDeployMessage] is always two to ten
    capital ASCII letters. *)
Theorem parseDeployMessage_symbol_shape text p s :
  parseDeployMessage text = Some p → symbol p = Some s →
  forallb is_upper s = true
  ∧ (2 <= List.length s)%nat ∧ (List.length s <= 10)%nat.
Proof.
  intros Hp Hs. apply parseDeployMessage_some in Hp as ->.
  unfold extract in Hs; cbn [symbol] in Hs.
  assert (Hcap : ∃ m, s = toUpperCase (trim (g1 m)) ∧ ticker_symbol (g1 m) = true).
  { destruct (js_match true re_symbol1 text) as [m|] eqn:H1; simpl in Hs.
    - injection Hs as <-. exists m. split; [reflexivity|apply (symbol1_capture _ _ H1)].
    - destruct (js_match false re_symbol2 text) as [m|] eqn:H2; [|discriminate].
      injection Hs as <-. exists m. split; [reflexivity|apply (symbol2_capture _ _ H2)]. }
  destruct Hcap as (m & -> & Hm). unfold ticker_symbol in Hm.
  apply andb_true_iff in Hm as [[Hall Hmin%Nat.leb_le]%andb_true_iff Hmax%Nat.leb_le].
  rewrite trim_word by apply (forallb_impl _ _ _ letter_not_space Hall).
  split; [apply toUpperCase_letters, Hall|].
  unfold toUpperCase. rewrite length_map. lia.
Qed.

Lemma parseDeployMessage_symbol_shape_witness :
  ∃ p s,
    parseDeployMessage (of_string "please deploy ticker: doge") = Some p
    ∧ symbol p = Some s
    ∧ forallb is_upper s = true
    ∧ (2 <= List.length s)%nat ∧ (List.length s <= 10)%nat.
Proof.
  eexists _, _. split; [vm_compute; reflexivity|]. split; [reflexivity|].
  eapply (parseDeployMessage_symbol_shape (of_string "please deploy ticker: doge"));
    [vm_compute; reflexivity|reflexivity].
Defined.

(** X10. The links in the result of [parseDeployMessage] are absolute: a
    website and an X link, when present, start with [http]. *)
Theorem parseDeployMessage_links text p :
  parseDeployMessage text = Some p →
  (∀ u, websiteUrl p = Some u → startsWith u (of_string "http") = true)
  ∧ (∀ u, twitterUrl p = Some u → startsWith u (of_string "http") = true).
Proof.
  intros Hp. apply parseDeployMessage_some in Hp as ->.
  unfold extract; cbn [websiteUrl twitterUrl]. split; intros u Hu.
  - destruct (or_else _ _) as [m|]; [|discriminate]. injection Hu as <-.
    unfold website_of. cbv zeta.
    destruct (startsWith (trim (g1 m)) (of_string "http")) eqn:E; [exact E|reflexivity].
  - destruct (or_else _ _) as [m|]; [|discriminate]. injection Hu as <-.
    unfold twitter_of. cbv zeta.
    destruct (startsWith (trim (g1 m)) (of_string "http")) eqn:E; [exact E|].
    cbn [negb andb]. destruct (startsWith _ (of_string "@")); reflexivity.
Qed.

Lemma parseDeployMessage_links_witness :
  ∃ p,
    parseDeployMessage (of_string "deploy name Foo website foo.org x @foo") = Some p
    ∧ websiteUrl p = Some (of_string "https://foo.org")
    ∧ twitterUrl p = Some (of_string "https://x.com/foo")
    ∧ (∀ u, websiteUrl p = Some u → startsWith u (of_string "http") = true)
    ∧ (∀ u, twitterUrl p = Some u → startsWith u (of_string "http") = true).
Proof.
  eexists. split; [vm_compute; reflexivity|].
  split; [reflexivity|]. split; [reflexivity|].
  eapply (parseDeployMessage_links
            (of_string "deploy name Foo website foo.org x @foo"));
    vm_compute; reflexivity.
Defined.

End ParserShape.

Import Shape.

(** ** The address the knowledge base echoes *)

Section EchoedAddress.

Ltac every_char c :=
  destruct c as [[|] [|] [|] [|] [|] [|] [|] [|]];
  vm_compute; intros; try reflexivity; try discriminate; try congruence.

Lemma lower_char_lowered c : is_lowered (lower_char c) = true.
Proof. every_char c. Qed.

Lemma toLowerCase_lowered (s : str) : forallb is_lowered (toLowerCase s) = true.
Proof.
  induction s as [|c s IH]; [reflexivity|].
  simpl. rewrite lower_char_lowered. exact IH.
Qed.

Lemma lowered_zero c :
  Ascii.eqb (canon true c) (canon true "0") = true → c = "0"%char.
Proof. every_char c. Qed.

Lemma lowered_x c :
  is_lowered c = true → Ascii.eqb (canon true c) (canon true "x") = true →
  c = "x"%char.
Proof. every_char c. Qed.

Lemma lowered_hex c :
  is_lowered c = true →
  class_has true [CRange "a" "f"; CRange "0" "9"] c = true →
  is_lower_hex c = true.
Proof. every_char c. Qed.

Lemma forallb_both {A} (p q r : A → bool) (l : list A) :
  (∀ a, p a = true → q a = true → r a = true) →
  forallb p l = true → forallb q l = true → forallb r l = true.
Proof.
  intros H. induction l as [|a l IH]; [reflexivity|].
  simpl. intros [Hp Hpl]%andb_true_iff [Hq Hql]%andb_true_iff.
  rewrite (H _ Hp Hq). apply IH; assumption.
Qed.

(** What the address pattern finds in a lower-cased text. *)
Lemma address_found (message : str) m :
  js_match true re_address (toLowerCase message) = Some m →
  ∃ before l after,
    toLowerCase message = before ++ whole m ++ after
    ∧ whole m = ("0" :: "x" :: l)%char
    ∧ List.length l = 40%nat
    ∧ forallb is_lower_hex l = true.
Proof.
  intros Hm. apply search_found in Hm as (before & t & b' & y & Hq & Hy & Hw & _).
  pose proof (toLowerCase_lowered message) as Hlow. rewrite Hq in Hlow.
  rewrite forallb_app in Hlow. apply andb_true_iff in Hlow as [_ Hlow].
  unfold re_address in Hy. cbn [Seqs run groups_of] in Hy.
  apply in_flat_map in Hy as (x1 & (c0 & Hc0 & E0)%one_in & Hy).
  apply in_flat_map in Hy as (x2 & (c1 & Hc1 & E1)%one_in & Hy).
  apply repeat_in in Hy as (l & Hl & Hall & Hmin & Hmax & _); [|lia].
  cbn [rest] in Hc0. rewrite Hc0, Hc1, Hl in Hlow. cbn [forallb] in Hlow.
  apply andb_true_iff in Hlow as [_ Hlow].
  apply andb_true_iff in Hlow as [Hx Hlow].
  rewrite forallb_app in Hlow. apply andb_true_iff in Hlow as [Hlow _].
  apply lowered_zero in E0 as ->. apply (lowered_x _ Hx) in E1 as ->.
  assert (Ht : t = ("0" :: "x" :: l)%char ++ rest y).
  { rewrite Hc0, Hc1, Hl. reflexivity. }
  exists before, l, (rest y).
  rewrite Hw, Ht, consumed_app. split; [rewrite Hq, Ht; reflexivity|].
  split; [reflexivity|]. split; [lia|].
  apply (forallb_both _ _ _ _ lowered_hex Hlow Hall).
Qed.

(** X11. When the knowledge base answers that it detected an address, the
    address it echoes is [0x] followed by exactly forty hexadecimal digits
    in lower case, and it occurs in the lower-cased message. *)
Theorem generateFallbackResponse_address message errCode a :
  generateFallbackResponse message errCode = AddressDetected a →
  ∃ l, a = ("0" :: "x" :: l)%char
       ∧ List.length l = 40%nat
       ∧ forallb is_lower_hex l = true
       ∧ includes (toLowerCase message) a = true.
Proof.
  intros H. rewrite generateFallbackResponse_ordered in H.
  unfold ordered_answer, rules in H.
  cbn [first_match keywords address_rule applies respond] in H.
  repeat match type of H with
         | context [has ?q ?ws] => destruct (has q ws); [discriminate H|]
         end.
  destruct (js_match true re_address (toLowerCase message)) as [m|] eqn:Hm.
  2:{ repeat match type of H with
             | context [has ?q ?ws] => destruct (has q ws); [discriminate H|]
             end.
      discriminate H. }
  injection H as <-.
  destruct (address_found _ _ Hm) as (before & l & after & Hq & Hw & Hlen & Hall).
  exists l. split; [exact Hw|]. split; [exact Hlen|]. split; [exact Hall|].
  apply includes_occurs. exists before, after. exact Hq.
Qed.

Lemma generateFallbackResponse_address_witness :
  ∃ a l,
    generateFallbackResponse
      (of_string "who is 0x52908400098527886E0F7030069857D2E4169EE7 ?") None
    = AddressDetected a
    ∧ a = ("0" :: "x" :: l)%char
    ∧ List.length l = 40%nat
    ∧ forallb is_lower_hex l = true
    ∧ includes
        (toLowerCase (of_string "who is 0x52908400098527886E0F7030069857D2E4169EE7 ?"))
        a = true.
Proof.
  destruct (generateFallbackResponse_address
              (of_string "who is 0x52908400098527886E0F7030069857D2E4169EE7 ?") None
              (of_string "0x52908400098527886e0f7030069857d2e4169ee7"))
    as (l & Ha & Hl).
  - vm_compute. reflexivity.
  - eexists _, l. split; [vm_compute; reflexivity|]. split; [exact Ha|exact Hl].
Defined.

End EchoedAddress.

Import Routes.

(** ** The routes around the deploy dispatch *)

Section DeployRoutes.

Implicit Types (sv : Server) (sdk : Sdk) (p : DeployParams) (b : DeployBody).

(** X12. GET /api/agent/info and the deploy dispatch agree on the server
    wallet: when the route reports [configured], the viem clients exist
    and their account is the reported agent wallet; and when the clients
    cannot be made, so that every deployment is refused, the route reports
    the zero address and [configured: false]. *)
Theorem agent_info_configured sv :
  (configured (agent_info sv) = true →
     ∃ clients, getViemClients sv = Some clients
                ∧ account clients = agentWallet (agent_info sv))
  ∧ (getViemClients sv = None →
       configured (agent_info sv) = false
       ∧ agentWallet (agent_info sv) = zero_address).
Proof.
  unfold agent_info, getViemClients, AGENT_WALLET_ADDRESS; cbn [configured agentWallet].
  destruct (CONWAY_WALLET_PRIVATE_KEY sv) as [k|].
  2:{ split; [|split; reflexivity].
      rewrite bool_decide_eq_true_2 by reflexivity. discriminate. }
  destruct (nonempty k).
  2:{ split; [|split; reflexivity].
      rewrite bool_decide_eq_true_2 by reflexivity. discriminate. }
  destruct (privateKeyToAccount sv k) as [a|].
  - split; [|discriminate]. intros _. exists (mkClients a). split; reflexivity.
  - split; [|split; reflexivity].
    rewrite bool_decide_eq_true_2 by reflexivity. discriminate.
Qed.

Lemma or_default_nonempty f d : nonempty d = true → nonempty (or_default f d) = true.
Proof.
  intros Hd. unfold or_default. destruct f as [s|]; [|exact Hd].
  destruct (nonempty s) eqn:E; [exact E|exact Hd].
Qed.

(** X13. What [deployTokenViaSDK] hands to the SDK is never incomplete: in
    every call of [clanker.deploy] the name, the symbol, the token admin,
    the image and the description are non-empty, every social link has a
    non-empty address, and the reward shares add up to 10000 basis
    points. *)
Theorem deployTokenViaSDK_request_complete sv sdk p rq :
  In (CallDeploy rq) (fst (deployTokenViaSDK sv sdk p)) →
  nonempty (rq_name rq) = true
  ∧ nonempty (rq_symbol rq) = true
  ∧ nonempty (tokenAdmin rq) = true
  ∧ nonempty (image rq) = true
  ∧ nonempty (md_description (metadata rq)) = true
  ∧ Forall (fun l => nonempty (url l) = true) (socialMediaUrls (metadata rq))
  ∧ fold_right Z.add 0%Z (map bps (recipients rq)) = 10000%Z.
Proof.
  unfold deployTokenViaSDK.
  destruct (getViemClients sv) as [clients|]; [|intros []].
  destruct (Deploy.truthy (name p)) eqn:Hn; [|intros []].
  destruct (Deploy.truthy (symbol p)) eqn:Hs; [|intros []].
  destruct (Deploy.truthy (wallet p)) eqn:Hw; [|intros []].
  cbn [negb orb].
  intros Hin.
  assert (Hrq : rq = deploy_request sv (the (name p)) (the (symbol p))
                       (the (wallet p)) p).
  { destruct (sdk _); simpl in Hin;
      repeat (destruct Hin as [Hin|Hin]; [congruence|]); destruct Hin. }
  subst rq. cbn [deploy_request rq_name rq_symbol tokenAdmin image metadata
                 md_description socialMediaUrls recipients map bps fold_right].
  split; [apply (truthy_the _ Hn)|].
  split; [apply (truthy_the _ Hs)|].
  split; [apply (truthy_the _ Hw)|].
  split; [apply or_default_nonempty; reflexivity|].
  split.
  { apply or_default_nonempty.
    destruct (the (name p)); reflexivity. }
  split; [|reflexivity].
  unfold social_urls. apply Forall_app. split.
  - destruct (websiteUrl p) as [u|]; cbn [Deploy.truthy]; [|constructor].
    destruct (nonempty u) eqn:E; [|constructor].
    constructor; [|constructor]. cbn [url or_default]. rewrite E. exact E.
  - destruct (twitterUrl p) as [u|]; cbn [Deploy.truthy]; [|constructor].
    destruct (nonempty u) eqn:E; [|constructor].
    constructor; [|constructor]. cbn [url or_default]. rewrite E. exact E.
Qed.

Lemma deployTokenViaSDK_request_complete_witness :
  let rq := request_of sample_server sample_params in
  nonempty (rq_name rq) = true
  ∧ nonempty (rq_symbol rq) = true
  ∧ nonempty (tokenAdmin rq) = true
  ∧ nonempty (image rq) = true
  ∧ nonempty (md_description (metadata rq)) = true
  ∧ Forall (fun l => nonempty (url l) = true) (socialMediaUrls (metadata rq))
  ∧ fold_right Z.add 0%Z (map bps (recipients rq)) = 10000%Z.
Proof.
  apply (deployTokenViaSDK_request_complete sample_server sample_sdk sample_params).
  left. reflexivity.
Defined.

(** X14. POST /api/clanker/deploy records a launch exactly when it answers
    with the pending transaction.  A 400 answer means a required field was
    missing and nothing was done; a 500 answer records nothing; and with
    the 200 answer the SDK was called once, the confirmation wait was
    started, and the one recorded row carries the name, the symbol and the
    token admin of the request and the transaction hash of the answer. *)
Theorem clanker_deploy_outcomes sv sdk b :
  let turn := clanker_deploy sv sdk b in
  match dt_reply turn with
  | BadRequest _ =>
      (Deploy.truthy (b_name b) = false ∨ Deploy.truthy (b_symbol b) = false
       ∨ Deploy.truthy (b_tokenAdmin b) = false)
      ∧ dt_effects turn = [] ∧ dt_launches turn = []
  | ServerError _ =>
      dt_launches turn = []
      ∧ (List.length (deploy_calls (dt_effects turn)) <= 1)%nat
  | Pending txHash =>
      ∃ rq conf,
        dt_effects turn = [CallDeploy rq; CallWaitForTransaction]
        ∧ sdk rq = SdkOk txHash conf
        ∧ b_name b = Some (rq_name rq)
        ∧ b_symbol b = Some (rq_symbol rq)
        ∧ b_tokenAdmin b = Some (tokenAdmin rq)
        ∧ dt_launches turn =
            [ {| tl_name := rq_name rq; tl_symbol := rq_symbol rq;
                 tl_deployerWallet := tokenAdmin rq;
                 tl_txHash := Some txHash; tl_tokenAddress := None |} ]
  end.
Proof.
  cbv zeta. unfold clanker_deploy, deploy_route.
  destruct (Deploy.truthy (b_name b)) eqn:Hn; cbn [negb orb].
  2:{ cbn. auto. }
  destruct (Deploy.truthy (b_symbol b)) eqn:Hs; cbn [negb orb].
  2:{ cbn. auto. }
  destruct (Deploy.truthy (b_tokenAdmin b)) eqn:Hw; cbn [negb orb].
  2:{ cbn. auto 6. }
  unfold deployTokenViaSDK. cbn [name symbol wallet].
  destruct (getViemClients sv) as [clients|]; [|cbn; split; [reflexivity|lia]].
  rewrite Hn, Hs, Hw. cbn [negb orb].
  match goal with |- context [sdk ?r] => set (rq := r) end.
  destruct (sdk rq) as [msg|e|tx conf] eqn:Hsdk; cbn.
  - split; [reflexivity|lia].
  - split; [reflexivity|lia].
  - exists rq, conf. split; [reflexivity|]. split; [exact Hsdk|].
    cbn. destruct (truthy_the _ Hn) as [-> _].
    destruct (truthy_the _ Hs) as [-> _]. destruct (truthy_the _ Hw) as [-> _].
    cbn. auto.
Qed.

End DeployRoutes.

(** ** POST /api/chat *)

Section ChatRoute.

Implicit Types (sv : Server) (sdk : Sdk) (p : DeployParams).

(** X15. The deploy branch of POST /api/chat.  The stream it writes is a
    run of chunks closed by exactly one [done] frame.  It stores the
    message of the user and then one answer of the assistant.  The stored
    answer is the text that was streamed when the branch asked for a
    wallet and when the deployment succeeded; after a failed deployment
    the stored answer has two more line feeds before the failure notice
    than the stream had.  A launch is recorded exactly when the deployment
    succeeded. *)
Theorem chat_route_deploy_branch sv sdk message sessionId userWallet turn :
  chat_route sv sdk message sessionId userWallet = DeployBranch turn →
  (∃ cs, ct_frames turn = map Chunk cs ++ [Done])
  ∧ (∃ c, ct_stored turn = [user (the message); assistant c]
          ∧ match chat_step (the message) userWallet with
            | Dispatch params =>
                match snd (deployTokenViaSDK sv sdk params) with
                | Success _ => c = streamed (ct_frames turn)
                | Failure e =>
                    ∃ pre, streamed (ct_frames turn) = pre ++ fail_text e
                           ∧ c = pre ++ nl2 ++ fail_text e
                end
            | _ => c = streamed (ct_frames turn)
            end)
  ∧ (ct_launches turn ≠ [] ↔
       ∃ params txHash,
         chat_step (the message) userWallet = Dispatch params
         ∧ snd (deployTokenViaSDK sv sdk params) = Success txHash).
Proof.
  unfold chat_route. destruct (_ || _); [discriminate|]. cbv zeta.
  destruct (chat_step (the message) userWallet) as [|n s|params] eqn:Hstep;
    [discriminate| |].
  - generalize (ask_text n s) as ask. intros ask [= <-].
    cbv beta iota delta [ct_frames ct_stored ct_launches].
    split; [exists [ask]; reflexivity|].
    split.
    + exists ask. split; [reflexivity|]. cbn [streamed]. rewrite app_nil_r. reflexivity.
    + split; [intros H; contradiction H; reflexivity|].
      intros (? & ? & [=] & _).
  - generalize (preview_text params (the (wallet params))) as pre. intros pre.
    destruct (deployTokenViaSDK sv sdk params) as [effects [tx|e]] eqn:Hdep;
      cbv beta iota delta [snd].
    + generalize (success_text tx) as ok. intros ok [= <-].
      cbv beta iota delta [ct_frames ct_stored ct_launches].
      split; [exists [pre; nl2 ++ ok]; reflexivity|].
      split.
      * exists ((pre ++ nl2) ++ ok). split; [reflexivity|]. cbn [streamed].
        rewrite app_nil_r, <- app_assoc. reflexivity.
      * split; [intros _; exists params, tx; rewrite Hdep; split; reflexivity
               |discriminate].
    + generalize (fail_text e) as ko. intros ko [= <-].
      cbv beta iota delta [ct_frames ct_stored ct_launches].
      split; [exists [pre; ko]; reflexivity|].
      split.
      * exists ((pre ++ nl2) ++ ko). split; [reflexivity|].
        exists pre. cbn [streamed]. rewrite app_nil_r, <- app_assoc.
        split; reflexivity.
      * split; [intros H; contradiction H; reflexivity|].
        intros (? & ? & [= <-] & H). rewrite Hdep in H. discriminate H.
Qed.

Lemma chat_route_deploy_branch_witness :
  let sv := unconfigured_server in
  let sdk := sample_sdk in
  let message :=
    Some (of_string "Deploy token Name: Foo Symbol: FOO Wallet: 0x1111111111111111111111111111111111111111") in
  let userWallet := None in
  ∃ turn,
    chat_route sv sdk message (Some (of_string "session_1")) userWallet
    = DeployBranch turn
    ∧ (∃ cs, ct_frames turn = map Chunk cs ++ [Done])
    ∧ (∃ c, ct_stored turn = [user (the message); assistant c]
            ∧ match chat_step (the message) userWallet with
              | Dispatch params =>
                  match snd (deployTokenViaSDK sv sdk params) with
                  | Success _ => c = streamed (ct_frames turn)
                  | Failure e =>
                      ∃ pre, streamed (ct_frames turn) = pre ++ fail_text e
                             ∧ c = pre ++ nl2 ++ fail_text e
                  end
              | _ => c = streamed (ct_frames turn)
              end)
    ∧ (ct_launches turn ≠ [] ↔
         ∃ params txHash,
           chat_step (the message) userWallet = Dispatch params
           ∧ snd (deployTokenViaSDK sv sdk params) = Success txHash).
Proof.
  cbv zeta. eexists. split; [vm_compute; reflexivity|].
  apply (chat_route_deploy_branch unconfigured_server sample_sdk _
           (Some (of_string "session_1"))).
  vm_compute. reflexivity.
Defined.

End ChatRoute.

(** ** The chat history and the window the relay is given *)

Section HistoryWindow.

Implicit Types (db : Db) (l : list ChatMessage) (m row : ChatMessage).

Lemma insert_sorted_elem m l x : x ∈ insert_sorted m l ↔ x = m ∨ x ∈ l.
Proof.
  induction l as [|y l IH]; simpl.
  - rewrite elem_of_cons. tauto.
  - destruct (created_le m y); [rewrite elem_of_cons; tauto|].
    rewrite !elem_of_cons, IH. tauto.
Qed.

Lemma orderBy_elem l x : x ∈ orderBy_createdAt l ↔ x ∈ l.
Proof.
  unfold orderBy_createdAt. induction l as [|y l IH]; simpl; [reflexivity|].
  rewrite insert_sorted_elem, IH, elem_of_cons. tauto.
Qed.

Lemma insert_sorted_before m l row :
  created_le m row = true →
  insert_sorted m (l ++ [row]) = insert_sorted m l ++ [row].
Proof.
  intros Hle. induction l as [|y l IH]; simpl.
  - rewrite Hle. reflexivity.
  - destruct (created_le m y); [reflexivity|]. rewrite IH. reflexivity.
Qed.

Lemma orderBy_newest l row :
  (∀ m, m ∈ l → created_le m row = true) →
  orderBy_createdAt (l ++ [row]) = orderBy_createdAt l ++ [row].
Proof.
  unfold orderBy_createdAt. induction l as [|y l IH]; intros H; [reflexivity|].
  simpl. rewrite IH by (intros m Hm; apply H; apply elem_of_cons; auto).
  apply insert_sorted_before. apply H. apply elem_of_cons. auto.
Qed.

(** The history of a session after a message was added to it at a time
    later than all its rows: the new row comes last. *)
Lemma history_after_add db now msg :
  all_older db (ins_sessionId msg) now →
  getChatHistory (fst (addChatMessage db now msg)) (ins_sessionId msg)
  = getChatHistory db (ins_sessionId msg) ++ [snd (addChatMessage db now msg)].
Proof.
  intros Hold. unfold getChatHistory, addChatMessage. cbn [fst snd chatMessages].
  rewrite filter_app, filter_cons, filter_nil. cbn [sessionId].
  destruct (decide (ins_sessionId msg = ins_sessionId msg)) as [_|Hne];
    [|contradiction Hne; reflexivity].
  apply orderBy_newest. intros m Hm.
  apply list_elem_of_filter in Hm as [Hs Hm].
  destruct (Hold m Hm Hs) as (t & Ht & Hlt).
  unfold created_le. rewrite Ht. cbn [createdAt]. apply Z.leb_le. lia.
Qed.

(** X16. Adding a chat message touches the history of its own session only.
    The returned row carries the role and the content that were given; the
    history of its session is from then on the rows it had and the new
    row, which comes last when the rows of the session are all older;
    every other session reads the same history as before. *)
Theorem addChatMessage_history db now msg :
  let db' := fst (addChatMessage db now msg) in
  let row := snd (addChatMessage db now msg) in
  Storage.role row = ins_role msg
  ∧ Storage.content row = ins_content msg
  ∧ (∀ m, m ∈ getChatHistory db' (ins_sessionId msg)
          ↔ m = row ∨ m ∈ getChatHistory db (ins_sessionId msg))
  ∧ (all_older db (ins_sessionId msg) now →
       List.last (getChatHistory db' (ins_sessionId msg)) row = row)
  ∧ (∀ s, s ≠ ins_sessionId msg → getChatHistory db' s = getChatHistory db s).
Proof.
  cbv zeta. split; [reflexivity|]. split; [reflexivity|]. split; [|split].
  - intros m. unfold getChatHistory. rewrite !orderBy_elem.
    unfold addChatMessage. cbn [fst snd chatMessages].
    rewrite filter_app, filter_cons, filter_nil. cbn [sessionId].
    destruct (decide (ins_sessionId msg = ins_sessionId msg)) as [_|Hne];
      [|contradiction Hne; reflexivity].
    rewrite elem_of_app, elem_of_cons, elem_of_nil. tauto.
  - intros Hold. rewrite (history_after_add _ _ _ Hold). apply last_last.
  - intros s Hs. unfold getChatHistory, addChatMessage. cbn [fst chatMessages].
    rewrite filter_app, filter_cons, filter_nil. cbn [sessionId].
    destruct (decide (ins_sessionId msg = s)) as [Heq|_]; [congruence|].
    rewrite app_nil_r. reflexivity.
Qed.

Lemma slice_last_length {A} n (l : list A) :
  (List.length (slice_last n l) <= n)%nat.
Proof. unfold slice_last. rewrite length_skipn. lia. Qed.

Lemma slice_last_last {A} n (l : list A) (x d : A) :
  (0 < n)%nat → List.last (slice_last n (l ++ [x])) d = x.
Proof.
  intros Hn. unfold slice_last. rewrite length_app. cbn [List.length].
  rewrite skipn_app.
  replace (List.length l + 1 - n - List.length l)%nat with 0%nat by lia.
  cbn [skipn]. apply last_last.
Qed.

Lemma last_map {A B} (f : A → B) (l : list A) (d : A) :
  List.last (map f l) (f d) = f (List.last l d).
Proof.
  induction l as [|a l IH]; [reflexivity|].
  simpl. destruct l; [reflexivity|exact IH].
Qed.

(** Every request of a turn carries the body made from the messages the
    turn was given. *)
Lemma callConwayAI_bodies (w : World) msgs rq :
  In rq (requests (callConwayAI w msgs)) → rq_body rq = bodyStr msgs.
Proof.
  assert (Hpay : ∀ clients body402 rq0,
            In rq0 (requests (fst (pay_and_retry w clients msgs body402))) →
            rq_body rq0 = bodyStr msgs).
  { intros clients body402 rq0 Hin.
    pose proof (pay_and_retry_requests w clients msgs body402) as H.
    cbv zeta in H. destruct H as [H|(v & r & h & _ & H & _)]; rewrite H in Hin.
    - destruct Hin.
    - destruct Hin as [<-|[]]. reflexivity. }
  unfold callConwayAI.
  destruct (getViemClients (server w)) as [clients|]; [|intros []].
  unfold send. cbn [emit await bind fst snd app].
  destruct (httpsPostStream w [] (first_request msgs)) as [r1|msg] eqn:Hpost.
  2:{ cbn. intros [<-|[]]. reflexivity. }
  destruct (status r1 =? 200)%Z.
  { destruct (readSseStream w (stream r1)) as [tr1 [[]|msg1]] eqn:Hread; cbn;
      rewrite ?requests_app, (readSseStream_requests _ _ _ _ Hread); cbn;
      intros [<-|[]]; reflexivity. }
  destruct (status r1 =? 402)%Z; cbn [negb].
  2:{ destruct (readBody_cases (stream r1)) as [Hb|[msg Hb]]; rewrite Hb; cbn;
        intros [<-|[]]; reflexivity. }
  destruct (readBody_cases (stream r1)) as [Hb|[msg Hb]]; rewrite Hb;
    [|cbn; intros [<-|[]]; reflexivity].
  cbn [bind fst snd app].
  specialize (Hpay clients (concat (chunks (stream r1)))).
  destruct (pay_and_retry w clients msgs (concat (chunks (stream r1))))
    as [tr2 [[]|msg2]]; cbn [fst snd app bind try_catch emit requests] in Hpay |- *;
    rewrite ?requests_app; cbn [requests app];
    intros [<-|Hin]; try reflexivity.
  - apply Hpay. exact Hin.
  - apply in_app_or in Hin as [Hin|[]]. apply Hpay, Hin.
Qed.

(** X17. The regular chat of POST /api/chat gives the relay a bounded
    window of the conversation: at most the last 18 rows of the session,
    so that every request to the inference endpoint carries the system
    prompt and at most 18 more messages; and when the rows of the session
    are all older than the message of the user just stored, that message
    is the last one of the window. *)
Theorem relay_messages_window (w : World) db now sessionId message :
  let msgs := relay_messages db now sessionId message in
  (List.length msgs <= 18)%nat
  ∧ (∀ rq, In rq (requests (callConwayAI w msgs)) →
           messages (rq_body rq)
           = mkMessage (of_string "system") SYSTEM_PROMPT :: msgs
           ∧ (List.length (messages (rq_body rq)) <= 19)%nat)
  ∧ (all_older db sessionId now →
       List.last msgs (mkMessage [] [])
       = mkMessage (of_string "user") (of_string message)).
Proof.
  cbv zeta. unfold relay_messages.
  set (insert := mkInsertChatMessage sessionId "user" message).
  assert (Hlen : (List.length
                    (map relay_message
                       (slice_last 18
                          (getChatHistory (fst (addChatMessage db now insert))
                             sessionId))) <= 18)%nat).
  { rewrite length_map. apply slice_last_length. }
  split; [exact Hlen|]. split.
  - intros rq Hin. rewrite (callConwayAI_bodies _ _ _ Hin). cbn [bodyStr messages].
    split; [reflexivity|]. cbn [List.length]. lia.
  - intros Hold.
    pose proof (history_after_add db now insert) as Hh.
    change (ins_sessionId insert) with sessionId in Hh. rewrite (Hh Hold).
    set (row := snd (addChatMessage db now insert)).
    change (mkMessage [] []) with (relay_message (mkChatMessage 0 "" "" "" None)).
    rewrite last_map, slice_last_last by lia. reflexivity.
Qed.

End HistoryWindow.

Import Client.

(** ** The client *)

Section ClientLib.

Implicit Types (addr w : str) (b : Browser).

Lemma slice_from_end_app (n : nat) (l t : str) :
  (0 < n)%nat → List.length t = n → slice_from_end n (l ++ t) = t.
Proof.
  intros Hn Ht. unfold slice_from_end.
  destruct (Nat.eqb n 0) eqn:E; [apply Nat.eqb_eq in E; lia|].
  rewrite length_app, skipn_app.
  replace (List.length l + List.length t - n)%nat with (List.length l) by lia.
  rewrite skipn_all, Nat.sub_diag. reflexivity.
Qed.

Lemma slice_from_end_length (n : nat) (l : str) :
  (0 < n)%nat → (n <= List.length l)%nat → List.length (slice_from_end n l) = n.
Proof.
  intros Hn Hl. unfold slice_from_end.
  destruct (Nat.eqb n 0) eqn:E; [apply Nat.eqb_eq in E; lia|].
  rewrite length_skipn. lia.
Qed.

(** X18. [truncateAddress] with a positive [end] count: the result has at
    most [start + end + 3] characters, and truncating it again changes
    nothing.  With an [end] count of 0 the last part is not empty:
    [addr.slice(-0)] is all of [addr], so the result holds the whole
    address after the dots. *)
Theorem truncateAddress_idempotent addr (start end_ : nat) :
  ((0 < end_)%nat →
     (List.length (truncateAddress addr start end_) <= start + end_ + 3)%nat
     ∧ truncateAddress (truncateAddress addr start end_) start end_
       = truncateAddress addr start end_)
  ∧ ((start + 2 <= List.length addr)%nat →
       truncateAddress addr start 0
       = firstn start addr ++ of_string "..." ++ addr).
Proof.
  split.
  - intros Hend. unfold truncateAddress at 1 3 4.
    destruct (negb (nonempty addr) || Nat.ltb (List.length addr) (start + end_ + 2))
      eqn:Hshort.
    + split.
      * apply orb_true_iff in Hshort as [Hempty|Hlt%Nat.ltb_lt]; [|lia].
        destruct addr; [simpl; lia|discriminate].
      * unfold truncateAddress. rewrite Hshort. reflexivity.
    + apply orb_false_iff in Hshort as [_ Hlong%Nat.ltb_ge].
      set (head := firstn start addr). set (tail := slice_from_end end_ addr).
      assert (Hhead : List.length head = start).
      { unfold head. rewrite length_firstn. lia. }
      assert (Htail : List.length tail = end_).
      { unfold tail. apply slice_from_end_length; lia. }
      split; [rewrite !length_app, Hhead, Htail; simpl; lia|].
      unfold truncateAddress.
      assert (Hlen : List.length (head ++ of_string "..." ++ tail) = (start + 3 + end_)%nat).
      { rewrite !length_app, Hhead, Htail. simpl. lia. }
      rewrite Hlen.
      destruct (Nat.ltb (start + 3 + end_) (start + end_ + 2)) eqn:E;
        [apply Nat.ltb_lt in E; lia|].
      assert (Hne : nonempty (head ++ of_string "..." ++ tail) = true).
      { destruct head; reflexivity. }
      rewrite Hne. cbn [negb orb].
      rewrite firstn_app, Hhead, Nat.sub_diag, firstn_O, app_nil_r.
      rewrite firstn_all2 by lia.
      rewrite (app_assoc head (of_string "...") tail) at 1.
      rewrite slice_from_end_app by assumption. reflexivity.
  - intros Hlong. unfold truncateAddress, slice_from_end. cbn [Nat.eqb].
    destruct addr as [|c addr]; [simpl in Hlong; lia|]. cbn [nonempty negb orb].
    destruct (Nat.ltb _ _) eqn:E; [apply Nat.ltb_lt in E; lia|]. reflexivity.
Qed.

Example truncateAddress_samples :
  truncateAddress address_1 6 4 = of_string "0x1111...1111"
  ∧ truncateAddress (of_string "0x1111...1111") 6 4 = of_string "0x1111...1111"
  ∧ truncateAddress (of_string "0x123456789a") 6 4 = of_string "0x1234...789a"
  ∧ truncateAddress (of_string "0x123456789") 6 4 = of_string "0x123456789"
  ∧ truncateAddress (of_string "0x12345678") 6 0 = of_string "0x1234...0x12345678".
Proof. vm_compute. repeat split; reflexivity. Qed.

(** X19. The session id of a tab is stable: once [getOrCreateSessionId] has
    run, running it again gives the same id and leaves the storage as it
    is, whatever the clock and the random generator say then.  The id is
    never empty, the key is gone from the local storage, and the stored
    wallet is not touched. *)
Theorem getOrCreateSessionId_stable (now rnd now' rnd' : str) b :
  let b1 := fst (getOrCreateSessionId now rnd b) in
  let id := snd (getOrCreateSessionId now rnd b) in
  getOrCreateSessionId now' rnd' b1 = (b1, id)
  ∧ nonempty id = true
  ∧ sessionStorage b1 !! SESSION_ID_KEY = Some id
  ∧ localStorage b1 !! SESSION_ID_KEY = None
  ∧ getUserWallet b1 = getUserWallet b.
Proof.
  cbv zeta.
  assert (Hwallet : ∀ m : gmap string str,
            delete SESSION_ID_KEY m !! WALLET_KEY = m !! WALLET_KEY).
  { intros m. apply lookup_delete_ne. discriminate. }
  unfold getOrCreateSessionId. cbv zeta.
  destruct (sessionStorage b !! SESSION_ID_KEY) as [id|] eqn:Hid.
  - destruct (nonempty id) eqn:Hne; cbn [fst snd localStorage sessionStorage].
    + rewrite Hid, Hne, delete_delete_eq.
      split; [reflexivity|]. split; [reflexivity|]. split; [reflexivity|].
      split; [apply lookup_delete_eq|].
      unfold getUserWallet. cbn [localStorage]. rewrite Hwallet. reflexivity.
    + rewrite lookup_insert_eq, delete_delete_eq. cbn [nonempty of_string
        list_ascii_of_string app].
      split; [reflexivity|]. split; [reflexivity|]. split; [reflexivity|].
      split; [apply lookup_delete_eq|].
      unfold getUserWallet. cbn [localStorage]. rewrite Hwallet. reflexivity.
  - cbn [fst snd localStorage sessionStorage].
    rewrite lookup_insert_eq, delete_delete_eq. cbn [nonempty of_string
      list_ascii_of_string app].
    split; [reflexivity|]. split; [reflexivity|]. split; [reflexivity|].
    split; [apply lookup_delete_eq|].
    unfold getUserWallet. cbn [localStorage]. rewrite Hwallet. reflexivity.
Qed.

End ClientLib.

(** ** The wallet forms and the forms that deploy *)

Section ClientForms.

Implicit Types (b : Browser) (w : str) (p : DeployParams).

Lemma getUserWallet_set w b :
  nonempty w = true → getUserWallet (setUserWallet w b) = w.
Proof.
  intros Hw. unfold getUserWallet, setUserWallet. cbn [localStorage].
  rewrite lookup_insert_eq. simpl. rewrite Hw. reflexivity.
Qed.

Lemma saveWallet_ok input b : wallet_store_ok b → wallet_store_ok (saveWallet input b).
Proof.
  intros Hb. unfold saveWallet. cbv zeta.
  destruct (isValidWallet (trim input)) eqn:Hv; [|exact Hb].
  right. rewrite getUserWallet_set by apply isValidWallet_nonempty, Hv. exact Hv.
Qed.

Lemma saveWallets_ok inputs : ∀ b, wallet_store_ok b → wallet_store_ok (saveWallets inputs b).
Proof.
  unfold saveWallets. induction inputs as [|i inputs IH]; intros b Hb; [exact Hb|].
  simpl. apply IH, saveWallet_ok, Hb.
Qed.

(** What the chat route hands to the dispatch when the wallet it was sent
    has passed the check of the wallet forms. *)
Lemma chat_step_valid_wallet message uw p :
  uw = [] ∨ isValidWallet uw = true →
  chat_step message (Some uw) = Dispatch p →
  ∃ w, wallet p = Some w ∧ isValidWallet w = true.
Proof.
  intros Huw. unfold chat_step.
  destruct (parseDeployMessage message) as [p0|] eqn:Hp; [|discriminate].
  destruct (_ && _); [|discriminate]. cbv zeta.
  destruct (negb (nonempty (walletToUse p0 (Some uw))) || _) eqn:Hguard; [discriminate|].
  intros [= <-]. cbn [with_wallet wallet]. eexists. split; [reflexivity|].
  apply orb_false_iff in Hguard as [Hne%negb_false_iff _].
  unfold walletToUse in *. unfold or_default at 1 in Hne. unfold or_default at 1.
  destruct (wallet p0) as [a|] eqn:Ha.
  - destruct (nonempty a) eqn:Hna.
    + apply (parsed_wallet_valid message). unfold parsed_wallet. rewrite Hp. exact Ha.
    + simpl in *. destruct (nonempty uw) eqn:E; [|discriminate].
      destruct Huw as [->|H]; [discriminate|exact H].
  - simpl in *. destruct (nonempty uw) eqn:E; [|discriminate].
    destruct Huw as [->|H]; [discriminate|exact H].
Qed.

(** X20. The wallet forms keep the stored wallet well formed, and the chat
    page passes that on: starting from a storage whose wallet is absent or
    valid, after any series of submissions of the wallet forms the stored
    wallet is absent or is 42 characters that start with [0x]; and
    whatever message [sendMessage] then posts, a wallet that the chat
    route hands to the deploy dispatch is 42 characters that start with
    [0x]. *)
Theorem saved_wallet_dispatch inputs b text :
  wallet_store_ok b →
  let b' := saveWallets inputs b in
  wallet_store_ok b'
  ∧ ∀ message userWallet p,
      chat_request text b' = Some (message, userWallet) →
      chat_step message (Some userWallet) = Dispatch p →
      ∃ w, wallet p = Some w ∧ isValidWallet w = true.
Proof.
  intros Hb. cbv zeta. pose proof (saveWallets_ok inputs b Hb) as Hb'.
  split; [exact Hb'|].
  intros message uw p Hreq. unfold chat_request in Hreq.
  destruct (negb _); [discriminate|]. injection Hreq as <- <-.
  apply chat_step_valid_wallet. exact Hb'.
Qed.

Lemma saved_wallet_dispatch_witness :
  let b := mkBrowser ∅ ∅ in
  let inputs := [ of_string "0xabc";
                  of_string "  0x1111111111111111111111111111111111111111 " ] in
  let text := of_string "Deploy token Name: Foo Symbol: BAR" in
  let b' := saveWallets inputs b in
  wallet_store_ok b'
  ∧ ∀ message userWallet p,
      chat_request text b' = Some (message, userWallet) →
      chat_step message (Some userWallet) = Dispatch p →
      ∃ w, wallet p = Some w ∧ isValidWallet w = true.
Proof.
  apply (saved_wallet_dispatch _ (mkBrowser ∅ ∅)). left. reflexivity.
Defined.

Lemma toUpperCase_nonempty (s : str) : nonempty (toUpperCase s) = nonempty s.
Proof. destruct s; reflexivity. Qed.

(** X21. The launch form never gets the 400 answer.  The form is shown for
    a wallet of the page that passes the check of the wallet forms; a body
    it posts to /api/clanker/deploy has a name, a symbol and that wallet
    as token admin, so the route goes on to the dispatch with exactly that
    wallet. *)
Theorem launch_form_accepted (sv : Server) (sdk : Sdk) w form body :
  isValidWallet w = true →
  launch_handleSubmit w form = Some body →
  (∃ p, deploy_route body = Some p ∧ wallet p = Some w
        ∧ name p = Some (trim (lf_name form)))
  ∧ ∀ e, dt_reply (clanker_deploy sv sdk body) ≠ BadRequest e.
Proof.
  intros Hw Hsub. unfold launch_handleSubmit in Hsub.
  destruct (negb (nonempty (trim (lf_name form)))) eqn:Hn; [discriminate|].
  destruct (negb (nonempty (trim (lf_symbol form)))) eqn:Hs; [discriminate|].
  apply negb_false_iff in Hn, Hs. injection Hsub as <-.
  assert (Hroute : ∃ p, deploy_route
                          {| b_name := Some (trim (lf_name form));
                             b_symbol := Some (toUpperCase (trim (lf_symbol form)));
                             b_tokenAdmin := Some w;
                             b_description := or_undefined (trim (lf_description form));
                             b_imageUrl := or_undefined (trim (lf_imageUrl form));
                             b_websiteUrl := or_undefined (trim (lf_websiteUrl form));
                             b_twitterUrl := or_undefined (trim (lf_twitterUrl form)) |}
                        = Some p
                        ∧ wallet p = Some w ∧ name p = Some (trim (lf_name form))).
  { unfold deploy_route. cbn [b_name b_symbol b_tokenAdmin Deploy.truthy].
    rewrite Hn, toUpperCase_nonempty, Hs, (isValidWallet_nonempty _ Hw).
    cbn [negb orb]. eexists. split; [reflexivity|]. split; reflexivity. }
  split; [exact Hroute|].
  intros e. unfold clanker_deploy. destruct Hroute as (p & -> & _).
  destruct (deployTokenViaSDK sv sdk p) as [effects [tx|err]]; discriminate.
Qed.

Lemma launch_form_accepted_witness :
  let w := address_1 in
  let form := mkLaunchFormData (of_string " Foo ") (of_string "foo") [] [] [] [] in
  ∃ body,
    launch_handleSubmit w form = Some body
    ∧ (∃ p, deploy_route body = Some p ∧ wallet p = Some w
            ∧ name p = Some (trim (lf_name form)))
    ∧ ∀ e, dt_reply (clanker_deploy sample_server sample_sdk body) ≠ BadRequest e.
Proof.
  cbv zeta. eexists. split; [reflexivity|].
  apply (launch_form_accepted sample_server sample_sdk address_1
           (mkLaunchFormData (of_string " Foo ") (of_string "foo") [] [] [] []));
    reflexivity.
Defined.

End ClientForms.

(** ** The answer of /api/chat, from the server to the page *)

Section ChatStream.

Variable stringify : jsval → str.
Variable parse : str → option jsval.

Implicit Types (f : Frame) (frames : list Frame) (values : list str).

Lemma client_chunks_lines values :
  ∀ buffer acc,
    client_chunks parse buffer acc values
    = fold_left (client_line parse) (complete_lines buffer values) acc.
Proof.
  induction values as [|v values IH]; intros buffer acc; [reflexivity|].
  cbn [client_chunks complete_lines]. cbv zeta.
  rewrite IH, fold_left_app. reflexivity.
Qed.

(** The lines of the text of a run of frames: for each frame its [data:]
    line and an empty line. *)
Lemma frames_lines frames :
  (∀ f, In f frames → codec_ok stringify parse f) →
  List.removelast (split_lines [] (flat_map (frame_text stringify) frames))
  = flat_map (fun f => [of_string "data: " ++ stringify (frame_value f); []]) frames.
Proof.
  induction frames as [|f frames IH]; intros Hok; [reflexivity|].
  cbn [flat_map]. unfold frame_text at 1.
  destruct (Hok f (or_introl eq_refl)) as [Hnl _].
  change (((of_string "data: " ++ stringify (frame_value f) ++ [nl; nl])
           ++ flat_map (frame_text stringify) frames))
    with (of_string "data: "
          ++ ((stringify (frame_value f) ++ [nl; nl])
              ++ flat_map (frame_text stringify) frames)).
  rewrite <- (app_assoc (stringify (frame_value f))).
  rewrite (app_assoc (of_string "data: ")).
  rewrite split_lines_prefix.
  2:{ unfold no_nl in *. rewrite forallb_app. rewrite Hnl. reflexivity. }
  cbn [app split_lines Ascii.eqb Bool.eqb nl]. rewrite app_nil_r, rev_involutive.
  rewrite <- IH by (intros f' Hf'; apply Hok; right; exact Hf').
  destruct (split_lines [] (flat_map (frame_text stringify) frames)) eqn:E;
    [exfalso; exact (split_lines_nonempty _ _ E)|].
  reflexivity.
Qed.

Lemma client_line_frame acc f :
  codec_ok stringify parse f →
  client_line parse acc (of_string "data: " ++ stringify (frame_value f))
  = acc ++ contents [f].
Proof.
  intros [_ Hparse]. unfold client_line.
  change (startsWith (of_string "data: " ++ stringify (frame_value f)) "data: ")
    with (startsWith (stringify (frame_value f)) []).
  replace (startsWith (stringify (frame_value f)) []) with true
    by (destruct (stringify (frame_value f)); reflexivity).
  cbn [negb]. change (skipn 6 (of_string "data: " ++ ?x)) with x.
  rewrite Hparse. destruct f as [c|]; cbn [frame_value prop nullish own contents].
  - rewrite lookup_insert_ne by discriminate. rewrite !lookup_insert_eq.
    cbn [Js.truthy]. destruct c as [|a c]; [rewrite app_nil_r; reflexivity|].
    reflexivity.
  - rewrite lookup_insert_eq, lookup_insert_ne by discriminate.
    rewrite lookup_empty. cbn [Js.truthy]. rewrite app_nil_r. reflexivity.
Qed.

Lemma contents_cons f frames : contents (f :: frames) = contents [f] ++ contents frames.
Proof.
  destruct f as [c|]; cbn [contents]; [|reflexivity].
  destruct (nonempty c); reflexivity.
Qed.

Lemma fold_frames frames :
  (∀ f, In f frames → codec_ok stringify parse f) →
  ∀ acc,
    fold_left (client_line parse)
      (flat_map (fun f => [of_string "data: " ++ stringify (frame_value f); []]) frames)
      acc
    = acc ++ contents frames.
Proof.
  induction frames as [|f frames IH]; intros Hok acc; [symmetry; apply app_nil_r|].
  cbn [flat_map app fold_left].
  rewrite (client_line_frame _ _ (Hok f (or_introl eq_refl))).
  change (client_line parse (acc ++ contents [f]) []) with (acc ++ contents [f]).
  rewrite IH by (intros f' Hf'; apply Hok; right; exact Hf').
  rewrite (contents_cons f frames), app_assoc. reflexivity.
Qed.

Lemma shown_contents frames : shown (contents frames) = streamed frames.
Proof.
  induction frames as [|[c|] frames IH]; cbn [contents streamed]; [reflexivity| |exact IH].
  destruct c as [|a c]; cbn [nonempty]; [exact IH|].
  cbn [shown]. rewrite IH. unfold of_string, to_string.
  rewrite list_ascii_of_string_of_list_ascii. reflexivity.
Qed.

(** X22. The chat page shows what the server sent.  Let the server write a
    run of frames with [sendChunk] and [sendDone], and let the text reach
    [sendMessage] cut into pieces at any places.  When [JSON.stringify]
    puts no line feed into the text of a frame and [JSON.parse] gives the
    frame back, the values the page appends to [fullContent] are, in
    order, the contents of the chunks that are not empty: no chunk is
    lost, doubled or split, the [done] frame adds nothing, and the text
    shown in the end is the text of the chunks put together. *)
Theorem readChatStream_frames frames values :
  (∀ f, In f frames → codec_ok stringify parse f) →
  concat values = flat_map (frame_text stringify) frames →
  readChatStream parse values = contents frames
  ∧ shown (readChatStream parse values) = streamed frames.
Proof.
  intros Hok Htext.
  assert (H : readChatStream parse values = contents frames).
  { unfold readChatStream.
    rewrite client_chunks_lines, complete_lines_concat by reflexivity.
    cbn [app]. rewrite Htext, (frames_lines _ Hok). apply (fold_frames _ Hok). }
  split; [exact H|]. rewrite H. apply shown_contents.
Qed.

End ChatStream.

Lemma readChatStream_frames_witness :
  let values :=
    [ of_string "data: {h"; of_string "i}"; [nl]; nl :: of_string "da";
      of_string "ta: {done}" ++ [nl; nl] ] in
  readChatStream sample_frame_parse values = contents sample_frames
  ∧ shown (readChatStream sample_frame_parse values) = streamed sample_frames.
Proof.
  apply (readChatStream_frames sample_stringify sample_frame_parse sample_frames).
  - intros f [<-|[<-|[]]]; split; vm_compute; reflexivity.
  - vm_compute. reflexivity.
Defined.

(** ** From the deploy panel to the dispatch *)

Section PanelMessage.

Implicit Types (c : ascii) (foo bar w h t : str).

Ltac panel_step :=
  rewrite one_cons; cbv beta;
  match goal with
  | |- context [if ?cnd then _ else _] =>
      let E := fresh "E" in
      destruct cnd eqn:E; [try (vm_compute in E; discriminate E)|];
      cbn [flat_map app]
  end.

Lemma lookahead_at_symbol_line b t s :
  run true name_lookahead
    (MState b (nl :: of_string "Symbol: " ++ t) [(1%nat, s)])
  = [MState b (nl :: of_string "Symbol: " ++ t) [(1%nat, s)]].
Proof. vm_compute. reflexivity. Qed.

Lemma name_of_panel_message c foo bar w :
  is_letter c = true → forallb is_alnum foo = true →
  ∃ m, js_match true re_name1 (panel_message (c :: foo) bar w) = Some m
       ∧ g1 m = c :: foo.
Proof.
  intros Hc Hfoo.
  unfold js_match, panel_message.
  set (T := bar ++ nl :: of_string "Wallet: " ++ w).
  change (of_string "Deploy token" ++ nl :: of_string "Name: " ++ (c :: foo)
          ++ nl :: of_string "Symbol: " ++ T)
    with ("D" :: "e" :: "p" :: "l" :: "o" :: "y" :: " " :: "t" :: "o" :: "k"
          :: "e" :: "n" :: "010" :: "N" :: "a" :: "m" :: "e" :: ":" :: " "
          :: c :: foo ++ nl :: of_string "Symbol: " ++ T)%char.
  do 13 (rewrite search_miss by reflexivity).
  eexists. split.
  - apply search_hit. unfold re_name1. cbn [Seqs].
    eapply hd_seq; [apply hd_is_cons|].
    eapply hd_seq; [apply hd_is_cons|].
    eapply hd_seq.
    { cbn [run Plus colon_or_space groups_of rest].
      change (":" :: " " :: c :: foo ++ nl :: of_string "Symbol: " ++ T)%char
        with ([":"; " "]%char ++ (c :: foo ++ nl :: of_string "Symbol: " ++ T)).
      apply greedy_head.
      - reflexivity.
      - right. split; [|exact I]. apply alnum_not_separator, letter_alnum, Hc.
      - simpl; lia.
      - simpl; lia. }
    cbn [last_char fold_left].
    change (run true (Seq (Group 1 (PlusLazy (NClass [CChar nl; CChar ","; CChar ";"]))) name_lookahead) ?x)
      with (flat_map (run true name_lookahead)
              (map (fun y => set_cap 1 (consumed (rest x) (rest y)) y)
                 (run true (PlusLazy (NClass [CChar nl; CChar ","; CChar ";"])) x))).
    cbn [caps rest prev]. rewrite flat_map_of_map.
    set (LA := run true name_lookahead).
    cbn [run PlusLazy groups_of rest].
    eapply lazy_first1.
    + cbn [forallb]. rewrite (alnum_in_name _ (letter_alnum _ Hc)).
      apply forallb_alnum_in_name, Hfoo.
    + cbn [List.length]. rewrite length_app. lia.
    + intros l1 c' l2 Hsplit. unfold LA, set_cap. cbn [prev rest caps].
      apply lookahead_after_alnum.
      rewrite Hsplit in Hfoo. rewrite forallb_app in Hfoo.
      apply andb_true_iff in Hfoo as [_ Hfoo]. simpl in Hfoo.
      apply andb_true_iff in Hfoo as [Hfoo _]. exact Hfoo.
    + unfold LA, set_cap. cbn [prev rest caps].
      rewrite lookahead_at_symbol_line. apply hd_is_cons.
  - cbn [caps]. unfold g1, group. cbn [groups get_cap List.find fst snd Nat.eqb].
    change (c :: foo ++ nl :: of_string "Symbol: " ++ T)
      with ((c :: foo) ++ nl :: of_string "Symbol: " ++ T).
    apply consumed_app.
Qed.

(** A token name is not mistaken for the keyword of the symbol pattern. *)
Lemma symbol_not_in_panel_name c foo t :
  is_letter c = true → forallb is_alnum foo = true →
  eq_ci (c :: foo) "symbol" = false → eq_ci (c :: foo) "ticker" = false →
  run true re_symbol1
    (MState (Some " "%char) (c :: foo ++ nl :: of_string "Symbol: " ++ t) []) = [].
Proof.
  intros Hc Hfoo Hs Ht.
  apply run_after_boundary.
  unfold re_symbol1. cbn [Seqs]. set (R := Seq (Plus colon_or_space) _).
  destruct foo as [|a1 [|a2 [|a3 [|a4 [|a5 [|a6 foo]]]]]];
    cbn [eq_ci of_string list_ascii_of_string] in Hs, Ht;
    cbn [forallb] in Hfoo;
    repeat (apply andb_true_iff in Hfoo as [? Hfoo]);
    cbn [run Lit of_string list_ascii_of_string app canon];
    repeat panel_step; try reflexivity;
    try (cbn [andb] in Hs; discriminate Hs);
    try (cbn [andb] in Ht; discriminate Ht);
    unfold R; rewrite !separator_needed by assumption; reflexivity.
Qed.

Lemma symbol_of_panel_message c foo bar w :
  token_name (c :: foo) = true → ticker_symbol bar = true →
  ∃ m, js_match true re_symbol1 (panel_message (c :: foo) bar w) = Some m
       ∧ g1 m = bar.
Proof.
  unfold token_name, ticker_symbol.
  intros [[[Hc Hfoo]%andb_true_iff Hs%negb_true_iff]%andb_true_iff
            Ht%negb_true_iff]%andb_true_iff
         [[Hbar Hmin%Nat.leb_le]%andb_true_iff Hmax%Nat.leb_le]%andb_true_iff.
  destruct bar as [|b0 bar]; [simpl in Hmin; lia|].
  pose proof Hbar as Hbar'. cbn [forallb] in Hbar'.
  apply andb_true_iff in Hbar' as [Hb0 _].
  unfold js_match, panel_message.
  set (T := nl :: of_string "Wallet: " ++ w).
  change (of_string "Deploy token" ++ nl :: of_string "Name: " ++ (c :: foo)
          ++ nl :: of_string "Symbol: " ++ (b0 :: bar) ++ T)
    with ("D" :: "e" :: "p" :: "l" :: "o" :: "y" :: " " :: "t" :: "o" :: "k"
          :: "e" :: "n" :: "010" :: "N" :: "a" :: "m" :: "e" :: ":" :: " "
          :: c :: foo ++ nl :: of_string "Symbol: " ++ (b0 :: bar) ++ T)%char.
  do 19 (rewrite search_miss by reflexivity).
  rewrite search_miss by (apply symbol_not_in_panel_name; assumption).
  unfold re_symbol1 at 1. cbn [Seqs].
  rewrite search_skip_word;
    [|apply alnum_word, letter_alnum, Hc
     |apply (forallb_impl _ _ _ alnum_word), Hfoo].
  fold re_symbol1.
  change (nl :: of_string "Symbol: " ++ (b0 :: bar) ++ T)
    with ("010" :: "S" :: "y" :: "m" :: "b" :: "o" :: "l" :: ":" :: " "
          :: (b0 :: bar) ++ T)%char.
  rewrite search_miss by (apply run_after_boundary; reflexivity).
  eexists. split.
  - apply search_hit. unfold re_symbol1. cbn [Seqs].
    eapply hd_seq; [apply hd_is_cons|].
    eapply hd_seq; [apply hd_is_cons|].
    eapply hd_seq.
    { cbn [run Plus colon_or_space groups_of rest].
      change (":" :: " " :: (b0 :: bar) ++ T)%char
        with ([":"; " "]%char ++ ((b0 :: bar) ++ T)).
      apply greedy_head.
      - reflexivity.
      - right. split; [|exact I]. apply alnum_not_separator, letter_alnum, Hb0.
      - simpl; lia.
      - simpl; lia. }
    cbn [last_char fold_left run rest letter groups_of].
    apply hd_is_map. apply greedy_head.
    + apply (forallb_impl _ _ _ letter_in_class), Hbar.
    + right. split; [reflexivity|exact Hmax].
    + exact Hmin.
    + rewrite length_app. lia.
  - cbn [caps set_cap]. unfold g1, group.
    cbn [groups get_cap List.find fst snd Nat.eqb rest].
    apply consumed_app.
Qed.

Lemma wallet_of_panel_message c foo bar h :
  is_letter c = true → forallb is_alnum foo = true →
  forallb is_letter bar = true → bar ≠ [] →
  forallb is_hex h = true → List.length h = 40%nat →
  ∃ m, js_match false re_wallet
         (panel_message (c :: foo) bar ("0" :: "x" :: h)%char) = Some m
       ∧ g1 m = ("0" :: "x" :: h)%char.
Proof.
  intros Hc Hfoo Hbar Hne Hh Hlen.
  destruct bar as [|b0 bar]; [contradiction|]. clear Hne.
  cbn [forallb] in Hbar. apply andb_true_iff in Hbar as [Hb0 Hbar].
  unfold js_match, panel_message.
  change (of_string "Deploy token" ++ nl :: of_string "Name: " ++ (c :: foo)
          ++ nl :: of_string "Symbol: " ++ (b0 :: bar)
          ++ nl :: of_string "Wallet: " ++ ("0" :: "x" :: h)%char)
    with ("D" :: "e" :: "p" :: "l" :: "o" :: "y" :: " " :: "t" :: "o" :: "k"
          :: "e" :: "n" :: "010" :: "N" :: "a" :: "m" :: "e" :: ":" :: " "
          :: c :: foo ++
          ("010" :: "S" :: "y" :: "m" :: "b" :: "o" :: "l" :: ":" :: " "
           :: b0 :: bar ++
           ("010" :: "W" :: "a" :: "l" :: "l" :: "e" :: "t" :: ":" :: " "
            :: "0" :: "x" :: h)))%char.
  do 19 (rewrite search_miss by (apply wallet_needs_zero; reflexivity)).
  rewrite search_miss by (apply wallet_needs_zero, letter_not_zero, Hc).
  unfold re_wallet. cbn [Seqs].
  rewrite search_skip_word;
    [|apply alnum_word, letter_alnum, Hc
     |apply (forallb_impl _ _ _ alnum_word), Hfoo].
  fold re_wallet.
  do 9 (rewrite search_miss by (apply wallet_needs_zero; reflexivity)).
  rewrite search_miss by (apply wallet_needs_zero, letter_not_zero, Hb0).
  unfold re_wallet. cbn [Seqs].
  rewrite search_skip_word;
    [|apply alnum_word, letter_alnum, Hb0
     |apply (forallb_impl _ _ _ (fun a H => alnum_word a (letter_alnum a H))), Hbar].
  fold re_wallet.
  do 9 (rewrite search_miss by (apply wallet_needs_zero; reflexivity)).
  destruct (last_char_word h "x" eq_refl (forallb_impl _ _ _ hex_word Hh))
    as (d & Hd & Hword).
  eexists. split.
  - apply search_hit. unfold re_wallet. cbn [Seqs].
    eapply hd_seq; [apply hd_is_cons|].
    eapply hd_seq.
    { cbn [run]. apply hd_is_map.
      eapply hd_is_flat_map; [apply hd_is_cons|].
      eapply hd_is_flat_map; [apply hd_is_cons|].
      cbn [rest groups_of]. rewrite <- (app_nil_r h) at 2.
      apply greedy_head.
      - apply (forallb_impl _ _ _ hex_in_class), Hh.
      - left. rewrite Hlen. reflexivity.
      - lia.
      - lia. }
    cbn [run word_before word_after set_cap prev rest last_char fold_left].
    fold (last_char h (Some "x"%char)). rewrite Hd.
    cbn [word_before set_cap prev rest caps]. rewrite Hword. apply hd_is_cons.
  - cbn [caps set_cap]. unfold g1, group.
    cbn [groups get_cap List.find fst snd Nat.eqb rest].
    rewrite <- (app_nil_r ("0" :: "x" :: h)%char) at 1.
    apply consumed_app.
Qed.

Lemma parseDeployMessage_panel foo bar w :
  token_name foo = true → ticker_symbol bar = true → wallet_address w = true →
  ∃ p, parseDeployMessage (panel_message foo bar w) = Some p
       ∧ name p = Some foo
       ∧ symbol p = Some (toUpperCase bar)
       ∧ wallet p = Some w.
Proof.
  intros Hfoo Hbar Hw.
  destruct foo as [|c foo]; [discriminate Hfoo|].
  destruct (wallet_address_inv _ Hw) as (h & -> & Hh & Hlen).
  pose proof Hfoo as Hfoo'. pose proof Hbar as Hbar'.
  unfold token_name in Hfoo'. unfold ticker_symbol in Hbar'.
  apply andb_true_iff in Hfoo' as [[[Hc Hal]%andb_true_iff _]%andb_true_iff _].
  apply andb_true_iff in Hbar' as [[Hlet Hmin%Nat.leb_le]%andb_true_iff _].
  destruct (name_of_panel_message c foo bar ("0" :: "x" :: h)%char Hc Hal)
    as (mn & Hmn & Hgn).
  destruct (symbol_of_panel_message c foo bar ("0" :: "x" :: h)%char Hfoo Hbar)
    as (ms & Hms & Hgs).
  destruct (wallet_of_panel_message c foo bar h Hc Hal Hlet) as (mw & Hmw & Hgw);
    [intros ->; simpl in Hmin; lia|exact Hh|exact Hlen|].
  assert (Hword : forallb (fun a => negb (is_space a)) (c :: foo) = true).
  { apply alnum_no_space. simpl. rewrite (letter_alnum _ Hc). exact Hal. }
  assert (Hname : name (extract (panel_message (c :: foo) bar ("0" :: "x" :: h)%char))
                  = Some (c :: foo)).
  { unfold extract. cbn [name]. rewrite Hmn. cbn [or_else option_map].
    rewrite Hgn, (trim_word _ Hword), (collapse_word _ Hword). reflexivity. }
  exists (extract (panel_message (c :: foo) bar ("0" :: "x" :: h)%char)).
  split; [|split; [exact Hname|split]].
  - unfold parseDeployMessage.
    replace (has_deploy_keyword (panel_message (c :: foo) bar ("0" :: "x" :: h)%char))
      with true by reflexivity.
    cbn [negb]. rewrite Hname. reflexivity.
  - unfold extract. cbn [symbol]. rewrite Hms. cbn [or_else option_map].
    rewrite Hgs, trim_word; [reflexivity|].
    apply alnum_no_space. revert Hlet. apply forallb_impl, letter_alnum.
  - unfold extract. cbn [wallet]. rewrite Hmw. cbn [option_map].
    rewrite Hgw. reflexivity.
Qed.

Lemma trim_unchanged c t d :
  is_space c = false → is_space d = false → trim (c :: t ++ [d]) = c :: t ++ [d].
Proof.
  intros Hc Hd. unfold trim. cbn [trimStart]. rewrite Hc.
  change (c :: t ++ [d]) with ((c :: t) ++ [d]). rewrite rev_app_distr.
  cbn [rev app trimStart]. rewrite Hd.
  change (d :: rev t ++ [c]) with ([d] ++ rev (c :: t)).
  rewrite rev_app_distr, rev_involutive. reflexivity.
Qed.

Lemma hex_not_space a : is_hex a = true → is_space a = false.
Proof.
  destruct a as [[|] [|] [|] [|] [|] [|] [|] [|]]; vm_compute; congruence.
Qed.

Lemma upper_letter a : is_letter a = true → is_letter (upper_ascii a) = true.
Proof.
  destruct a as [[|] [|] [|] [|] [|] [|] [|] [|]]; vm_compute; congruence.
Qed.

Lemma ticker_symbol_upper bar :
  ticker_symbol bar = true → ticker_symbol (toUpperCase bar) = true.
Proof.
  unfold ticker_symbol, toUpperCase. rewrite length_map.
  intros [[Hall ->]%andb_true_iff ->]%andb_true_iff.
  rewrite !andb_true_r.
  induction bar as [|a bar IH]; [reflexivity|].
  simpl in Hall |- *. apply andb_true_iff in Hall as [Ha Hall].
  rewrite (upper_letter _ Ha). apply IH, Hall.
Qed.

Lemma toUpperCase_twice bar :
  forallb is_letter bar = true → toUpperCase (toUpperCase bar) = toUpperCase bar.
Proof. intros H. apply toUpperCase_capitals, toUpperCase_letters, H. Qed.

(** X23. From the deploy panel of the chat page to the dispatch.  When the
    panel is submitted with a one-word token name, a symbol of two to ten
    letters and a wallet that is [0x] and forty hexadecimal digits, and
    the optional fields are left empty, the text it builds is sent as the
    message, [parseDeployMessage] reads the three fields back from it, and
    the chat route hands them to the dispatch: the name as typed, the
    symbol in capitals, and the wallet as typed, whatever wallet the
    browser has stored. *)
Theorem deploy_panel_dispatch form (b : Browser) :
  token_name (f_name form) = true →
  ticker_symbol (f_symbol form) = true →
  wallet_address (f_wallet form) = true →
  f_website form = [] → f_twitter form = [] → f_description form = [] →
  ∃ text message userWallet p,
    handleSubmit form = Some text
    ∧ chat_request text b = Some (message, userWallet)
    ∧ chat_step message (Some userWallet) = Dispatch p
    ∧ name p = Some (f_name form)
    ∧ symbol p = Some (toUpperCase (f_symbol form))
    ∧ wallet p = Some (f_wallet form).
Proof.
  intros Hfoo Hbar Hw Hweb Htw Hdesc.
  set (foo := f_name form) in *. set (bar := f_symbol form) in *.
  set (w := f_wallet form) in *.
  assert (Hnf : nonempty foo = true) by (destruct foo; [discriminate Hfoo|reflexivity]).
  assert (Hnb : nonempty bar = true) by (destruct bar; [discriminate Hbar|reflexivity]).
  assert (Hnw : nonempty w = true) by (destruct w; [discriminate Hw|reflexivity]).
  assert (Hbuild : buildMessage form = panel_message foo (toUpperCase bar) w).
  { unfold buildMessage, push_if. fold foo bar w.
    rewrite Hnf, Hnb, Hnw, Hweb, Htw, Hdesc. cbn [nonempty app].
    unfold join_lines, panel_message. cbn [flat_map].
    rewrite app_nil_r.
    repeat (rewrite <- app_comm_cons || rewrite <- app_assoc). reflexivity. }
  pose proof (ticker_symbol_upper _ Hbar) as Hbar'.
  destruct (parseDeployMessage_panel foo (toUpperCase bar) w Hfoo Hbar' Hw)
    as (p & Hp & Hname & Hsym & Hwal).
  assert (Hlet : forallb is_letter bar = true).
  { unfold ticker_symbol in Hbar.
    apply andb_true_iff in Hbar as [[H _]%andb_true_iff _]. exact H. }
  rewrite (toUpperCase_twice _ Hlet) in Hsym.
  assert (Htrim : trim (panel_message foo (toUpperCase bar) w)
                  = panel_message foo (toUpperCase bar) w).
  { destruct (wallet_address_inv _ Hw) as (h & Hwh & Hh & Hlen).
    destruct (exists_last (l := h)) as (h' & d & Hh').
    { intros ->. discriminate Hlen. }
    rewrite Hwh, Hh'. unfold panel_message.
    change (of_string "Deploy token" ++ ?x) with ("D"%char :: of_string "eploy token" ++ x).
    rewrite Hh' in Hh. rewrite forallb_app in Hh.
    apply andb_true_iff in Hh as [_ Hd]. simpl in Hd.
    rewrite andb_true_r in Hd. apply hex_not_space in Hd.
    match goal with
    | |- trim (?c :: ?body) = _ =>
        replace body with
          ((of_string "eploy token" ++ nl :: of_string "Name: " ++ foo
            ++ nl :: of_string "Symbol: " ++ toUpperCase bar
            ++ nl :: of_string "Wallet: " ++ ("0" :: "x" :: h')%char) ++ [d])
    end.
    - apply trim_unchanged; [reflexivity|exact Hd].
    - cbn [app]. repeat (rewrite <- ?app_assoc; cbn [app]; f_equal). }
  exists (buildMessage form), (panel_message foo (toUpperCase bar) w),
         (getUserWallet b), (with_wallet p w).
  split.
  { unfold handleSubmit. fold foo bar w. rewrite Hnf, Hnb, Hnw. reflexivity. }
  split.
  { unfold chat_request. rewrite Hbuild, Htrim.
    replace (nonempty (panel_message foo (toUpperCase bar) w)) with true by reflexivity.
    reflexivity. }
  split.
  { unfold chat_step. rewrite Hp, Hname, Hsym. cbn [Deploy.truthy].
    rewrite Hnf, toUpperCase_nonempty, Hnb. cbn [andb].
    unfold walletToUse. rewrite Hwal. cbn [or_default]. rewrite Hnw.
    destruct (wallet_address_inv _ Hw) as (h & Hwh & _).
    rewrite Hwh. destruct h; reflexivity. }
  cbn [with_wallet name symbol wallet]. auto.
Qed.

Lemma deploy_panel_dispatch_witness :
  let form := mkDeployFormData (of_string "Foo") (of_string "foo") address_1 [] [] [] in
  ∃ text message userWallet p,
    handleSubmit form = Some text
    ∧ chat_request text (mkBrowser ∅ ∅) = Some (message, userWallet)
    ∧ chat_step message (Some userWallet) = Dispatch p
    ∧ name p = Some (f_name form)
    ∧ symbol p = Some (toUpperCase (f_symbol form))
    ∧ wallet p = Some (f_wallet form).
Proof.
  apply (deploy_panel_dispatch
           (mkDeployFormData (of_string "Foo") (of_string "foo") address_1 [] [] [])
           (mkBrowser ∅ ∅));
    reflexivity.
Defined.

End PanelMessage.

(** ** The name [parseDeployMessage] returns *)

Section NameShape.

Implicit Types (s x n : str) (c d : ascii) (r : bool).

Lemma not_space_not_blank c : is_space c = false → Ascii.eqb " " c = false.
Proof.
  intros Hc. destruct (Ascii.eqb " " c) eqn:E; [|reflexivity].
  apply Ascii.eqb_eq in E. subst c. discriminate Hc.
Qed.

Lemma collapse_spaces s : ∀ r c, In c (collapse r s) → is_space c = true → c = " "%char.
Proof.
  induction s as [|a s IH]; intros r c; simpl; [intros []|].
  destruct (is_space a) eqn:Ha.
  - destruct r; [apply IH|]. intros [<-|Hin]; [reflexivity|]. apply (IH _ _ Hin).
  - intros [<-|Hin]; [congruence|]. apply (IH _ _ Hin).
Qed.

Lemma collapse_no_double s :
  ∀ r, includes (collapse r s) (of_string "  ") = false
       ∧ (r = true → startsWith (collapse r s) (of_string " ") = false).
Proof.
  induction s as [|a s IH]; intros r; [split; reflexivity|].
  simpl collapse. destruct (is_space a) eqn:Ha.
  - destruct r; [apply IH|]. split; [|discriminate].
    destruct (IH true) as [Hinc Hhd]. specialize (Hhd eq_refl).
    cbn [includes]. rewrite Hinc.
    change (startsWith (" "%char :: collapse true s) (of_string "  "))
      with (Ascii.eqb " " " " && startsWith (collapse true s) (of_string " ")).
    rewrite Hhd. reflexivity.
  - destruct (IH false) as [Hinc _]. split.
    + cbn [includes]. rewrite Hinc.
      change (startsWith (a :: collapse false s) (of_string "  "))
        with (Ascii.eqb " " a && startsWith (collapse false s) (of_string " ")).
      rewrite (not_space_not_blank _ Ha). reflexivity.
    + intros _.
      change (startsWith (a :: collapse false s) (of_string " "))
        with (Ascii.eqb " " a && startsWith (collapse false s) []).
      rewrite (not_space_not_blank _ Ha). reflexivity.
Qed.

Lemma collapse_last s : ∀ r d,
  is_space d = false → collapse r (s ++ [d]) = collapse r s ++ [d].
Proof.
  induction s as [|a s IH]; intros r d Hd; simpl; [rewrite Hd; reflexivity|].
  destruct (is_space a); [destruct r|]; rewrite (IH _ _ Hd); reflexivity.
Qed.

Lemma trimStart_shape s :
  (trimStart s = [] ∧ forallb is_space s = true)
  ∨ ∃ c t, trimStart s = c :: t ∧ is_space c = false.
Proof.
  induction s as [|a s IH]; [left; split; reflexivity|].
  simpl. destruct (is_space a) eqn:Ha; [|right; exists a, s; auto].
  destruct IH as [[H1 H2]|H]; [left; auto|right; exact H].
Qed.

Lemma trimStart_suffix s : ∃ ws, s = ws ++ trimStart s.
Proof.
  induction s as [|a s [ws IH]]; [exists []; reflexivity|].
  simpl. destruct (is_space a); [|exists []; reflexivity].
  exists (a :: ws). simpl. rewrite <- IH. reflexivity.
Qed.

(** A trimmed text is empty, or it starts and ends with a character that
    is no white space. *)
Lemma trim_shape x :
  trim x = []
  ∨ ∃ c t u d, trim x = c :: t ∧ is_space c = false
               ∧ trim x = u ++ [d] ∧ is_space d = false.
Proof.
  unfold trim.
  destruct (trimStart_shape x) as [[-> _]|(c & t & -> & Hc)]; [left; reflexivity|].
  right. cbn [rev].
  destruct (trimStart_shape (rev t ++ [c])) as [[_ Hall]|(d & u & Hb & Hd)].
  { rewrite forallb_app in Hall. apply andb_true_iff in Hall as [_ Hall].
    simpl in Hall. rewrite Hc in Hall. discriminate. }
  destruct (trimStart_suffix (rev t ++ [c])) as [ws Hws].
  rewrite Hb in Hws |- *.
  destruct (exists_last (l := d :: u)) as (u' & e & Hu'); [discriminate|].
  rewrite Hu' in Hws. rewrite app_assoc in Hws.
  apply app_inj_tail in Hws as [_ <-].
  exists c, (rev u'), (rev u), d.
  split; [rewrite Hu', rev_app_distr; reflexivity|].
  split; [exact Hc|]. split; [reflexivity|exact Hd].
Qed.

(** X24. A name in the result of [parseDeployMessage] is in normal form: the
    only white space in it is the single space, no two spaces are
    adjacent, and it neither starts nor ends with a space. *)
Theorem parseDeployMessage_name_shape text p n :
  parseDeployMessage text = Some p → name p = Some n →
  (∀ c, In c n → is_space c = true → c = " "%char)
  ∧ includes n (of_string "  ") = false
  ∧ startsWith n (of_string " ") = false
  ∧ (∀ u d, n = u ++ [d] → d ≠ " "%char).
Proof.
  intros Hp Hn. apply parseDeployMessage_some in Hp as ->.
  unfold extract in Hn; cbn [name] in Hn.
  destruct (or_else _ _) as [m|]; [|discriminate]. injection Hn as <-.
  unfold collapse_ws. split; [apply collapse_spaces|].
  split; [apply collapse_no_double|].
  destruct (trim_shape (g1 m)) as [->|(c & t & u & d & Hhead & Hc & Hlast & Hd)].
  { split; [reflexivity|]. intros u d H. destruct u; discriminate H. }
  split.
  - rewrite Hhead. cbn [collapse]. rewrite Hc.
    change (startsWith (c :: collapse false t) (of_string " "))
      with (Ascii.eqb " " c && startsWith (collapse false t) []).
    rewrite (not_space_not_blank _ Hc). reflexivity.
  - intros u' d' H. rewrite Hlast, (collapse_last _ _ _ Hd) in H.
    apply app_inj_tail in H as [_ ->]. intros ->. discriminate Hd.
Qed.

Lemma parseDeployMessage_name_shape_witness :
  let text := of_string "deploy name:   My    Token   symbol MT" in
  ∃ p,
    parseDeployMessage text = Some p
    ∧ name p = Some (of_string "My Token")
    ∧ (∀ c, In c (of_string "My Token") → is_space c = true → c = " "%char)
    ∧ includes (of_string "My Token") (of_string "  ") = false
    ∧ startsWith (of_string "My Token") (of_string " ") = false
    ∧ (∀ u d, of_string "My Token" = u ++ [d] → d ≠ " "%char).
Proof.
  cbv zeta. eexists. split; [vm_compute; reflexivity|].
  split; [reflexivity|].
  eapply (parseDeployMessage_name_shape
            (of_string "deploy name:   My    Token   symbol MT"));
    [vm_compute; reflexivity|reflexivity].
Defined.

End NameShape.
